(** * email-cleanup: the scan, classify, confirm and delete pipeline

    A shallow embedding of [emailcleanup.py] (class [FastGmailCleanup]).

    Conventions of the embedding.
    - Text is a [string] of its UTF-8 bytes, and [lower] is [str.lower] on
      the code points these bytes stand for.  The classifier is also given
      with the lower-casing function as a parameter.
    - The IMAP session, the terminal and the signal delivery are the
      environment: a record of operations over an abstract world.  Every
      operation returns the next world, whether SIGINT was delivered while it
      ran, and either a value or an exception.
    - Methods of the class are state transformers over a [machine]: the world,
      the attributes of [self], and the log of what was done (newest first).
    - Banner and progress lines printed only for decoration are left out of
      the log; every protocol call, prompt, sleep and report line is in it. *)

From Stdlib Require Import String Ascii List ZArith NArith Arith Bool Lia.
Import ListNotations.
Local Open Scope string_scope.
Local Open Scope list_scope.
Local Open Scope nat_scope.

(* ================================================================= *)
(** ** Unicode text

    A [str] is kept as the [string] of its UTF-8 bytes (a lone surrogate,
    which a [str] may hold, as the three bytes of its code point).  Bytes
    that are no UTF-8 stand for U+FFFD.  The tables below are those of
    [str.lower] in Unicode 14.0.0, the data of CPython 3.11. *)

Module PyUnicode.

Local Open Scope N_scope.

Definition REPLACEMENT : N := 65533.
Definition MAX_CODE : N := 1114111.

(** *** UTF-8 *)

(** What the first byte of a character says: the character itself, or how
    many bytes follow, the least code point they may give and the bits
    read so far. *)
Inductive first_byte : Type :=
| Single (c : N)
| Lead (need : nat) (least acc : N)
| Stray.

Definition start (n : N) : first_byte :=
  if n <? 128 then Single n
  else if (194 <=? n) && (n <=? 223) then Lead 1 128 (n - 192)
  else if (224 <=? n) && (n <=? 239) then Lead 2 2048 (n - 224)
  else if (240 <=? n) && (n <=? 244) then Lead 3 65536 (n - 240)
  else Stray.

Definition is_continuation (n : N) : bool := (128 <=? n) && (n <=? 191).

(** The code points of the bytes [s], read with [need] continuation bytes
    of a character still to come. *)
Fixpoint decode_from (need : nat) (least acc : N) (s : string) : list N :=
  match s with
  | EmptyString => match need with O => [] | S _ => [REPLACEMENT] end
  | String b s' =>
      let n := N_of_ascii b in
      let fresh :=
        match start n with
        | Single c => c :: decode_from 0 0 0 s'
        | Lead need' least' acc' => decode_from need' least' acc' s'
        | Stray => REPLACEMENT :: decode_from 0 0 0 s'
        end in
      match need with
      | O => fresh
      | S k =>
          if is_continuation n
          then let acc' := acc * 64 + (n - 128) in
               match k with
               | O => (if (least <=? acc') && (acc' <=? MAX_CODE)
                       then acc' else REPLACEMENT)
                      :: decode_from 0 0 0 s'
               | S _ => decode_from k least acc' s'
               end
          else REPLACEMENT :: fresh
      end
  end.

Definition decode (s : string) : list N := decode_from 0 0 0 s.

Definition byte (n : N) : ascii := ascii_of_N n.

Definition encode1 (c : N) : string :=
  if c <? 128 then String (byte c) EmptyString
  else if c <? 2048
  then String (byte (192 + c / 64))
         (String (byte (128 + c mod 64)) EmptyString)
  else if c <? 65536
  then String (byte (224 + c / 4096))
         (String (byte (128 + (c / 64) mod 64))
            (String (byte (128 + c mod 64)) EmptyString))
  else if c <=? MAX_CODE
  then String (byte (240 + c / 262144))
         (String (byte (128 + (c / 4096) mod 64))
            (String (byte (128 + (c / 64) mod 64))
               (String (byte (128 + c mod 64)) EmptyString)))
  else String (byte 239) (String (byte 191) (String (byte 189) EmptyString)).

Fixpoint encode (l : list N) : string :=
  match l with
  | [] => EmptyString
  | c :: rest => (encode1 c ++ encode rest)%string
  end.

(** *** The lower-case mapping *)

(** Runs of code points beyond ASCII with a lower-case form of one code
    point: first, last, step, and the form of the first; the forms go up
    with the code points. *)
Definition LOWER_RUNS : list (N * N * N * N) :=
  [
    (192, 214, 1, 224); (216, 222, 1, 248); (256, 302, 2, 257);
    (306, 310, 2, 307); (313, 327, 2, 314); (330, 374, 2, 331);
    (376, 376, 1, 255); (377, 381, 2, 378); (385, 385, 1, 595);
    (386, 388, 2, 387); (390, 390, 1, 596); (391, 391, 1, 392);
    (393, 394, 1, 598); (395, 395, 1, 396); (398, 398, 1, 477);
    (399, 399, 1, 601); (400, 400, 1, 603); (401, 401, 1, 402);
    (403, 403, 1, 608); (404, 404, 1, 611); (406, 406, 1, 617);
    (407, 407, 1, 616); (408, 408, 1, 409); (412, 412, 1, 623);
    (413, 413, 1, 626); (415, 415, 1, 629); (416, 420, 2, 417);
    (422, 422, 1, 640); (423, 423, 1, 424); (425, 425, 1, 643);
    (428, 428, 1, 429); (430, 430, 1, 648); (431, 431, 1, 432);
    (433, 434, 1, 650); (435, 437, 2, 436); (439, 439, 1, 658);
    (440, 440, 1, 441); (444, 444, 1, 445); (452, 452, 1, 454);
    (453, 453, 1, 454); (455, 455, 1, 457); (456, 456, 1, 457);
    (458, 458, 1, 460); (459, 475, 2, 460); (478, 494, 2, 479);
    (497, 497, 1, 499); (498, 500, 2, 499); (502, 502, 1, 405);
    (503, 503, 1, 447); (504, 542, 2, 505); (544, 544, 1, 414);
    (546, 562, 2, 547); (570, 570, 1, 11365); (571, 571, 1, 572);
    (573, 573, 1, 410); (574, 574, 1, 11366); (577, 577, 1, 578);
    (579, 579, 1, 384); (580, 580, 1, 649); (581, 581, 1, 652);
    (582, 590, 2, 583); (880, 882, 2, 881); (886, 886, 1, 887);
    (895, 895, 1, 1011); (902, 902, 1, 940); (904, 906, 1, 941);
    (908, 908, 1, 972); (910, 911, 1, 973); (913, 929, 1, 945);
    (931, 939, 1, 963); (975, 975, 1, 983); (984, 1006, 2, 985);
    (1012, 1012, 1, 952); (1015, 1015, 1, 1016); (1017, 1017, 1, 1010);
    (1018, 1018, 1, 1019); (1021, 1023, 1, 891); (1024, 1039, 1, 1104);
    (1040, 1071, 1, 1072); (1120, 1152, 2, 1121); (1162, 1214, 2, 1163);
    (1216, 1216, 1, 1231); (1217, 1229, 2, 1218); (1232, 1326, 2, 1233);
    (1329, 1366, 1, 1377); (4256, 4293, 1, 11520); (4295, 4295, 1, 11559);
    (4301, 4301, 1, 11565); (5024, 5103, 1, 43888); (5104, 5109, 1, 5112);
    (7312, 7354, 1, 4304); (7357, 7359, 1, 4349); (7680, 7828, 2, 7681);
    (7838, 7838, 1, 223); (7840, 7934, 2, 7841); (7944, 7951, 1, 7936);
    (7960, 7965, 1, 7952); (7976, 7983, 1, 7968); (7992, 7999, 1, 7984);
    (8008, 8013, 1, 8000); (8025, 8031, 2, 8017); (8040, 8047, 1, 8032);
    (8072, 8079, 1, 8064); (8088, 8095, 1, 8080); (8104, 8111, 1, 8096);
    (8120, 8121, 1, 8112); (8122, 8123, 1, 8048); (8124, 8124, 1, 8115);
    (8136, 8139, 1, 8050); (8140, 8140, 1, 8131); (8152, 8153, 1, 8144);
    (8154, 8155, 1, 8054); (8168, 8169, 1, 8160); (8170, 8171, 1, 8058);
    (8172, 8172, 1, 8165); (8184, 8185, 1, 8056); (8186, 8187, 1, 8060);
    (8188, 8188, 1, 8179); (8486, 8486, 1, 969); (8490, 8490, 1, 107);
    (8491, 8491, 1, 229); (8498, 8498, 1, 8526); (8544, 8559, 1, 8560);
    (8579, 8579, 1, 8580); (9398, 9423, 1, 9424); (11264, 11311, 1, 11312);
    (11360, 11360, 1, 11361); (11362, 11362, 1, 619); (11363, 11363, 1, 7549);
    (11364, 11364, 1, 637); (11367, 11371, 2, 11368); (11373, 11373, 1, 593);
    (11374, 11374, 1, 625); (11375, 11375, 1, 592); (11376, 11376, 1, 594);
    (11378, 11378, 1, 11379); (11381, 11381, 1, 11382);
    (11390, 11391, 1, 575); (11392, 11490, 2, 11393);
    (11499, 11501, 2, 11500); (11506, 11506, 1, 11507);
    (42560, 42604, 2, 42561); (42624, 42650, 2, 42625);
    (42786, 42798, 2, 42787); (42802, 42862, 2, 42803);
    (42873, 42875, 2, 42874); (42877, 42877, 1, 7545);
    (42878, 42886, 2, 42879); (42891, 42891, 1, 42892);
    (42893, 42893, 1, 613); (42896, 42898, 2, 42897);
    (42902, 42920, 2, 42903); (42922, 42922, 1, 614); (42923, 42923, 1, 604);
    (42924, 42924, 1, 609); (42925, 42925, 1, 620); (42926, 42926, 1, 618);
    (42928, 42928, 1, 670); (42929, 42929, 1, 647); (42930, 42930, 1, 669);
    (42931, 42931, 1, 43859); (42932, 42946, 2, 42933);
    (42948, 42948, 1, 42900); (42949, 42949, 1, 642); (42950, 42950, 1, 7566);
    (42951, 42953, 2, 42952); (42960, 42960, 1, 42961);
    (42966, 42968, 2, 42967); (42997, 42997, 1, 42998);
    (65313, 65338, 1, 65345); (66560, 66599, 1, 66600);
    (66736, 66771, 1, 66776); (66928, 66938, 1, 66967);
    (66940, 66954, 1, 66979); (66956, 66962, 1, 66995);
    (66964, 66965, 1, 67003); (68736, 68786, 1, 68800);
    (71840, 71871, 1, 71872); (93760, 93791, 1, 93792);
    (125184, 125217, 1, 125218)
  ].

Fixpoint lookup_run (c : N) (runs : list (N * N * N * N)) : option N :=
  match runs with
  | [] => None
  | (first, last, step, form) :: rest =>
      if (first <=? c) && (c <=? last) && ((c - first) mod step =? 0)
      then Some (form + (c - first))
      else lookup_run c rest
  end.

(** [_PyUnicode_ToLowerFull]: U+0130 is the one code point with a lower-case
    form of two code points. *)
Definition lower1 (c : N) : list N :=
  if c <? 128 then (if (65 <=? c) && (c <=? 90) then [c + 32] else [c])
  else if c =? 304 then [105; 775]
  else match lookup_run c LOWER_RUNS with
       | Some d => [d]
       | None => [c]
       end.

(** *** The capital sigma *)

(** The code points that are case-ignorable. *)
Definition CASE_IGNORABLE : list (N * N) :=
  [
    (39, 39); (46, 46); (58, 58); (94, 94); (96, 96); (168, 168); (173, 173);
    (175, 175); (180, 180); (183, 184); (688, 879); (884, 885); (890, 890);
    (900, 901); (903, 903); (1155, 1161); (1369, 1369); (1375, 1375);
    (1425, 1469); (1471, 1471); (1473, 1474); (1476, 1477); (1479, 1479);
    (1524, 1524); (1536, 1541); (1552, 1562); (1564, 1564); (1600, 1600);
    (1611, 1631); (1648, 1648); (1750, 1757); (1759, 1768); (1770, 1773);
    (1807, 1807); (1809, 1809); (1840, 1866); (1958, 1968); (2027, 2037);
    (2042, 2042); (2045, 2045); (2070, 2093); (2137, 2139); (2184, 2184);
    (2192, 2193); (2200, 2207); (2249, 2306); (2362, 2362); (2364, 2364);
    (2369, 2376); (2381, 2381); (2385, 2391); (2402, 2403); (2417, 2417);
    (2433, 2433); (2492, 2492); (2497, 2500); (2509, 2509); (2530, 2531);
    (2558, 2558); (2561, 2562); (2620, 2620); (2625, 2626); (2631, 2632);
    (2635, 2637); (2641, 2641); (2672, 2673); (2677, 2677); (2689, 2690);
    (2748, 2748); (2753, 2757); (2759, 2760); (2765, 2765); (2786, 2787);
    (2810, 2815); (2817, 2817); (2876, 2876); (2879, 2879); (2881, 2884);
    (2893, 2893); (2901, 2902); (2914, 2915); (2946, 2946); (3008, 3008);
    (3021, 3021); (3072, 3072); (3076, 3076); (3132, 3132); (3134, 3136);
    (3142, 3144); (3146, 3149); (3157, 3158); (3170, 3171); (3201, 3201);
    (3260, 3260); (3263, 3263); (3270, 3270); (3276, 3277); (3298, 3299);
    (3328, 3329); (3387, 3388); (3393, 3396); (3405, 3405); (3426, 3427);
    (3457, 3457); (3530, 3530); (3538, 3540); (3542, 3542); (3633, 3633);
    (3636, 3642); (3654, 3662); (3761, 3761); (3764, 3772); (3782, 3782);
    (3784, 3789); (3864, 3865); (3893, 3893); (3895, 3895); (3897, 3897);
    (3953, 3966); (3968, 3972); (3974, 3975); (3981, 3991); (3993, 4028);
    (4038, 4038); (4141, 4144); (4146, 4151); (4153, 4154); (4157, 4158);
    (4184, 4185); (4190, 4192); (4209, 4212); (4226, 4226); (4229, 4230);
    (4237, 4237); (4253, 4253); (4348, 4348); (4957, 4959); (5906, 5908);
    (5938, 5939); (5970, 5971); (6002, 6003); (6068, 6069); (6071, 6077);
    (6086, 6086); (6089, 6099); (6103, 6103); (6109, 6109); (6155, 6159);
    (6211, 6211); (6277, 6278); (6313, 6313); (6432, 6434); (6439, 6440);
    (6450, 6450); (6457, 6459); (6679, 6680); (6683, 6683); (6742, 6742);
    (6744, 6750); (6752, 6752); (6754, 6754); (6757, 6764); (6771, 6780);
    (6783, 6783); (6823, 6823); (6832, 6862); (6912, 6915); (6964, 6964);
    (6966, 6970); (6972, 6972); (6978, 6978); (7019, 7027); (7040, 7041);
    (7074, 7077); (7080, 7081); (7083, 7085); (7142, 7142); (7144, 7145);
    (7149, 7149); (7151, 7153); (7212, 7219); (7222, 7223); (7288, 7293);
    (7376, 7378); (7380, 7392); (7394, 7400); (7405, 7405); (7412, 7412);
    (7416, 7417); (7468, 7530); (7544, 7544); (7579, 7679); (8125, 8125);
    (8127, 8129); (8141, 8143); (8157, 8159); (8173, 8175); (8189, 8190);
    (8203, 8207); (8216, 8217); (8228, 8228); (8231, 8231); (8234, 8238);
    (8288, 8292); (8294, 8303); (8305, 8305); (8319, 8319); (8336, 8348);
    (8400, 8432); (11388, 11389); (11503, 11505); (11631, 11631);
    (11647, 11647); (11744, 11775); (11823, 11823); (12293, 12293);
    (12330, 12333); (12337, 12341); (12347, 12347); (12441, 12446);
    (12540, 12542); (40981, 40981); (42232, 42237); (42508, 42508);
    (42607, 42610); (42612, 42621); (42623, 42623); (42652, 42655);
    (42736, 42737); (42752, 42785); (42864, 42864); (42888, 42890);
    (42994, 42996); (43000, 43001); (43010, 43010); (43014, 43014);
    (43019, 43019); (43045, 43046); (43052, 43052); (43204, 43205);
    (43232, 43249); (43263, 43263); (43302, 43309); (43335, 43345);
    (43392, 43394); (43443, 43443); (43446, 43449); (43452, 43453);
    (43471, 43471); (43493, 43494); (43561, 43566); (43569, 43570);
    (43573, 43574); (43587, 43587); (43596, 43596); (43632, 43632);
    (43644, 43644); (43696, 43696); (43698, 43700); (43703, 43704);
    (43710, 43711); (43713, 43713); (43741, 43741); (43756, 43757);
    (43763, 43764); (43766, 43766); (43867, 43871); (43881, 43883);
    (44005, 44005); (44008, 44008); (44013, 44013); (64286, 64286);
    (64434, 64450); (65024, 65039); (65043, 65043); (65056, 65071);
    (65106, 65106); (65109, 65109); (65279, 65279); (65287, 65287);
    (65294, 65294); (65306, 65306); (65342, 65342); (65344, 65344);
    (65392, 65392); (65438, 65439); (65507, 65507); (65529, 65531);
    (66045, 66045); (66272, 66272); (66422, 66426); (67456, 67461);
    (67463, 67504); (67506, 67514); (68097, 68099); (68101, 68102);
    (68108, 68111); (68152, 68154); (68159, 68159); (68325, 68326);
    (68900, 68903); (69291, 69292); (69446, 69456); (69506, 69509);
    (69633, 69633); (69688, 69702); (69744, 69744); (69747, 69748);
    (69759, 69761); (69811, 69814); (69817, 69818); (69821, 69821);
    (69826, 69826); (69837, 69837); (69888, 69890); (69927, 69931);
    (69933, 69940); (70003, 70003); (70016, 70017); (70070, 70078);
    (70089, 70092); (70095, 70095); (70191, 70193); (70196, 70196);
    (70198, 70199); (70206, 70206); (70367, 70367); (70371, 70378);
    (70400, 70401); (70459, 70460); (70464, 70464); (70502, 70508);
    (70512, 70516); (70712, 70719); (70722, 70724); (70726, 70726);
    (70750, 70750); (70835, 70840); (70842, 70842); (70847, 70848);
    (70850, 70851); (71090, 71093); (71100, 71101); (71103, 71104);
    (71132, 71133); (71219, 71226); (71229, 71229); (71231, 71232);
    (71339, 71339); (71341, 71341); (71344, 71349); (71351, 71351);
    (71453, 71455); (71458, 71461); (71463, 71467); (71727, 71735);
    (71737, 71738); (71995, 71996); (71998, 71998); (72003, 72003);
    (72148, 72151); (72154, 72155); (72160, 72160); (72193, 72202);
    (72243, 72248); (72251, 72254); (72263, 72263); (72273, 72278);
    (72281, 72283); (72330, 72342); (72344, 72345); (72752, 72758);
    (72760, 72765); (72767, 72767); (72850, 72871); (72874, 72880);
    (72882, 72883); (72885, 72886); (73009, 73014); (73018, 73018);
    (73020, 73021); (73023, 73029); (73031, 73031); (73104, 73105);
    (73109, 73109); (73111, 73111); (73459, 73460); (78896, 78904);
    (92912, 92916); (92976, 92982); (92992, 92995); (94031, 94031);
    (94095, 94111); (94176, 94177); (94179, 94180); (110576, 110579);
    (110581, 110587); (110589, 110590); (113821, 113822); (113824, 113827);
    (118528, 118573); (118576, 118598); (119143, 119145); (119155, 119170);
    (119173, 119179); (119210, 119213); (119362, 119364); (121344, 121398);
    (121403, 121452); (121461, 121461); (121476, 121476); (121499, 121503);
    (121505, 121519); (122880, 122886); (122888, 122904); (122907, 122913);
    (122915, 122916); (122918, 122922); (123184, 123197); (123566, 123566);
    (123628, 123631); (125136, 125142); (125252, 125259); (127995, 127999);
    (917505, 917505); (917536, 917631); (917760, 917999)
  ].

(** The code points that are cased and not case-ignorable. *)
Definition CASED : list (N * N) :=
  [
    (65, 90); (97, 122); (170, 170); (181, 181); (186, 186); (192, 214);
    (216, 246); (248, 442); (444, 447); (452, 659); (661, 687); (880, 883);
    (886, 887); (891, 893); (895, 895); (902, 902); (904, 906); (908, 908);
    (910, 929); (931, 1013); (1015, 1153); (1162, 1327); (1329, 1366);
    (1376, 1416); (4256, 4293); (4295, 4295); (4301, 4301); (4304, 4346);
    (4349, 4351); (5024, 5109); (5112, 5117); (7296, 7304); (7312, 7354);
    (7357, 7359); (7424, 7467); (7531, 7543); (7545, 7578); (7680, 7957);
    (7960, 7965); (7968, 8005); (8008, 8013); (8016, 8023); (8025, 8025);
    (8027, 8027); (8029, 8029); (8031, 8061); (8064, 8116); (8118, 8124);
    (8126, 8126); (8130, 8132); (8134, 8140); (8144, 8147); (8150, 8155);
    (8160, 8172); (8178, 8180); (8182, 8188); (8450, 8450); (8455, 8455);
    (8458, 8467); (8469, 8469); (8473, 8477); (8484, 8484); (8486, 8486);
    (8488, 8488); (8490, 8493); (8495, 8500); (8505, 8505); (8508, 8511);
    (8517, 8521); (8526, 8526); (8544, 8575); (8579, 8580); (9398, 9449);
    (11264, 11387); (11390, 11492); (11499, 11502); (11506, 11507);
    (11520, 11557); (11559, 11559); (11565, 11565); (42560, 42605);
    (42624, 42651); (42786, 42863); (42865, 42887); (42891, 42894);
    (42896, 42954); (42960, 42961); (42963, 42963); (42965, 42969);
    (42997, 42998); (43002, 43002); (43824, 43866); (43872, 43880);
    (43888, 43967); (64256, 64262); (64275, 64279); (65313, 65338);
    (65345, 65370); (66560, 66639); (66736, 66771); (66776, 66811);
    (66928, 66938); (66940, 66954); (66956, 66962); (66964, 66965);
    (66967, 66977); (66979, 66993); (66995, 67001); (67003, 67004);
    (68736, 68786); (68800, 68850); (71840, 71903); (93760, 93823);
    (119808, 119892); (119894, 119964); (119966, 119967); (119970, 119970);
    (119973, 119974); (119977, 119980); (119982, 119993); (119995, 119995);
    (119997, 120003); (120005, 120069); (120071, 120074); (120077, 120084);
    (120086, 120092); (120094, 120121); (120123, 120126); (120128, 120132);
    (120134, 120134); (120138, 120144); (120146, 120485); (120488, 120512);
    (120514, 120538); (120540, 120570); (120572, 120596); (120598, 120628);
    (120630, 120654); (120656, 120686); (120688, 120712); (120714, 120744);
    (120746, 120770); (120772, 120779); (122624, 122633); (122635, 122654);
    (125184, 125251); (127280, 127305); (127312, 127337); (127344, 127369)
  ].

Fixpoint in_ranges (c : N) (ranges : list (N * N)) : bool :=
  match ranges with
  | [] => false
  | (first, last) :: rest =>
      ((first <=? c) && (c <=? last)) || in_ranges c rest
  end.

(** The first code point of [l] that is not case-ignorable is there and is
    cased. *)
Fixpoint cased_next (l : list N) : bool :=
  match l with
  | [] => false
  | c :: rest =>
      if in_ranges c CASE_IGNORABLE then cased_next rest
      else in_ranges c CASED
  end.

Definition CAPITAL_SIGMA : N := 931.
Definition SMALL_SIGMA : N := 963.
Definition FINAL_SIGMA : N := 962.

(** [handle_capital_sigma]: [before] are the code points before the sigma,
    the nearest first, [after] those after it. *)
Definition sigma (before after : list N) : N :=
  if cased_next before && negb (cased_next after)
  then FINAL_SIGMA else SMALL_SIGMA.

(** [do_lower] *)
Fixpoint lower_from (before l : list N) : list N :=
  match l with
  | [] => []
  | c :: rest =>
      (if c =? CAPITAL_SIGMA then [sigma before rest] else lower1 c)
      ++ lower_from (c :: before) rest
  end.

(** [str.lower] *)
Definition str_lower (s : string) : string :=
  encode (lower_from [] (decode s)).

(** *** Notions used to reason about the tables *)

Definition valid (c : N) : Prop := c <= MAX_CODE.

(** The forms a run gives. *)
Definition images (run : N * N * N * N) : list N :=
  let '(first, last, step, form) := run in
  map (fun k => form + N.of_nat k * step)
      (seq 0 (S (N.to_nat ((last - first) / step)))).

(** A code point that [str.lower] leaves as it is, other than '@' and the
    capital sigma. *)
Definition plain (d : N) : bool :=
  (d <=? MAX_CODE) && negb (d =? 64) && negb (d =? CAPITAL_SIGMA)
  && match lower1 d with [e] => e =? d | _ => false end.


(** '@' is among the code points. *)
Definition has_at (l : list N) : bool := existsb (N.eqb 64) l.



End PyUnicode.

(* ================================================================= *)
(** ** Python strings *)

Module PyStr.

Local Open Scope string_scope.

(** [s.lower()] *)
Definition lower (s : string) : string := PyUnicode.str_lower s.




(** [p in s] for strings: [p] occurs in [s] as a contiguous run. *)
Fixpoint contains (p s : string) : bool :=
  prefix p s ||
  match s with
  | EmptyString => false
  | String _ s' => contains p s'
  end.

(** [s.split(sep)] for a one-character separator; the list is never empty. *)
Fixpoint split (sep : ascii) (s : string) : list string :=
  match s with
  | EmptyString => [EmptyString]
  | String c s' =>
      if Ascii.eqb c sep then EmptyString :: split sep s'
      else match split sep s' with
           | h :: t => String c h :: t
           | [] => [String c EmptyString]
           end
  end.

(** [l[0]] and [l[-1]] on a list of strings known to be non-empty. *)
Definition first_item (l : list string) : string := hd EmptyString l.
Definition last_item (l : list string) : string := last l EmptyString.

(** [c] does not occur in [s]. *)
Fixpoint free_of (c : ascii) (s : string) : bool :=
  match s with
  | EmptyString => true
  | String a s' => negb (Ascii.eqb a c) && free_of c s'
  end.

(** Declarative reading of [p in s]. *)
Definition Substring (p s : string) : Prop :=
  exists pre post, s = pre ++ p ++ post.

End PyStr.

(* ================================================================= *)
(** ** The classifier: [is_unnecessary_email_fast] and its rule tables *)

Module Classifier.

Import PyStr.

Definition UNNECESSARY_PATTERNS : list string :=
  [ "noreply"; "no-reply"; "donotreply"; "notification"; "newsletter";
    "unsubscribe"; "promotional"; "marketing"; "sale"; "offer"; "deal";
    "discount"; "coupon"; "survey"; "feedback"; "social.*notification";
    "linkedin.*invitation"; "facebook.*notification"; "twitter.*notification";
    "instagram.*notification"; "spam"; "advertisement"; "promo";
    "alert.*account"; "security.*alert"; "backup.*complete";
    "system.*notification"; "automated.*message"; "digest";
    "weekly.*update"; "monthly.*report" ].

Definition UNNECESSARY_DOMAINS : list string :=
  [ "newsletters.com"; "marketing.com"; "promo.com"; "noreply.com";
    "notifications.com"; "alerts.com"; "survey.com"; "feedback.com";
    "mailchimp.com"; "constantcontact.com"; "sendgrid.net"; "mailgun.org" ].

Definition UNNECESSARY_SENDERS : list string :=
  [ "newsletter"; "marketing"; "promo"; "deals"; "offers"; "support";
    "team"; "hello"; "info"; "updates"; "notifications" ].

Definition promo_keywords : list string :=
  [ "sale"; "discount"; "offer"; "deal"; "coupon"; "% off"; "free shipping" ].

(** [for x in xs: if test(x): return x] *)
Fixpoint first_match (test : string -> bool) (xs : list string) : option string :=
  match xs with
  | [] => None
  | x :: rest => if test x then Some x else first_match test rest
  end.

(** [sender_lower.split('@')[-1] if '@' in sender_lower else ''] *)
Definition sender_domain_of (sender_lower : string) : string :=
  if contains "@" sender_lower then last_item (split "@" sender_lower)
  else "".

(** [sender_lower.split('@')[0] if '@' in sender_lower else sender_lower] *)
Definition sender_name_of (sender_lower : string) : string :=
  if contains "@" sender_lower then first_item (split "@" sender_lower)
  else sender_lower.

(** The method, with [str.lower] as the parameter [lower]. *)
Definition is_unnecessary_email_fast_with (lower : string -> string)
    (sender subject sender_full : string) : bool * string :=
  let sender_lower := lower sender in
  let subject_lower := lower subject in
  let sender_full_lower := lower sender_full in
  match first_match
          (fun pattern => contains pattern sender_lower
                          || contains pattern subject_lower
                          || contains pattern sender_full_lower)
          UNNECESSARY_PATTERNS with
  | Some pattern => (true, ("Contains pattern: " ++ pattern)%string)
  | None =>
    let sender_domain := sender_domain_of sender_lower in
    match first_match (fun domain => contains domain sender_domain)
                      UNNECESSARY_DOMAINS with
    | Some domain => (true, ("Sender domain: " ++ domain)%string)
    | None =>
      let sender_name := sender_name_of sender_lower in
      match first_match (fun keyword => contains keyword sender_name)
                        UNNECESSARY_SENDERS with
      | Some keyword => (true, ("Sender name contains: " ++ keyword)%string)
      | None =>
        match first_match (fun keyword => contains keyword subject_lower)
                          promo_keywords with
        | Some keyword => (true, ("Promotional keyword: " ++ keyword)%string)
        | None => (false, "Not identified as unnecessary")
        end
      end
    end
  end.

Definition is_unnecessary_email_fast : string -> string -> string -> bool * string :=
  is_unnecessary_email_fast_with lower.

(** *** The rule groups, read from the specification *)

(** [r] is the first rule of the table that fires. *)
Definition FirstHit (fires : string -> Prop) (table : list string) (r : string)
  : Prop :=
  exists before after,
    table = before ++ r :: after /\ fires r /\ Forall (fun x => ~ fires x) before.

Definition NoHit (fires : string -> Prop) (table : list string) : Prop :=
  Forall (fun x => ~ fires x) table.

(** The text after '@' (after the last one), empty when there is no '@'. *)
Definition DomainPart (s d : string) : Prop :=
  (exists pre, s = (pre ++ "@" ++ d)%string /\ free_of "@" d = true)
  \/ (free_of "@" s = true /\ d = "").

(** The text before '@' (before the first one), all of it when there is no '@'. *)
Definition LocalPart (s l : string) : Prop :=
  (exists post, s = (l ++ "@" ++ post)%string /\ free_of "@" l = true)
  \/ (free_of "@" s = true /\ l = s).

Section Rules.
Variable low : string -> string.
Variables sender subject sender_full : string.

Definition pattern_fires (p : string) : Prop :=
  Substring p (low sender) \/ Substring p (low subject)
  \/ Substring p (low sender_full).
Definition domain_fires (dom d : string) : Prop := Substring d dom.
Definition local_fires (loc k : string) : Prop := Substring k loc.
Definition promo_fires (k : string) : Prop := Substring k (low subject).

Inductive Classified : bool * string -> Prop :=
| by_pattern p :
    FirstHit pattern_fires UNNECESSARY_PATTERNS p ->
    Classified (true, ("Contains pattern: " ++ p)%string)
| by_domain dom d :
    NoHit pattern_fires UNNECESSARY_PATTERNS ->
    DomainPart (low sender) dom ->
    FirstHit (domain_fires dom) UNNECESSARY_DOMAINS d ->
    Classified (true, ("Sender domain: " ++ d)%string)
| by_local dom loc k :
    NoHit pattern_fires UNNECESSARY_PATTERNS ->
    DomainPart (low sender) dom ->
    NoHit (domain_fires dom) UNNECESSARY_DOMAINS ->
    LocalPart (low sender) loc ->
    FirstHit (local_fires loc) UNNECESSARY_SENDERS k ->
    Classified (true, ("Sender name contains: " ++ k)%string)
| by_promo dom loc k :
    NoHit pattern_fires UNNECESSARY_PATTERNS ->
    DomainPart (low sender) dom ->
    NoHit (domain_fires dom) UNNECESSARY_DOMAINS ->
    LocalPart (low sender) loc ->
    NoHit (local_fires loc) UNNECESSARY_SENDERS ->
    FirstHit promo_fires promo_keywords k ->
    Classified (true, ("Promotional keyword: " ++ k)%string)
| by_default dom loc :
    NoHit pattern_fires UNNECESSARY_PATTERNS ->
    DomainPart (low sender) dom ->
    NoHit (domain_fires dom) UNNECESSARY_DOMAINS ->
    LocalPart (low sender) loc ->
    NoHit (local_fires loc) UNNECESSARY_SENDERS ->
    NoHit promo_fires promo_keywords ->
    Classified (false, "Not identified as unnecessary").
End Rules.

(** *** The sender address: [re.search(r'<([^>]+)>', sender_full)] *)

(** The longest run of characters other than '>' and what follows it. *)
Fixpoint span_not_gt (s : string) : string * string :=
  match s with
  | EmptyString => (EmptyString, EmptyString)
  | String c s' =>
      if Ascii.eqb c ">" then (EmptyString, s)
      else let (run, rest) := span_not_gt s' in (String c run, rest)
  end.

(** The pattern matched at the start of [s]: '<', one or more characters
    other than '>', then '>'.  The class is greedy and every shorter run is
    followed by a character of the class, so only the longest run can be
    followed by '>'. *)
Definition match_here (s : string) : option string :=
  match s with
  | String "<" s' =>
      match span_not_gt s' with
      | (String c run, String ">" _) => Some (String c run)
      | _ => None
      end
  | _ => None
  end.

(** [re.search]: the match at the leftmost position that has one; the value
    is group 1. *)
Fixpoint re_search (s : string) : option string :=
  match match_here s with
  | Some g => Some g
  | None => match s with
            | EmptyString => None
            | String _ s' => re_search s'
            end
  end.

(** [sender_match.group(1) if sender_match else sender_full] *)
Definition extract_sender (sender_full : string) : string :=
  match re_search sender_full with
  | Some g => g
  | None => sender_full
  end.

(** An angle-bracket pair read from the specification: [s] is [pre], '<',
    a non-empty [inner] free of '>', '>', [post]. *)
Definition BracketPair (s pre inner post : string) : Prop :=
  s = (pre ++ "<" ++ inner ++ ">" ++ post)%string
  /\ inner <> "" /\ free_of ">" inner = true.

End Classifier.

(* ================================================================= *)
(** ** Dates: [calendar.timegm], [email.utils.mktime_tz],
       [datetime.datetime.fromtimestamp] *)

(** An exception, told apart the way the handlers of the program do:
    whether its text contains "EOF occurred in violation of protocol" or
    "socket error". *)
Inductive exn : Type :=
| SocketError
| OtherError.

(** The result of a call that may raise. *)
Inductive pyres (A : Type) : Type :=
| Ret (a : A)
| Raise (e : exn).
Arguments Ret {A} a.
Arguments Raise {A} e.

Module PyDate.

Local Open Scope Z_scope.

(** The items of the tuple of [parsedate_tz] that [mktime_tz] reads; the
    offset is never [None] in the value [parsedate_tz] returns. *)
Record time_tuple : Type := mk_time_tuple {
  tm_year : Z; tm_mon : Z; tm_mday : Z;
  tm_hour : Z; tm_min : Z; tm_sec : Z;
  tm_tzoffset : Z
}.

Definition MINYEAR : Z := 1.
Definition MAXYEAR : Z := 9999.

Definition is_leap (y : Z) : bool :=
  (y mod 4 =? 0) && (negb (y mod 100 =? 0) || (y mod 400 =? 0)).

(** [datetime._days_before_year] *)
Definition days_before_year (year : Z) : Z :=
  let y := year - 1 in y * 365 + y / 4 - y / 100 + y / 400.

(** [datetime._days_before_month] *)
Definition days_before_month (year month : Z) : Z :=
  let base := nth (Z.to_nat month)
                  [0; 0; 31; 59; 90; 120; 151; 181; 212; 243; 273; 304; 334] 0 in
  base + (if (2 <? month) && is_leap year then 1 else 0).

(** [datetime.date(year, month, 1).toordinal()]; the constructor raises
    [ValueError] outside the supported years and months. *)
Definition first_of_month_ordinal (year month : Z) : pyres Z :=
  if (MINYEAR <=? year) && (year <=? MAXYEAR) && (1 <=? month) && (month <=? 12)
  then Ret (days_before_year year + days_before_month year month + 1)
  else Raise OtherError.

Definition EPOCH_ORD : Z := 719163.

(** [calendar.timegm] *)
Definition timegm (t : time_tuple) : pyres Z :=
  match first_of_month_ordinal (tm_year t) (tm_mon t) with
  | Raise e => Raise e
  | Ret ord =>
      let days := ord - EPOCH_ORD + tm_mday t - 1 in
      let hours := days * 24 + tm_hour t in
      let minutes := hours * 60 + tm_min t in
      Ret (minutes * 60 + tm_sec t)
  end.

(** [email.utils.mktime_tz]: seconds since the epoch, an instant. *)
Definition mktime_tz (t : time_tuple) : pyres Z :=
  match timegm t with
  | Raise e => Raise e
  | Ret s => Ret (s - tm_tzoffset t)
  end.

(** A [datetime] without [tzinfo] is a wall-clock reading.  It is kept as the
    number of seconds that reading is after the reading 1970-01-01 00:00:00;
    [<] and [>=] on such values are those of the readings. *)
Definition naive_datetime : Type := Z.

Definition naive_min : Z := -62135596800.   (* 0001-01-01 00:00:00 *)
Definition naive_max : Z := 253402300799.   (* 9999-12-31 23:59:59 *)

(** [datetime.datetime.fromtimestamp(ts)] with no [tz]: the reading of the
    local clock at the instant [ts]; [utcoffset] is the offset of the local
    zone from UTC at that instant.  Readings outside the supported years
    raise. *)
Definition fromtimestamp (utcoffset : Z -> Z) (ts : Z) : pyres naive_datetime :=
  let wall := ts + utcoffset ts in
  if (naive_min <=? wall) && (wall <=? naive_max) then Ret wall
  else Raise OtherError.

(** [datetime.datetime(2025, 6, 1)] *)
Definition cutoff_date : naive_datetime := 1748736000.

(** [parse_email_date]; [parsedate_tz] is the parser of [email.utils]. *)
Definition parse_email_date
    (parsedate_tz : string -> pyres (option time_tuple))
    (utcoffset : Z -> Z) (date_str : string) : option naive_datetime :=
  if String.eqb date_str "" then None
  else
    match parsedate_tz date_str with
    | Ret (Some parsed_date) =>
        match mktime_tz parsed_date with
        | Ret timestamp =>
            match fromtimestamp utcoffset timestamp with
            | Ret d => Some d
            | Raise _ => None
            end
        | Raise _ => None
        end
    | Ret None => None
    | Raise _ => None
    end.

End PyDate.

(* ================================================================= *)
(** ** The environment: IMAP session, terminal, signals *)

(** A message id as [search] returns it: an opaque byte string. *)
Definition msgid : Type := string.

(** What one operation of the environment gives back. *)
Record reply (W A : Type) : Type := mk_reply {
  next : W;               (* the world after the call *)
  sigint : bool;          (* SIGINT was delivered while the call ran *)
  outcome : pyres A       (* the value returned or the exception raised *)
}.
Arguments mk_reply {W A}.
Arguments next {W A}.
Arguments sigint {W A}.
Arguments outcome {W A}.

(** The header block of a message after [email.message_from_bytes]:
    [From] and [Subject] as [decode_header_value] returns them, [Date] as
    [email_message.get('Date', '')] returns it. *)
Record headers : Type := mk_headers {
  h_from : string;
  h_subject : string;
  h_date : string
}.

(** [imaplib], [getpass], [input], the local zone and the date parser.
    [msg_data] of a fetch is [Some] header block when [msg_data[0][1]] can
    be read and parsed, [None] when reading it raises. *)
Record Env : Type := mk_env {
  world : Type;
  conn : Type;
  parsedate_tz : string -> pyres (option PyDate.time_tuple);
  utcoffset : Z -> Z;
  getpass : world -> reply world string;
  input : world -> reply world string;
  IMAP4_SSL : world -> reply world conn;
  login : conn -> option string -> world -> reply world unit;
  select : conn -> world -> reply world unit;
  logout : conn -> world -> reply world unit;
  close : conn -> world -> reply world unit;
  noop : conn -> world -> reply world unit;
  search : conn -> world -> reply world (string * list msgid);
  fetch : conn -> msgid -> world -> reply world (string * option headers);
  store : conn -> msgid -> world -> reply world string;
  expunge : conn -> world -> reply world unit
}.

(** ** Outcome records and the object state *)

(** One entry of [batch_results]: the dict with 'action': 'keep' or the
    dict with 'action': 'delete'. *)
Inductive result : Type :=
| keep_record (id : msgid) (reason : string)
| delete_record (id : msgid) (date : PyDate.naive_datetime)
                (sender subject reason : string).

Inductive action : Type := keep | delete.

Definition action_of (r : result) : action :=
  match r with
  | keep_record _ _ => keep
  | delete_record _ _ _ _ _ => delete
  end.

Definition id_of (r : result) : msgid :=
  match r with
  | keep_record i _ => i
  | delete_record i _ _ _ _ => i
  end.

Definition reason_of (r : result) : string :=
  match r with
  | keep_record _ x => x
  | delete_record _ _ _ _ x => x
  end.

(** Lines of the report and warnings written with [print]. *)
Inductive message : Type :=
| msg_stop_requested
| msg_connection_failed (attempt : nat)
| msg_all_connections_failed
| msg_connection_lost
| msg_no_connection (attempt : nat)
| msg_search_status (status : string)
| msg_search_failed
| msg_found (n : nat)
| msg_socket_retry (id : msgid)
| msg_could_not_process (id : msgid)
| msg_no_unread
| msg_summary (stopped : bool) (processed total deleted kept : nat)
| msg_dry_run
| msg_deletion_cancelled
| msg_none_identified
| msg_flag_failed (id : msgid)
| msg_deletion_complete
| msg_expunge_error
| msg_successfully_deleted (n : nat)
| msg_failed_deletions (n : nat)
| msg_cancelled
| msg_error.

(** What the log holds. *)
Inductive event : Type :=
| call_getpass
| call_input
| answered (confirm : string)
| call_IMAP4_SSL
| call_login
| call_select
| call_logout
| call_close
| call_noop
| call_search
| call_fetch (id : msgid)
| call_store (id : msgid)
| call_expunge
| sleep (seconds : nat)
| handled_SIGINT
| ensured_live (ok : bool)        (* [reconnect_if_needed] returned [ok] *)
| classify (sender subject sender_full : string)
                                  (* [is_unnecessary_email_fast] called *)
| delete_invoked                  (* [delete_emails_fast] entered *)
| print (m : message).

Section Program.

Variable E : Env.

(** The attributes of a [FastGmailCleanup] object that change. *)
Record object : Type := mk_object {
  password : option string;
  mail : option (conn E);
  stop_requested : bool;
  emails_to_delete : list result;
  deleted_count : nat;
  kept_count : nat;
  processed_count : nat
}.

Record machine : Type := mk_machine {
  now : world E;
  self : object;
  log : list event          (* newest first *)
}.

(** [FastGmailCleanup.__init__] *)
Definition init_object : object :=
  {| password := None; mail := None; stop_requested := false;
     emails_to_delete := []; deleted_count := 0; kept_count := 0;
     processed_count := 0 |}.

(** *** State transformers *)

Definition prog (A : Type) : Type := machine -> A * machine.

Definition ret {A} (a : A) : prog A := fun m => (a, m).

Definition bind {A B} (c : prog A) (k : A -> prog B) : prog B :=
  fun m => let (a, m') := c m in k a m'.

Definition emit (e : event) : prog unit :=
  fun m => (tt, {| now := now m; self := self m; log := e :: log m |}).

Definition read {A} (f : object -> A) : prog A := fun m => (f (self m), m).

Definition update (f : object -> object) : prog unit :=
  fun m => (tt, {| now := now m; self := f (self m); log := log m |}).

End Program.

Arguments ret {E A} a.
Arguments bind {E A B} c k.
Arguments emit {E} e.
Arguments read {E A} f.
Arguments update {E} f.
Arguments mk_machine {E}.
Arguments now {E}.
Arguments self {E}.
Arguments log {E}.
Arguments password {E}.
Arguments mail {E}.
Arguments stop_requested {E}.
Arguments emails_to_delete {E}.
Arguments deleted_count {E}.
Arguments kept_count {E}.
Arguments processed_count {E}.

Declare Scope prog_scope.
Delimit Scope prog_scope with prog.
Notation "x <- c ;; k" := (bind c (fun x => k))
  (at level 61, c at next level, right associativity) : prog_scope.
Notation "c ;; k" := (bind c (fun _ => k))
  (at level 61, right associativity) : prog_scope.

Local Open Scope prog_scope.

(** Slices [l[i:i+size] for i in range(0, len(l), size)]. *)
Definition range_step (stop step : nat) : list nat :=
  map (fun k => k * step) (seq 0 ((stop + step - 1) / step)).

Definition slices {A} (l : list A) (size : nat) : list (list A) :=
  map (fun i => firstn size (skipn i l)) (range_step (length l) size).

(** [confirm.lower() == 'yes'] *)
Definition affirmative (confirm : string) : bool :=
  String.eqb (PyStr.lower confirm) "yes".

(** How one pass through the body of a retry loop ends. *)
Inductive flow (A : Type) : Type :=
| Break (a : A)
| Continue.
Arguments Break {A} a.
Arguments Continue {A}.

Section Methods.

Variable E : Env.

#[local] Abbreviation prog := (prog E).
#[local] Abbreviation object := (object E).

Definition set_password (p : option string) (o : object) : object :=
  {| password := p; mail := mail o; stop_requested := stop_requested o;
     emails_to_delete := emails_to_delete o; deleted_count := deleted_count o;
     kept_count := kept_count o; processed_count := processed_count o |}.

Definition set_mail (c : option (conn E)) (o : object) : object :=
  {| password := password o; mail := c; stop_requested := stop_requested o;
     emails_to_delete := emails_to_delete o; deleted_count := deleted_count o;
     kept_count := kept_count o; processed_count := processed_count o |}.

Definition set_stop_requested (b : bool) (o : object) : object :=
  {| password := password o; mail := mail o; stop_requested := b;
     emails_to_delete := emails_to_delete o; deleted_count := deleted_count o;
     kept_count := kept_count o; processed_count := processed_count o |}.

(** The counters and the list at the start of a scan. *)
Definition reset_counters (o : object) : object :=
  {| password := password o; mail := mail o; stop_requested := false;
     emails_to_delete := []; deleted_count := 0;
     kept_count := 0; processed_count := 0 |}.

(** The body of [for result in batch_results]. *)
Definition count_result (r : result) (o : object) : object :=
  match action_of r with
  | delete =>
      {| password := password o; mail := mail o;
         stop_requested := stop_requested o;
         emails_to_delete := emails_to_delete o ++ [r];
         deleted_count := deleted_count o + 1;
         kept_count := kept_count o;
         processed_count := processed_count o + 1 |}
  | keep =>
      {| password := password o; mail := mail o;
         stop_requested := stop_requested o;
         emails_to_delete := emails_to_delete o;
         deleted_count := deleted_count o;
         kept_count := kept_count o + 1;
         processed_count := processed_count o + 1 |}
  end.

(** [signal_handler] *)
Definition signal_handler : prog unit :=
  emit handled_SIGINT ;;
  emit (print msg_stop_requested) ;;
  update (set_stop_requested true).

(** One call into the environment: logged, the world advanced, the handler
    run if the signal came in. *)
Definition call {A} (e : event) (op : world E -> reply (world E) A)
  : prog (pyres A) :=
  fun m =>
    let r := op (now m) in
    let m1 := {| now := next r; self := self m; log := e :: log m |} in
    (outcome r, if sigint r then snd (signal_handler m1) else m1).

(** A method of [self.mail]; on [None] the attribute lookup raises. *)
Definition on_mail {A} (e : event)
    (op : conn E -> world E -> reply (world E) A) : prog (pyres A) :=
  c <- read mail ;;
  match c with
  | Some c => call e (op c)
  | None => ret (Raise OtherError)
  end.

(** Sequencing inside [try]: the first exception ends the block. *)
Definition bind_try {A B} (c : prog (pyres A)) (k : A -> prog (pyres B))
  : prog (pyres B) :=
  r <- c ;;
  match r with
  | Ret a => k a
  | Raise e => ret (Raise e)
  end.

Notation "x <-! c ;; k" := (bind_try c (fun x => k))
  (at level 61, c at next level, right associativity) : prog_scope.

Definition ok {A} (c : prog A) : prog (pyres A) := a <- c ;; ret (Ret a).

(** [if self.mail: try: self.mail.logout() except: pass] *)
Definition logout_quietly : prog unit :=
  c <- read mail ;;
  match c with
  | Some c => _ <- call call_logout (logout E c) ;; ret tt
  | None => ret tt
  end.

(** *** [connect_to_gmail] *)

Definition max_connect_retries : nat := 3.

(** The [try] block of one attempt. *)
Definition connect_try (attempt : nat) : prog (pyres unit) :=
  _ <-! ok (if 0 <? attempt then emit (sleep 2) else ret tt) ;;
  _ <-! (if attempt =? 0
         then p <-! call call_getpass (getpass E) ;;
              ok (update (set_password (Some p)))
         else ret (Ret tt)) ;;
  _ <-! ok logout_quietly ;;
  c <-! call call_IMAP4_SSL (IMAP4_SSL E) ;;
  _ <-! ok (update (set_mail (Some c))) ;;
  pw <-! ok (read password) ;;
  _ <-! on_mail call_login (fun c => login E c pw) ;;
  _ <-! on_mail call_select (select E) ;;
  ret (Ret tt).

Fixpoint connect_attempts (attempts : list nat) : prog bool :=
  match attempts with
  | [] => ret false
  | attempt :: rest =>
      r <- connect_try attempt ;;
      match r with
      | Ret _ => ret true
      | Raise _ =>
          emit (print (msg_connection_failed (attempt + 1))) ;;
          c <- read mail ;;
          (match c with
           | Some _ => logout_quietly ;; update (set_mail None)
           | None => ret tt
           end) ;;
          if attempt =? max_connect_retries - 1
          then emit (print msg_all_connections_failed) ;; ret false
          else connect_attempts rest
      end
  end.

Definition connect_to_gmail : prog bool :=
  connect_attempts (seq 0 max_connect_retries).

(** *** [reconnect_if_needed] *)
Definition reconnect_if_needed : prog bool :=
  r <- on_mail call_noop (noop E) ;;
  match r with
  | Ret _ => emit (ensured_live true) ;; ret true
  | Raise _ =>
      emit (print msg_connection_lost) ;;
      b <- connect_to_gmail ;;
      emit (ensured_live b) ;;
      ret b
  end.

(** *** [get_unread_emails_fast] *)

Definition max_search_retries : nat := 3.

Fixpoint search_attempts (attempts : list nat) : prog (list msgid) :=
  match attempts with
  | [] => ret []
  | attempt :: rest =>
      live <- reconnect_if_needed ;;
      if negb live
      then emit (print (msg_no_connection (attempt + 1))) ;; search_attempts rest
      else
        r <- (_ <-! on_mail call_select (select E) ;;
              on_mail call_search (search E)) ;;
        match r with
        | Ret (status, email_ids) =>
            if negb (String.eqb status "OK")
            then emit (print (msg_search_status status)) ;;
                 if attempt <? max_search_retries - 1
                 then emit (sleep 2) ;; search_attempts rest
                 else emit (print msg_search_failed) ;; ret []
            else emit (print (msg_found (length email_ids))) ;; ret email_ids
        | Raise SocketError =>
            update (set_mail None) ;;
            emit (sleep 3) ;;
            _ <- connect_to_gmail ;;
            search_attempts rest
        | Raise OtherError =>
            if attempt <? max_search_retries - 1
            then emit (sleep 3) ;; search_attempts rest
            else emit (print msg_search_failed) ;; ret []
        end
  end.

Definition get_unread_emails_fast : prog (list msgid) :=
  search_attempts (seq 0 max_search_retries).

(** *** [fetch_email_headers_batch] *)
Definition fetch_email_headers_batch (email_ids : list msgid) (batch_size : nat)
  : list (list msgid) :=
  slices email_ids batch_size.

(** *** [process_email_batch] *)

Definition max_fetch_retries : nat := 2.

(** The [try] block of one attempt at one message, after the connection
    check: from the fetch to the [break] or [continue] that ends it. *)
Definition fetch_and_decide (email_id : msgid) (attempt : nat)
  : prog (pyres (flow (option result))) :=
  resp <-! on_mail (call_fetch email_id) (fun c => fetch E c email_id) ;;
  let (status, msg_data) := resp in
  if negb (String.eqb status "OK")
  then if attempt <? max_fetch_retries - 1
       then emit (sleep 1) ;; ret (Ret Continue)
       else ret (Ret (Break None))
  else
    match msg_data with
    | None => ret (Raise OtherError)
    | Some email_message =>
        let sender_full := h_from email_message in
        let subject := h_subject email_message in
        let date_str := h_date email_message in
        let sender := Classifier.extract_sender sender_full in
        let email_date :=
          PyDate.parse_email_date (parsedate_tz E) (utcoffset E) date_str in
        match email_date with
        | None =>
            ret (Ret (Break (Some (keep_record email_id "too_recent_or_no_date"))))
        | Some d =>
            if (PyDate.cutoff_date <=? d)%Z
            then ret (Ret (Break (Some (keep_record email_id
                                          "too_recent_or_no_date"))))
            else
              emit (classify sender subject sender_full) ;;
              let (is_unnecessary, reason) :=
                Classifier.is_unnecessary_email_fast sender subject sender_full in
              if is_unnecessary
              then ret (Ret (Break (Some (delete_record email_id d sender_full
                                            subject reason))))
              else ret (Ret (Break (Some (keep_record email_id
                                            "not_unnecessary"))))
        end
    end.

(** The whole [try] block: on a retry the connection is checked first. *)
Definition attempt_body (email_id : msgid) (attempt : nat)
  : prog (pyres (flow (option result))) :=
  if 0 <? attempt
  then live <- reconnect_if_needed ;;
       if negb live then ret (Ret Continue)
       else fetch_and_decide email_id attempt
  else fetch_and_decide email_id attempt.

(** The [except Exception] block; it always ends in [continue]. *)
Definition attempt_handler (email_id : msgid) (attempt : nat) (e : exn)
  : prog unit :=
  match e with
  | SocketError =>
      if attempt <? max_fetch_retries - 1
      then emit (print (msg_socket_retry email_id)) ;; emit (sleep 1)
      else if attempt =? max_fetch_retries - 1
           then emit (print (msg_could_not_process email_id))
           else ret tt
  | OtherError =>
      if attempt =? max_fetch_retries - 1
      then emit (print (msg_could_not_process email_id))
      else ret tt
  end.

(** [for attempt in range(max_retries)] for one message: the record appended
    to [batch_results], if any. *)
Fixpoint fetch_attempts (email_id : msgid) (attempts : list nat)
  : prog (option result) :=
  match attempts with
  | [] => ret None
  | attempt :: rest =>
      r <- attempt_body email_id attempt ;;
      match r with
      | Ret (Break appended) => ret appended
      | Ret Continue => fetch_attempts email_id rest
      | Raise e =>
          attempt_handler email_id attempt e ;;
          fetch_attempts email_id rest
      end
  end.

Definition process_one (email_id : msgid) : prog (option result) :=
  fetch_attempts email_id (seq 0 max_fetch_retries).

Definition appended (r : option result) : list result :=
  match r with
  | Some x => [x]
  | None => []
  end.

(** [for email_id in email_batch]; the value is [batch_results]. *)
Fixpoint process_email_batch (email_batch : list msgid) : prog (list result) :=
  match email_batch with
  | [] => ret []
  | email_id :: rest =>
      stop <- read stop_requested ;;
      if stop then ret []
      else
        r <- process_one email_id ;;
        batch_results <- process_email_batch rest ;;
        ret (appended r ++ batch_results)
  end.

(** *** [delete_emails_fast] *)

Definition delete_batch_size : nat := 50.

(** [for email in batch], with the two local counters. *)
Fixpoint flag_batch (batch : list result) (counts : nat * nat)
  : prog (nat * nat) :=
  match batch with
  | [] => ret counts
  | email :: rest =>
      let (successful, failed) := counts in
      r <- on_mail (call_store (id_of email)) (fun c => store E c (id_of email)) ;;
      match r with
      | Ret _ => flag_batch rest (successful + 1, failed)
      | Raise _ =>
          (if failed + 1 <? 5
           then emit (print (msg_flag_failed (id_of email)))
           else ret tt) ;;
          flag_batch rest (successful, failed + 1)
      end
  end.

Fixpoint flag_batches (batches : list (list result)) (counts : nat * nat)
  : prog (nat * nat) :=
  match batches with
  | [] => ret counts
  | batch :: rest =>
      counts' <- flag_batch batch counts ;;
      flag_batches rest counts'
  end.

Definition delete_emails_fast : prog unit :=
  emit delete_invoked ;;
  candidates <- read emails_to_delete ;;
  counts <- flag_batches (slices candidates delete_batch_size) (0, 0) ;;
  r <- on_mail call_expunge (expunge E) ;;
  (match r with
   | Ret _ => emit (print msg_deletion_complete)
   | Raise _ => emit (print msg_expunge_error)
   end) ;;
  emit (print (msg_successfully_deleted (fst counts))) ;;
  emit (print (msg_failed_deletions (snd counts))).

(** *** [show_analysis_results] *)
Definition show_analysis_results (total_emails : nat) (dry_run : bool)
  : prog (pyres unit) :=
  o <- read (fun o => o) ;;
  emit (print (msg_summary (stop_requested o) (processed_count o) total_emails
                           (deleted_count o) (kept_count o))) ;;
  if dry_run
  then emit (print msg_dry_run) ;; ret (Ret tt)
  else
    if 0 <? deleted_count o
    then
      confirm <-! call call_input (input E) ;;
      emit (answered confirm) ;;
      if affirmative confirm
      then delete_emails_fast ;; ret (Ret tt)
      else emit (print msg_deletion_cancelled) ;; ret (Ret tt)
    else emit (print msg_none_identified) ;; ret (Ret tt).

(** *** [analyze_emails_fast] *)

Definition scan_batch_size : nat := 100.

(** [for batch_num, batch in enumerate(batches)] *)
Fixpoint scan_batches (batches : list (list msgid)) : prog unit :=
  match batches with
  | [] => ret tt
  | batch :: rest =>
      stop <- read stop_requested ;;
      if stop then ret tt
      else
        batch_results <- process_email_batch batch ;;
        update (fun o => fold_left (fun o r => count_result r o) batch_results o) ;;
        scan_batches rest
  end.

Definition analyze_emails_fast (dry_run : bool) : prog (pyres unit) :=
  email_ids <- get_unread_emails_fast ;;
  match email_ids with
  | [] => emit (print msg_no_unread) ;; ret (Ret tt)
  | _ =>
      update reset_counters ;;
      scan_batches (fetch_email_headers_batch email_ids scan_batch_size) ;;
      show_analysis_results (length email_ids) dry_run
  end.

(** *** [close_connection] and [main] *)
Definition close_connection : prog unit :=
  c <- read mail ;;
  match c with
  | Some _ =>
      _ <- (_ <-! on_mail call_close (close E) ;;
            on_mail call_logout (logout E)) ;;
      ret tt
  | None => ret tt
  end.

Definition main_body (dry_run_mode : bool) : prog unit :=
  connected <- connect_to_gmail ;;
  if negb connected then ret tt
  else
    r <- analyze_emails_fast dry_run_mode ;;
    match r with
    | Ret _ => ret tt
    | Raise _ => emit (print msg_error)
    end.

Definition main (dry_run_mode : bool) : prog unit :=
  main_body dry_run_mode ;; close_connection.

(** The machine [main] starts from: a fresh object, an empty log. *)
Definition start (w : world E) : machine E :=
  {| now := w; self := init_object E; log := [] |}.

End Methods.

(** ** Kinds of events *)

(** What any method may log on its own: a pause, the signal handler, a
    line of output. *)
Definition local_event (e : event) : bool :=
  match e with
  | sleep _ | handled_SIGINT | print _ => true
  | _ => false
  end.

(** The calls made to open a session and to probe it. *)
Definition session_event (e : event) : bool :=
  match e with
  | call_getpass | call_IMAP4_SSL | call_login | call_select | call_logout
  | call_noop => true
  | _ => false
  end.

(** The return of [reconnect_if_needed]. *)
Definition is_ensured_live (e : event) : bool :=
  match e with ensured_live _ => true | _ => false end.

(** What only the scan logs. *)
Definition scan_event (e : event) : bool :=
  match e with
  | call_search | call_fetch _ | classify _ _ _ => true
  | _ => false
  end.

(** The deletion operation: entering [delete_emails_fast], flagging, expunge. *)
Definition deletion_event (e : event) : bool :=
  match e with
  | delete_invoked | call_store _ | call_expunge => true
  | _ => false
  end.

(** The confirmation prompt and the closing of the session. *)
Definition dialog_event (e : event) : bool :=
  match e with
  | call_input | answered _ | call_close => true
  | _ => false
  end.


Definition is_fetch (e : event) : bool :=
  match e with call_fetch _ => true | _ => false end.

Definition is_liveness_check (e : event) : bool :=
  match e with call_noop | ensured_live _ => true | _ => false end.

(** The events a run of [c] from [m] adds to the log, oldest first. *)
Definition trace {E A} (c : prog E A) (m : machine E) : list event :=
  let l := log (snd (c m)) in
  rev (firstn (length l - length (log m)) l).

(* ================================================================= *)
(** ** Scripted environments for concrete runs *)

Module Script.

Import PyDate.

(** What [email.utils.parsedate_tz] returns on the date strings used in the
    examples; on any other string of the examples it returns [None]. *)
Definition parse_example_date (s : string) : pyres (option time_tuple) :=
  if String.eqb s "Wed, 01 Jan 2025 00:00:00 +0000"
  then Ret (Some (mk_time_tuple 2025 1 1 0 0 0 0))
  else if String.eqb s "Tue, 01 Jul 2025 00:00:00 +0000"
  then Ret (Some (mk_time_tuple 2025 7 1 0 0 0 0))
  else if String.eqb s "Sun, 01 Jun 2025 02:00:00 +0000"
  then Ret (Some (mk_time_tuple 2025 6 1 2 0 0 0))
  else if String.eqb s "Sun, 01 Jun 2025 04:00:00 +0200"
  then Ret (Some (mk_time_tuple 2025 6 1 4 0 0 7200))
  else Ret None.

(** The behaviour of the server, the user and the signal, by the number of
    calls made so far. *)
Record script : Type := mk_script {
  unread : list msgid;
  fetch_reply : nat -> msgid -> pyres (string * option headers);
  store_reply : nat -> msgid -> pyres string;
  expunge_reply : nat -> pyres unit;
  noop_reply : nat -> pyres unit;
  answer : string;
  interrupt : nat -> bool;
  zone : Z
}.

Definition env (s : script) : Env :=
  {| world := nat;
     conn := unit;
     parsedate_tz := parse_example_date;
     utcoffset := fun _ => zone s;
     getpass := fun n => mk_reply (S n) (interrupt s n) (Ret "app password");
     input := fun n => mk_reply (S n) (interrupt s n) (Ret (answer s));
     IMAP4_SSL := fun n => mk_reply (S n) (interrupt s n) (Ret tt);
     login := fun _ _ n => mk_reply (S n) (interrupt s n) (Ret tt);
     select := fun _ n => mk_reply (S n) (interrupt s n) (Ret tt);
     logout := fun _ n => mk_reply (S n) (interrupt s n) (Ret tt);
     close := fun _ n => mk_reply (S n) (interrupt s n) (Ret tt);
     noop := fun _ n => mk_reply (S n) (interrupt s n) (noop_reply s n);
     search := fun _ n => mk_reply (S n) (interrupt s n) (Ret ("OK", unread s));
     fetch := fun _ i n => mk_reply (S n) (interrupt s n) (fetch_reply s n i);
     store := fun _ i n => mk_reply (S n) (interrupt s n) (store_reply s n i);
     expunge := fun _ n => mk_reply (S n) (interrupt s n) (expunge_reply s n) |}.

(** A machine with a session open, as [connect_to_gmail] leaves it. *)
Definition connected (s : script) : machine (env s) :=
  mk_machine (E := env s) 0
    (mk_object (env s) (Some "app password") (Some tt) false [] 0 0 0) [].

(** The machine [main] starts from. *)
Definition fresh (s : script) : machine (env s) := start (env s) (0 : nat).

(** An old newsletter, a recent promotion, a message without a date. *)
Definition newsletter : headers :=
  {| h_from := "News <newsletter@updates.com>";
     h_subject := "Weekly Digest";
     h_date := "Wed, 01 Jan 2025 00:00:00 +0000" |}.

Definition promotion : headers :=
  {| h_from := "promo@shop.com";
     h_subject := "50% off today!";
     h_date := "Tue, 01 Jul 2025 00:00:00 +0000" |}.

Definition undated : headers :=
  {| h_from := "promo@shop.com"; h_subject := "50% off today!"; h_date := "" |}.

Definition friend : headers :=
  {| h_from := "friend@gmail.com";
     h_subject := "Dinner Friday?";
     h_date := "Wed, 01 Jan 2025 00:00:00 +0000" |}.

(** Every call succeeds, every message is the old newsletter, nobody
    interrupts, the user answers [confirm], the zone is UTC. *)
Definition calm (ids : list msgid) (confirm : string) : script :=
  {| unread := ids;
     fetch_reply := fun _ _ => Ret ("OK", Some newsletter);
     store_reply := fun _ _ => Ret "OK";
     expunge_reply := fun _ => Ret tt;
     noop_reply := fun _ => Ret tt;
     answer := confirm;
     interrupt := fun _ => false;
     zone := 0%Z |}.

(** As [calm], with the fetch replies given. *)
Definition fetching (ids : list msgid)
    (replies : nat -> msgid -> pyres (string * option headers)) : script :=
  {| unread := ids;
     fetch_reply := replies;
     store_reply := fun _ _ => Ret "OK";
     expunge_reply := fun _ => Ret tt;
     noop_reply := fun _ => Ret tt;
     answer := "no";
     interrupt := fun _ => false;
     zone := 0%Z |}.

(** As [calm], with SIGINT delivered during the calls chosen by [when]. *)
Definition interrupted (ids : list msgid) (when : nat -> bool) : script :=
  {| unread := ids;
     fetch_reply := fun _ _ => Ret ("OK", Some newsletter);
     store_reply := fun _ _ => Ret "OK";
     expunge_reply := fun _ => Ret tt;
     noop_reply := fun _ => Ret tt;
     answer := "no";
     interrupt := when;
     zone := 0%Z |}.

(** As [calm] with answer "yes", but the expunge call raises. *)
Definition expunge_fails (ids : list msgid) : script :=
  {| unread := ids;
     fetch_reply := fun _ _ => Ret ("OK", Some newsletter);
     store_reply := fun _ _ => Ret "OK";
     expunge_reply := fun _ => Raise SocketError;
     noop_reply := fun _ => Ret tt;
     answer := "yes";
     interrupt := fun _ => false;
     zone := 0%Z |}.

(** As [calm], in a zone [offset] seconds east of UTC, every message with
    the headers [h]. *)
Definition zoned (offset : Z) (h : headers) : script :=
  {| unread := ["1"];
     fetch_reply := fun _ _ => Ret ("OK", Some h);
     store_reply := fun _ _ => Ret "OK";
     expunge_reply := fun _ => Ret tt;
     noop_reply := fun _ => Ret tt;
     answer := "no";
     interrupt := fun _ => false;
     zone := offset |}.

End Script.

(** ** The confirmation gate, as a property of logs *)

(** A log (newest first) in which every event of the deletion operation has
    an affirmative answer to the prompt behind it. *)
Inductive Confirmed : list event -> Prop :=
| Confirmed_nil : Confirmed []
| Confirmed_cons e older :
    Confirmed older ->
    (deletion_event e = true ->
     exists confirm, In (answered confirm) older /\ affirmative confirm = true) ->
    Confirmed (e :: older).

(** A call of the classifier whose first argument is the address extracted
    from its third. *)
Definition sender_from_full (e : event) : Prop :=
  match e with
  | classify sender _ sender_full =>
      sender = Classifier.extract_sender sender_full
  | _ => True
  end.

(** ** The date parser, read from the specification *)

(** The absolute instant (seconds since the epoch, UTC) a date header
    denotes, [None] for a header that is empty or does not parse. *)
Definition instant_of (parsedate_tz : string -> pyres (option PyDate.time_tuple))
    (date_str : string) : option Z :=
  if String.eqb date_str "" then None
  else match parsedate_tz date_str with
       | Ret (Some t) =>
           match PyDate.mktime_tz t with
           | Ret i => Some i
           | Raise _ => None
           end
       | _ => None
       end.

Definition is_store (e : event) : bool :=
  match e with call_store _ => true | _ => false end.

Definition is_expunge (e : event) : bool :=
  match e with call_expunge => true | _ => false end.

(** What the handler logs when SIGINT comes in during a call, oldest first. *)
Definition signal_events (delivered : bool) : list event :=
  if delivered then [handled_SIGINT; print msg_stop_requested] else [].

(** A machine with a session open and the scan done: [rs] are the
    candidates. *)
Definition scanned (s : Script.script) (rs : list result)
  : machine (Script.env s) :=
  mk_machine (E := Script.env s) 0
    (mk_object (Script.env s) (Some "app password") (Some tt) false rs
               (length rs) 0 (length rs)) [].

Definition two_candidates : list result :=
  [ delete_record "1" 1735689600%Z "News <newsletter@updates.com>"
                  "Weekly Digest" "Contains pattern: newsletter";
    delete_record "2" 1735689600%Z "News <newsletter@updates.com>"
                  "Weekly Digest" "Contains pattern: newsletter" ].

(** Candidates for the ids [ids], all for the old newsletter. *)
Definition candidates_for (ids : list msgid) : list result :=
  map (fun i => delete_record i 1735689600%Z "News <newsletter@updates.com>"
                              "Weekly Digest" "Contains pattern: newsletter")
      ids.

(** As [Script.calm], but the flag store raises for the ids that [bad]
    selects. *)
Definition store_fails (bad : msgid -> bool) : Script.script :=
  {| Script.unread := [];
     Script.fetch_reply := fun _ _ => Ret ("OK", Some Script.newsletter);
     Script.store_reply := fun _ i => if bad i then Raise OtherError else Ret "OK";
     Script.expunge_reply := fun _ => Ret tt;
     Script.noop_reply := fun _ => Ret tt;
     Script.answer := "yes";
     Script.interrupt := fun _ => false;
     Script.zone := 0%Z |}.

(** ** Retries and liveness checks, as properties of logs *)

(** A header fetch that gives no header block: the call raises, the status
    is not OK, or [msg_data[0][1]] cannot be read. *)
Definition fetch_failed (r : pyres (string * option headers)) : Prop :=
  match r with
  | Raise _ => True
  | Ret (status, msg_data) => String.eqb status "OK" = false \/ msg_data = None
  end.

(** Neither a header fetch nor the return of a liveness check. *)
Definition quiet (e : event) : Prop :=
  is_fetch e = false /\ is_ensured_live e = false.

(** A log (newest first) in which every header fetch has a successful
    liveness check as the event just before it. *)
Fixpoint all_checked (t : list event) : Prop :=
  match t with
  | [] => True
  | e :: older =>
      (is_fetch e = true -> exists rest, older = ensured_live true :: rest)
      /\ all_checked older
  end.

(** The same, but for a header fetch that is the oldest event of the log. *)
Fixpoint checked_retries (t : list event) : Prop :=
  match t with
  | [] => True
  | e :: older =>
      (is_fetch e = true ->
       older = [] \/ exists rest, older = ensured_live true :: rest)
      /\ checked_retries older
  end.

(** The claim of the specification on a trace (oldest first): every fetch,
    flag store and expunge has a liveness check somewhere before it. *)
Definition network_event (e : event) : bool :=
  match e with
  | call_fetch _ | call_store _ | call_expunge => true
  | _ => false
  end.

Definition checked_before_use (tr : list event) : Prop :=
  forall before e after,
    tr = before ++ e :: after -> network_event e = true ->
    exists ok, In (ensured_live ok) before.

(* ================================================================= *)
(** ** Relations between the machine before and after a method *)

(** [c] keeps [R] between the machine it starts from and the one it ends in. *)
Definition stable_under (E : Env) (R : machine E -> machine E -> Prop)
    {A} (c : prog E A) : Prop :=
  forall m, R m (snd (c m)).

Section Relations.

Variable E : Env.

(** The log only grows, by events of a given kind. *)
Definition extends_with (P : event -> Prop) (m m' : machine E) : Prop :=
  exists t, log m' = t ++ log m /\ Forall P t.

(** The counters and the list of candidates. *)
Definition counters (o : object E) : list result * nat * nat * nat :=
  (emails_to_delete o, deleted_count o, kept_count o, processed_count o).

Definition same_counters (m m' : machine E) : Prop :=
  counters (self m') = counters (self m).

Definition keeps_counters (f : object E -> object E) : Prop :=
  forall o, counters (f o) = counters o.

(** The stop flag, once set, stays set. *)
Definition stop_stays (m m' : machine E) : Prop :=
  stop_requested (self m) = true -> stop_requested (self m') = true.

Definition keeps_stop (f : object E -> object E) : Prop :=
  forall o, stop_requested o = true -> stop_requested (f o) = true.

Definition not_deletion (e : event) : Prop := deletion_event e = false.

(** What a run adds to the log is confirmed, and free of deletion events in
    a dry run. *)
Definition gated (dry_run : bool) (m m' : machine E) : Prop :=
  exists t, log m' = t ++ log m /\ Confirmed t
            /\ (dry_run = true -> Forall not_deletion t).

(** The invariant of the counters. *)
Definition accounted (o : object E) : Prop :=
  length (emails_to_delete o) = deleted_count o
  /\ deleted_count o + kept_count o = processed_count o.

(** [for result in batch_results] as one update of the object. *)
Definition count_all (rs : list result) (o : object E) : object E :=
  fold_left (fun o r => count_result E r o) rs o.

(** Every fetch answers OK with a header block. *)
Definition fetch_never_fails : Prop :=
  forall c i w, exists h, outcome (fetch E c i w) = Ret ("OK", Some h).

(** The stores never raise. *)
Definition store_never_raises : Prop :=
  forall c i w, exists st, outcome (store E c i w) = Ret st.

(** What the server answers to the flag stores for [candidates], asked one
    after the other from the world [w]: each store finds the world that the
    store before it left. *)
Fixpoint store_replies (c : conn E) (candidates : list result) (w : world E)
  : list (result * pyres string) :=
  match candidates with
  | [] => []
  | email :: rest =>
      let r := store E c (id_of email) w in
      (email, outcome r) :: store_replies c rest (next r)
  end.

(** The world those stores leave. *)
Fixpoint world_after_stores (c : conn E) (candidates : list result)
    (w : world E) : world E :=
  match candidates with
  | [] => w
  | email :: rest =>
      world_after_stores c rest (next (store E c (id_of email) w))
  end.

End Relations.

Definition raised {A} (r : pyres A) : bool :=
  match r with Raise _ => true | Ret _ => false end.

(** The candidates whose store returned, and those whose store raised. *)
Definition flagged_ones (replies : list (result * pyres string)) : list result :=
  map fst (filter (fun p => negb (raised (snd p))) replies).

Definition failed_ones (replies : list (result * pyres string)) : list result :=
  map fst (filter (fun p => raised (snd p)) replies).

Arguments extends_with {E} P m m'.
Arguments same_counters {E} m m'.
Arguments stop_stays {E} m m'.
Arguments gated {E} dry_run m m'.

(** The first [c] slices of length [n] of [l]. *)
Definition chunks_from {A} (c n : nat) (l : list A) : list (list A) :=
  map (fun k => firstn n (skipn (k * n) l)) (seq 0 c).

(* ================================================================= *)
(** ** Further definitions: rules that can be reported, sound records,
       kinds of events *)

(** *** Rules that an earlier rule hides *)

(** [r] contains one of the rules tried before it. *)
Definition shadowed_in (earlier : list string) (r : string) : bool :=
  existsb (fun p => PyStr.contains p r) earlier.

(** The rules of [table] that contain none of the rules tried before them:
    [earlier] first, then the rules of [table] in order. *)
Fixpoint live_rules (earlier table : list string) : list string :=
  match table with
  | [] => []
  | r :: rest =>
      if shadowed_in earlier r then live_rules (earlier ++ [r]) rest
      else r :: live_rules (earlier ++ [r]) rest
  end.

(** The reasons built from those rules, and the negative answer. *)
Definition reportable_reasons : list string :=
  map (String.append "Contains pattern: ")
      (live_rules [] Classifier.UNNECESSARY_PATTERNS)
  ++ map (String.append "Sender domain: ")
         (live_rules Classifier.UNNECESSARY_PATTERNS
                     Classifier.UNNECESSARY_DOMAINS)
  ++ map (String.append "Sender name contains: ")
         (live_rules Classifier.UNNECESSARY_PATTERNS
                     Classifier.UNNECESSARY_SENDERS)
  ++ map (String.append "Promotional keyword: ")
         (live_rules Classifier.UNNECESSARY_PATTERNS Classifier.promo_keywords)
  ++ ["Not identified as unnecessary"].

(** *** Records the batch step may produce *)

(** What a record for the message [email_id] must be: a keep record with one
    of the two keep reasons, or a delete record dated before the cutoff whose
    reason is the one the classifier gives for its sender and subject. *)
Definition sound_record (email_id : msgid) (r : result) : Prop :=
  id_of r = email_id
  /\ match r with
     | keep_record _ reason =>
         reason = "too_recent_or_no_date" \/ reason = "not_unnecessary"
     | delete_record _ date sender_full subject reason =>
         (date < PyDate.cutoff_date)%Z
         /\ Classifier.is_unnecessary_email_fast
              (Classifier.extract_sender sender_full) subject sender_full
            = (true, reason)
     end.

(** [a] is [b] with some items left out. *)
Inductive Subseq {A : Type} : list A -> list A -> Prop :=
| Subseq_nil : Subseq [] []
| Subseq_skip x a b : Subseq a b -> Subseq a (x :: b)
| Subseq_take x a b : Subseq a b -> Subseq (x :: a) (x :: b).

Definition is_delete_record (r : result) : bool :=
  match r with
  | delete_record _ _ _ _ _ => true
  | keep_record _ _ => false
  end.

(** A flag store for one of the ids [ids], or some other event. *)
Definition stores_only (ids : list msgid) (e : event) : Prop :=
  forall i, e = call_store i -> In i ids.

(** *** Kinds of events and of changes, for the further properties *)

Definition is_failed_line (e : event) : bool :=
  match e with print (msg_flag_failed _) => true | _ => false end.

Definition is_getpass (e : event) : bool :=
  match e with call_getpass => true | _ => false end.

Definition is_search (e : event) : bool :=
  match e with call_search => true | _ => false end.

Definition is_closing (e : event) : bool :=
  match e with call_close | call_logout => true | _ => false end.

(** [o'] is [o] but for the stop flag, which may have been set. *)
Definition same_but_stop {E : Env} (o o' : object E) : Prop :=
  password o' = password o
  /\ mail o' = mail o
  /\ counters E o' = counters E o
  /\ (stop_requested o = true -> stop_requested o' = true).

(** A machine whose scan is done but whose session is gone. *)
Definition disconnected (s : Script.script) (rs : list result)
  : machine (Script.env s) :=
  mk_machine (E := Script.env s) 0
    (mk_object (Script.env s) (Some "app password") None false rs
               (length rs) 0 (length rs)) [].


Definition is_prompt (e : event) : bool :=
  match e with call_input => true | _ => false end.

(** ** What a method logs, seen through a filter

    [emits E w Q c]: from any machine, the events that [c] adds to the log
    and that [w] selects, oldest first, satisfy [Q]. *)
Definition emits (E : Env) (w : event -> bool) (Q : list event -> Prop)
    {A} (c : prog E A) : Prop :=
  forall m, exists t, log (snd (c m)) = t ++ log m /\ Q (filter w (rev t)).

(** The calls that set a session up. *)
Definition is_setup (e : event) : bool :=
  match e with
  | call_getpass | call_IMAP4_SSL | call_login | call_select => true
  | _ => false
  end.

(** One round of session set-up, as [connect_to_gmail] makes it. *)
Definition setup_round : list event :=
  [call_IMAP4_SSL; call_login; call_select].

(** Whether a session object is held. *)
Definition has_session {E : Env} (o : object E) : bool :=
  match mail o with Some _ => true | None => false end.

(** The verdicts of [reconnect_if_needed] and the searches. *)
Definition is_check_or_search (e : event) : bool :=
  match e with ensured_live _ | call_search => true | _ => false end.

(** What one attempt of [get_unread_emails_fast] shows of them: the verdict,
    and a search only after the verdict that the session is live. *)
Definition attempt_block (b : list event) : Prop :=
  b = [ensured_live false] \/ b = [ensured_live true]
  \/ b = [ensured_live true; call_search].

Definition search_blocks (n : nat) (l : list event) : Prop :=
  exists blocks, l = concat blocks /\ Forall attempt_block blocks
                 /\ length blocks <= n.

(** The fetches a scan of [ids] may make: two for each id, in order. *)
Definition fetch_budget (ids : list msgid) : list event :=
  flat_map (fun i => [call_fetch i; call_fetch i]) ids.

(** An environment in which no connection can be opened. *)
Definition offline : Env :=
  {| world := nat;
     conn := unit;
     parsedate_tz := Script.parse_example_date;
     utcoffset := fun _ => 0%Z;
     getpass := fun n => mk_reply (S n) false (Ret "app password");
     input := fun n => mk_reply (S n) false (Ret "yes");
     IMAP4_SSL := fun n => mk_reply (S n) false (Raise SocketError);
     login := fun _ _ n => mk_reply (S n) false (Ret tt);
     select := fun _ n => mk_reply (S n) false (Ret tt);
     logout := fun _ n => mk_reply (S n) false (Ret tt);
     close := fun _ n => mk_reply (S n) false (Ret tt);
     noop := fun _ n => mk_reply (S n) false (Ret tt);
     search := fun _ n => mk_reply (S n) false (Ret ("OK", []));
     fetch := fun _ _ n => mk_reply (S n) false (Raise SocketError);
     store := fun _ _ n => mk_reply (S n) false (Raise SocketError);
     expunge := fun _ n => mk_reply (S n) false (Raise SocketError) |}.

(* ================================================================= *)
(** * Properties *)

(** ** Facts about [str.lower] *)

Module PyUnicodeFacts.

Import PyStr PyUnicode.
Local Open Scope N_scope.

(** *** The bytes of a character *)

Lemma start_cases (n : N) :
  (n < 128 /\ start n = Single n)
  \/ (194 <= n <= 223 /\ start n = Lead 1 128 (n - 192))
  \/ (224 <= n <= 239 /\ start n = Lead 2 2048 (n - 224))
  \/ (240 <= n <= 244 /\ start n = Lead 3 65536 (n - 240))
  \/ ((128 <= n < 194 \/ 244 < n) /\ start n = Stray).
Proof.
  unfold start.
  destruct (N.ltb_spec n 128); [left; split; [assumption | reflexivity]|].
  destruct (N.leb_spec 194 n); destruct (N.leb_spec n 223); cbn [andb];
    try (right; left; split; [lia | reflexivity]);
    destruct (N.leb_spec 224 n); destruct (N.leb_spec n 239); cbn [andb];
    try (right; right; left; split; [lia | reflexivity]);
    destruct (N.leb_spec 240 n); destruct (N.leb_spec n 244); cbn [andb];
    try (right; right; right; left; split; [lia | reflexivity]);
    right; right; right; right; (split; [lia | reflexivity]).
Qed.

Lemma decode_from_step (need : nat) (least acc : N) (b : ascii) (s : string) :
  decode_from need least acc (String b s)
  = let n := N_of_ascii b in
    let fresh :=
      match start n with
      | Single c => c :: decode_from 0 0 0 s
      | Lead need' least' acc' => decode_from need' least' acc' s
      | Stray => REPLACEMENT :: decode_from 0 0 0 s
      end in
    match need with
    | O => fresh
    | S k =>
        if is_continuation n
        then match k with
             | O => (if (least <=? acc * 64 + (n - 128))
                        && (acc * 64 + (n - 128) <=? MAX_CODE)
                     then acc * 64 + (n - 128) else REPLACEMENT)
                    :: decode_from 0 0 0 s
             | S _ => decode_from k least (acc * 64 + (n - 128)) s
             end
        else REPLACEMENT :: fresh
    end.
Proof. reflexivity. Qed.



Lemma byte_value (n : N) : n < 256 -> N_of_ascii (byte n) = n.
Proof. intros H. unfold byte. now apply N_ascii_embedding. Qed.





(** *** Lower-case forms *)

Lemma lookup_run_all (P : N -> bool) (c : N) (runs : list (N * N * N * N)) (d : N) :
  forallb P (flat_map images runs) = true ->
  lookup_run c runs = Some d -> P d = true.
Proof.
  induction runs as [|[[[first last] step] form] runs IH]; [discriminate|].
  cbn [flat_map lookup_run]. rewrite forallb_app.
  intros Hall. apply andb_true_iff in Hall. destruct Hall as [Hrun Hrest].
  destruct ((first <=? c) && (c <=? last) && ((c - first) mod step =? 0)) eqn:Hin;
    [|now apply IH].
  intros [= <-].
  apply andb_true_iff in Hin. destruct Hin as [Hin Hmod].
  apply andb_true_iff in Hin. destruct Hin as [Hlo Hhi].
  apply N.leb_le in Hlo, Hhi. apply N.eqb_eq in Hmod.
  rewrite forallb_forall in Hrun. apply Hrun.
  unfold images. apply in_map_iff.
  exists (N.to_nat ((c - first) / step)). split.
  - rewrite N2Nat.id. pose proof (N.div_mod' (c - first) step). lia.
  - apply in_seq.
    assert ((c - first) / step <= (last - first) / step)
      by (apply N.Div0.div_le_mono; lia).
    set (q := (c - first) / step) in *. set (q' := (last - first) / step) in *.
    clearbody q q'. lia.
Qed.

Lemma plain_spec (d : N) :
  plain d = true ->
  valid d /\ d <> 64 /\ d <> CAPITAL_SIGMA /\ lower1 d = [d].
Proof.
  unfold plain, valid. intros H.
  apply andb_true_iff in H. destruct H as [H H4].
  apply andb_true_iff in H. destruct H as [H H3].
  apply andb_true_iff in H. destruct H as [H1 H2].
  apply N.leb_le in H1. apply negb_true_iff, N.eqb_neq in H2, H3.
  repeat split; try assumption.
  destruct (lower1 d) as [|e [|? ?]]; try discriminate.
  apply N.eqb_eq in H4. now subst.
Qed.

Lemma LOWER_RUNS_plain : forallb plain (flat_map images LOWER_RUNS) = true.
Proof. vm_compute. reflexivity. Qed.

Lemma lower1_small (c : N) :
  c < 128 -> lower1 c = if (65 <=? c) && (c <=? 90) then [c + 32] else [c].
Proof. intros H. unfold lower1. apply N.ltb_lt in H. now rewrite H. Qed.







(** *** The at sign *)

Lemma at_byte (b : ascii) : Ascii.eqb b "@" = (N_of_ascii b =? 64).
Proof.
  destruct (Ascii.eqb_spec b "@") as [->|Hne]; [reflexivity|].
  symmetry. apply N.eqb_neq. intros H. apply Hne.
  rewrite <- (ascii_N_embedding b), H. reflexivity.
Qed.

Lemma has_at_decode (need : nat) (least acc : N) (s : string) :
  (need <> O -> 128 <= least) ->
  has_at (decode_from need least acc s) = negb (free_of "@" s).
Proof.
  revert need least acc. induction s as [|b s IH]; intros need least acc Hl.
  - destruct need; reflexivity.
  - rewrite decode_from_step. cbv zeta. cbn [free_of].
    rewrite at_byte, negb_andb, negb_involutive.
    set (n := N_of_ascii b).
    assert (Hfresh : has_at match start n with
                            | Single c => c :: decode_from 0 0 0 s
                            | Lead need' least' acc' => decode_from need' least' acc' s
                            | Stray => REPLACEMENT :: decode_from 0 0 0 s
                            end
                     = (n =? 64) || negb (free_of "@" s)).
    { destruct (start_cases n) as [[H ->]|[[H ->]|[[H ->]|[[H ->]|[H ->]]]]].
      - cbn [has_at existsb]. fold (has_at (decode_from 0 0 0 s)).
        rewrite IH by congruence. now rewrite (N.eqb_sym 64 n).
      - rewrite IH by lia.
        replace (n =? 64) with false by (symmetry; apply N.eqb_neq; lia).
        reflexivity.
      - rewrite IH by lia.
        replace (n =? 64) with false by (symmetry; apply N.eqb_neq; lia).
        reflexivity.
      - rewrite IH by lia.
        replace (n =? 64) with false by (symmetry; apply N.eqb_neq; lia).
        reflexivity.
      - cbn [has_at existsb]. fold (has_at (decode_from 0 0 0 s)).
        rewrite IH by congruence.
        replace (n =? 64) with false by (symmetry; apply N.eqb_neq; lia).
        reflexivity. }
    destruct need as [|k]; [exact Hfresh|].
    specialize (Hl ltac:(discriminate)).
    unfold is_continuation.
    destruct (N.leb_spec 128 n) as [H1|H1]; cbn [andb].
    + replace (n =? 64) with false by (symmetry; apply N.eqb_neq; lia).
      destruct (N.leb_spec n 191) as [H2|H2].
      * destruct k as [|k].
        -- cbn [has_at existsb]. fold (has_at (decode_from 0 0 0 s)).
           rewrite IH by congruence.
           destruct ((least <=? acc * 64 + (n - 128))
                     && (acc * 64 + (n - 128) <=? MAX_CODE)) eqn:Hc.
           ++ apply andb_true_iff in Hc. destruct Hc as [Hc _].
              apply N.leb_le in Hc.
              replace (64 =? acc * 64 + (n - 128)) with false
                by (symmetry; apply N.eqb_neq; lia).
              reflexivity.
           ++ reflexivity.
        -- apply IH. intros _. exact Hl.
      * cbn [has_at existsb]. fold (has_at (decode_from 0 0 0 s)).
        change (has_at (REPLACEMENT :: ?x)) with (has_at x).
        cbn [has_at existsb] in Hfresh |- *.
        replace (n =? 64) with false in Hfresh
          by (symmetry; apply N.eqb_neq; lia).
        exact Hfresh.
    + cbn [has_at existsb]. cbn [orb].
      change (64 =? REPLACEMENT) with false. cbn [orb].
      exact Hfresh.
Qed.

Lemma has_at_app (l l' : list N) : has_at (l ++ l') = has_at l || has_at l'.
Proof. apply existsb_app. Qed.

Lemma has_at_lower1 (c : N) : has_at (lower1 c) = (c =? 64).
Proof.
  destruct (N.ltb_spec c 128) as [H|H].
  - rewrite (lower1_small c H).
    destruct (N.leb_spec 65 c), (N.leb_spec c 90); cbn [andb has_at existsb];
      rewrite orb_false_r, (N.eqb_sym 64); try reflexivity.
    transitivity false; [|symmetry]; apply N.eqb_neq; lia.
  - replace (c =? 64) with false by (symmetry; apply N.eqb_neq; lia).
    destruct (N.eqb_spec c 304) as [->|H304]; [reflexivity|].
    assert (E : lower1 c = match lookup_run c LOWER_RUNS with
                           | Some d => [d] | None => [c] end).
    { unfold lower1. apply N.ltb_ge in H. rewrite H.
      apply N.eqb_neq in H304. now rewrite H304. }
    rewrite E. destruct (lookup_run c LOWER_RUNS) as [d|] eqn:Hd;
      cbn [has_at existsb]; rewrite orb_false_r; apply N.eqb_neq.
    + apply (lookup_run_all plain _ _ _ LOWER_RUNS_plain) in Hd.
      apply plain_spec in Hd. destruct Hd as (_ & Hd & _). congruence.
    + lia.
Qed.

Lemma has_at_lower_from (before l : list N) :
  has_at (lower_from before l) = has_at l.
Proof.
  revert before. induction l as [|c l IH]; intros before; [reflexivity|].
  cbn [lower_from]. rewrite has_at_app, IH.
  change (has_at (c :: l)) with ((64 =? c) || has_at l).
  f_equal. rewrite (N.eqb_sym 64 c).
  destruct (N.eqb_spec c CAPITAL_SIGMA) as [->|E]; [|apply has_at_lower1].
  unfold sigma. now destruct (cased_next before && negb (cased_next l)).
Qed.

Lemma free_of_joined (c : ascii) (s t : string) :
  free_of c (s ++ t) = free_of c s && free_of c t.
Proof.
  induction s as [|a s IH]; [reflexivity|].
  cbn [append free_of]. now rewrite IH, andb_assoc.
Qed.

Lemma high_byte (n : N) : 128 <= n < 256 -> Ascii.eqb (byte n) "@" = false.
Proof.
  intros H. rewrite at_byte, byte_value by lia. apply N.eqb_neq. lia.
Qed.

Lemma free_of_encode1 (c : N) : free_of "@" (encode1 c) = negb (c =? 64).
Proof.
  unfold encode1.
  pose proof (N.mod_lt c 64 ltac:(lia)) as R1.
  pose proof (N.mod_lt (c / 64) 64 ltac:(lia)) as R2.
  pose proof (N.mod_lt (c / 4096) 64 ltac:(lia)) as R3.
  destruct (N.ltb_spec c 128) as [H1|H1].
  { cbn [free_of]. rewrite at_byte, byte_value by lia. now rewrite andb_true_r. }
  replace (c =? 64) with false by (symmetry; apply N.eqb_neq; lia).
  destruct (N.ltb_spec c 2048) as [H2|H2].
  { assert (Q : c / 64 < 32) by (apply N.Div0.div_lt_upper_bound; lia).
    revert Q R1. generalize (c / 64), (c mod 64). intros q r Q R.
    cbn [free_of]. rewrite !high_byte by lia. reflexivity. }
  destruct (N.ltb_spec c 65536) as [H3|H3].
  { assert (Q : c / 4096 < 16) by (apply N.Div0.div_lt_upper_bound; lia).
    revert Q R1 R2.
    generalize (c / 4096), ((c / 64) mod 64), (c mod 64). intros q r' r Q R R'.
    cbn [free_of]. rewrite !high_byte by lia. reflexivity. }
  destruct (N.leb_spec c MAX_CODE) as [H4|H4]; [|reflexivity].
  assert (Q : c / 262144 < 5)
    by (apply N.Div0.div_lt_upper_bound; unfold MAX_CODE in H4; lia).
  revert Q R1 R2 R3.
  generalize (c / 262144), ((c / 4096) mod 64), ((c / 64) mod 64), (c mod 64).
  intros q r'' r' r Q R R' R''.
  cbn [free_of]. rewrite !high_byte by lia. reflexivity.
Qed.

Lemma free_of_encode (l : list N) : free_of "@" (encode l) = negb (has_at l).
Proof.
  induction l as [|c l IH]; [reflexivity|].
  cbn [encode]. rewrite free_of_joined, free_of_encode1, IH.
  change (has_at (c :: l)) with ((64 =? c) || has_at l).
  now rewrite negb_orb, (N.eqb_sym 64 c).
Qed.

(** [('@' in s.lower()) == ('@' in s)] *)
Lemma str_lower_keeps_at (s : string) :
  free_of "@" (str_lower s) = free_of "@" s.
Proof.
  unfold str_lower, decode.
  rewrite free_of_encode, has_at_lower_from, has_at_decode by congruence.
  apply negb_involutive.
Qed.

(** *** Letter case *)
















End PyUnicodeFacts.

(** ** Facts about the string operations *)

Module PyStrFacts.

Import PyStr.
Local Open Scope string_scope.

Lemma append_nil_r (s : string) : s ++ "" = s.
Proof. induction s; simpl; congruence. Qed.

Lemma append_assoc (a b c : string) : (a ++ b) ++ c = a ++ (b ++ c).
Proof. induction a; simpl; congruence. Qed.

Lemma prefix_iff (p s : string) :
  prefix p s = true <-> exists post, s = p ++ post.
Proof.
  revert s; induction p as [|a p IH]; intros s; simpl.
  - destruct s; simpl; split; eauto.
  - destruct s as [|b s]; simpl.
    + split; [discriminate | intros [post H]; discriminate].
    + destruct (ascii_dec a b) as [->|Hne].
      * rewrite IH. split; intros [post H]; exists post; congruence.
      * split; [discriminate | intros [post H]; congruence].
Qed.

Lemma contains_iff (p s : string) : contains p s = true <-> Substring p s.
Proof.
  unfold Substring. induction s as [|c s IH]; cbn [contains].
  - rewrite orb_false_r, prefix_iff. split.
    + intros [post H]. exists "", post. exact H.
    + intros [pre [post H]]. destruct pre; simpl in H; [eauto | discriminate].
  - rewrite orb_true_iff, prefix_iff, IH. split.
    + intros [[post H] | [pre [post H]]].
      * exists "", post. exact H.
      * exists (String c pre), post. simpl. congruence.
    + intros [pre [post H]]. destruct pre as [|a pre]; simpl in H.
      * left. eauto.
      * right. exists pre, post. congruence.
Qed.

Lemma contains_false_iff (p s : string) :
  contains p s = false <-> ~ Substring p s.
Proof.
  rewrite <- contains_iff. destruct (contains p s); split; intros H.
  - discriminate.
  - exfalso; apply H; reflexivity.
  - discriminate.
  - reflexivity.
Qed.



(** ['\u212a'.lower() == 'k']: the Kelvin sign is a capital letter k. *)
Example lower_kelvin_sign : lower (PyUnicode.encode [8490%N]) = "k".
Proof. vm_compute. reflexivity. Qed.

(** A capital sigma that ends a word has the final form, U+03C2. *)
Example lower_final_sigma :
  lower (PyUnicode.encode [927; 931; 32; 931; 927]%N)
  = PyUnicode.encode [959; 962; 32; 963; 959]%N.
Proof. vm_compute. reflexivity. Qed.

Lemma contains_at_iff (s : string) :
  contains "@" s = true <-> free_of "@" s = false.
Proof.
  induction s as [|c s IH]; cbn [contains free_of].
  - cbn. split; discriminate.
  - cbn [prefix]. destruct (ascii_dec "@" c) as [e|Hne].
    + subst c. destruct s; cbn; split; reflexivity.
    + destruct (Ascii.eqb_spec c "@"%char) as [->|_]; [congruence|].
      cbn [negb andb orb]. exact IH.
Qed.

End PyStrFacts.

Module PyDateFacts.
Import PyDate.
Local Open Scope Z_scope.

Example cutoff_is_june_first :
  timegm (mk_time_tuple 2025 6 1 0 0 0 0) = Ret cutoff_date.
Proof. reflexivity. Qed.

Example naive_bounds :
  timegm (mk_time_tuple 1 1 1 0 0 0 0) = Ret naive_min
  /\ timegm (mk_time_tuple 9999 12 31 23 59 59 0) = Ret naive_max.
Proof. split; reflexivity. Qed.

End PyDateFacts.

(** ** Facts about the classifier *)

Module ClassifierFacts.

Import PyStr PyStrFacts Classifier.

Lemma first_match_hit (test : string -> bool) (fires : string -> Prop)
      (table : list string) (r : string) :
  (forall x, test x = true <-> fires x) ->
  first_match test table = Some r -> FirstHit fires table r.
Proof.
  intros Hspec. induction table as [|x rest IH]; simpl; [discriminate|].
  destruct (test x) eqn:Hx.
  - intros [= <-]. exists [], rest. repeat split; [now apply Hspec | constructor].
  - intros H. destruct (IH H) as (before & after & -> & Hr & Hb).
    exists (x :: before), after. repeat split; [assumption|].
    constructor; [|assumption].
    intros Hf. apply Hspec in Hf. congruence.
Qed.

Lemma first_match_nohit (test : string -> bool) (fires : string -> Prop)
      (table : list string) :
  (forall x, test x = true <-> fires x) ->
  first_match test table = None -> NoHit fires table.
Proof.
  intros Hspec. unfold NoHit. induction table as [|x rest IH]; simpl.
  - constructor.
  - destruct (test x) eqn:Hx; [discriminate|].
    intros H. constructor; [|auto].
    intros Hf. apply Hspec in Hf. congruence.
Qed.

Lemma split_nonempty (c : ascii) (s : string) : split c s <> [].
Proof.
  destruct s as [|a s]; simpl; [discriminate|].
  destruct (Ascii.eqb a c); [discriminate|].
  destruct (split c s); discriminate.
Qed.

Lemma split_free (c : ascii) (s : string) :
  free_of c s = true -> split c s = [s].
Proof.
  induction s as [|a s IH]; simpl; [reflexivity|].
  destruct (Ascii.eqb a c); simpl; [discriminate|].
  intros H. now rewrite (IH H).
Qed.

Lemma split_single (c : ascii) (s h : string) :
  split c s = [h] -> free_of c s = true.
Proof.
  revert h. induction s as [|a s IH]; simpl; [reflexivity|]. intros h.
  destruct (Ascii.eqb a c); simpl.
  - intros [= _ H]. now apply split_nonempty in H.
  - destruct (split c s) as [|h' t] eqn:Hs; [now apply split_nonempty in Hs|].
    intros [= _ ->]. eapply IH. reflexivity.
Qed.

Lemma split_first (c : ascii) (s : string) :
  free_of c s = false ->
  exists post, s = (first_item (split c s) ++ String c post)%string
               /\ free_of c (first_item (split c s)) = true.
Proof.
  induction s as [|a s IH]; simpl; [discriminate|].
  destruct (Ascii.eqb_spec a c) as [->|Hne]; simpl.
  - intros _. exists s. split; reflexivity.
  - intros H. destruct (IH H) as (post & Hs & Hf).
    destruct (split c s) as [|h t] eqn:Hsp; [now apply split_nonempty in Hsp|].
    simpl in *. exists post. split; [congruence|].
    destruct (Ascii.eqb_spec a c); [contradiction | exact Hf].
Qed.

Lemma last_cons (x : string) (l : list string) (d : string) :
  l <> [] -> last (x :: l) d = last l d.
Proof. destruct l; [congruence | reflexivity]. Qed.

Lemma split_last (c : ascii) (s : string) :
  free_of c s = false ->
  exists pre, s = (pre ++ String c (last_item (split c s)))%string
              /\ free_of c (last_item (split c s)) = true.
Proof.
  unfold last_item.
  induction s as [|a s IH]; cbn [split free_of]; [discriminate|].
  destruct (Ascii.eqb_spec a c) as [->|Hne]; cbn [negb andb].
  - intros _. rewrite (last_cons _ _ _ (split_nonempty c s)).
    destruct (free_of c s) eqn:Hf.
    + rewrite (split_free _ _ Hf). exists ""%string.
      split; [reflexivity | exact Hf].
    + destruct (IH eq_refl) as (pre & Hs & Hl).
      exists (String c pre). split; [cbn [append]; congruence | exact Hl].
  - intros H. destruct (IH H) as (pre & Hs & Hl).
    destruct (split c s) as [|h t] eqn:Hsp; [now apply split_nonempty in Hsp|].
    destruct t as [|h2 t].
    + apply split_single in Hsp. congruence.
    + rewrite last_cons by discriminate.
      rewrite last_cons in Hs, Hl by discriminate.
      exists (String a pre). split; [cbn [append]; congruence | exact Hl].
Qed.

Lemma domain_part (s : string) : DomainPart s (sender_domain_of s).
Proof.
  unfold DomainPart, sender_domain_of.
  destruct (contains "@" s) eqn:Hc.
  - apply contains_at_iff in Hc. left.
    destruct (split_last "@" s Hc) as (pre & Hs & Hf).
    exists pre. split; [exact Hs | exact Hf].
  - right. split; [|reflexivity].
    destruct (free_of "@" s) eqn:Hf; [reflexivity|].
    apply contains_at_iff in Hf. congruence.
Qed.

Lemma local_part (s : string) : LocalPart s (sender_name_of s).
Proof.
  unfold LocalPart, sender_name_of.
  destruct (contains "@" s) eqn:Hc.
  - apply contains_at_iff in Hc. left.
    destruct (split_first "@" s Hc) as (post & Hs & Hf).
    exists post. split; [exact Hs | exact Hf].
  - right. split; [|reflexivity].
    destruct (free_of "@" s) eqn:Hf; [reflexivity|].
    apply contains_at_iff in Hf. congruence.
Qed.

Lemma pattern_test_iff (low : string -> string)
      (sender subject sender_full p : string) :
  contains p (low sender) || contains p (low subject)
  || contains p (low sender_full) = true
  <-> pattern_fires low sender subject sender_full p.
Proof.
  unfold pattern_fires. rewrite !orb_true_iff, !contains_iff. tauto.
Qed.

(** Scenarios A and B of the specification. *)
Example scenario_A :
  is_unnecessary_email_fast "newsletter@updates.com" "Weekly Digest"
                            "newsletter@updates.com"
  = (true, "Contains pattern: newsletter").
Proof. reflexivity. Qed.

Example scenario_B :
  is_unnecessary_email_fast "friend@gmail.com" "Dinner Friday?"
                            "friend@gmail.com"
  = (false, "Not identified as unnecessary").
Proof. reflexivity. Qed.

(** *** The search for the bracketed address *)

Lemma span_not_gt_spec (s : string) :
  s = (fst (span_not_gt s) ++ snd (span_not_gt s))%string
  /\ free_of ">" (fst (span_not_gt s)) = true
  /\ (snd (span_not_gt s) = ""%string
      \/ exists r, snd (span_not_gt s) = String ">" r).
Proof.
  induction s as [|c s (IH1 & IH2 & IH3)]; cbn [span_not_gt].
  - cbn. auto.
  - destruct (Ascii.eqb_spec c ">") as [->|Hne].
    + cbn. eauto.
    + destruct (span_not_gt s) as [run rest]. cbn [fst snd] in *.
      cbn [append free_of]. repeat split.
      * congruence.
      * destruct (Ascii.eqb_spec c ">"); [contradiction | exact IH2].
      * exact IH3.
Qed.

Lemma span_not_gt_app (inner post : string) :
  free_of ">" inner = true ->
  span_not_gt (inner ++ String ">" post) = (inner, String ">" post).
Proof.
  induction inner as [|c inner IH]; cbn [append free_of span_not_gt].
  - intros _. reflexivity.
  - destruct (Ascii.eqb c ">"); cbn [negb andb]; [discriminate|].
    intros H. now rewrite (IH H).
Qed.

Lemma match_here_sound (s g : string) :
  match_here s = Some g -> exists post, BracketPair s "" g post.
Proof.
  unfold match_here, BracketPair.
  destruct s as [|c s]; [discriminate|].
  destruct (ascii_dec c "<") as [->|Hne].
  - pose proof (span_not_gt_spec s) as (H1 & H2 & H3).
    destruct (span_not_gt s) as [run rest]. cbn [fst snd] in *.
    destruct run as [|a run]; [destruct rest as [|? ?]; cbn|].
    + discriminate.
    + discriminate.
    + destruct H3 as [->|[r ->]]; [discriminate|].
      intros [= <-]. exists r. repeat split.
      * rewrite H1. reflexivity.
      * discriminate.
      * exact H2.
  - destruct c as [[] [] [] [] [] [] [] []]; try discriminate.
    congruence.
Qed.

Lemma match_here_complete (s inner post : string) :
  BracketPair s "" inner post -> match_here s = Some inner.
Proof.
  unfold BracketPair. intros (-> & Hne & Hf). cbn [append match_here].
  change (">" ++ post)%string with (String ">" post).
  rewrite (span_not_gt_app _ _ Hf).
  destruct inner; [congruence | reflexivity].
Qed.

Lemma re_search_found (s g : string) :
  re_search s = Some g ->
  exists pre post,
    BracketPair s pre g post
    /\ forall pre' inner' post',
         BracketPair s pre' inner' post' ->
         String.length pre <= String.length pre'.
Proof.
  induction s as [|c s IH]; cbn [re_search].
  - cbn. discriminate.
  - destruct (match_here (String c s)) as [g'|] eqn:Hm.
    + intros [= ->]. apply match_here_sound in Hm. destruct Hm as [post Hp].
      exists ""%string, post. split; [exact Hp|]. intros. cbn. apply Nat.le_0_l.
    + intros H. destruct (IH H) as (pre & post & (Hs & Hne & Hf) & Hleft).
      exists (String c pre), post. split.
      * repeat split; [simpl in *; congruence | exact Hne | exact Hf].
      * intros pre' inner' post' Hp'.
        destruct pre' as [|c' pre'].
        -- apply match_here_complete in Hp'. congruence.
        -- cbn [String.length]. apply le_n_S.
           apply (Hleft pre' inner' post').
           destruct Hp' as (Hs' & Hne' & Hf').
           repeat split; [simpl in *; congruence | exact Hne' | exact Hf'].
Qed.

Lemma re_search_none (s : string) :
  re_search s = None ->
  forall pre inner post, ~ BracketPair s pre inner post.
Proof.
  induction s as [|c s IH]; cbn [re_search].
  - intros _ pre inner post (Hs & _). destruct pre; discriminate.
  - destruct (match_here (String c s)) as [g'|] eqn:Hm; [discriminate|].
    intros H pre inner post Hp.
    destruct pre as [|c' pre].
    + apply match_here_complete in Hp. congruence.
    + apply (IH H pre inner post).
      destruct Hp as (Hs & Hne & Hf).
      repeat split; [simpl in *; congruence | exact Hne | exact Hf].
Qed.

Lemma free_of_at_lower (s : string) :
  free_of "@" (lower s) = free_of "@" s.
Proof. exact (PyUnicodeFacts.str_lower_keeps_at s). Qed.

Lemma match_here_needs_lt (s : string) :
  free_of "<" s = true -> match_here s = None.
Proof.
  destruct s as [|c s]; [reflexivity|]. cbn [free_of].
  destruct c as [[] [] [] [] [] [] [] []]; cbn; try reflexivity.
  discriminate.
Qed.

Lemma re_search_needs_lt (s : string) :
  free_of "<" s = true -> re_search s = None.
Proof.
  induction s as [|c s IH]; [reflexivity|].
  intros H. cbn [re_search]. rewrite (match_here_needs_lt _ H).
  apply IH. cbn [free_of] in H. now apply andb_true_iff in H.
Qed.

(** The address is the content of the leftmost pair with a content. *)
Example extract_sender_bracketed :
  extract_sender "News <newsletter@updates.com>" = "newsletter@updates.com"
  /\ extract_sender "friend@gmail.com" = "friend@gmail.com"
  /\ extract_sender "<>" = "<>"
  /\ extract_sender "<> <a@b.c>" = "a@b.c"
  /\ extract_sender "x <<a@b.c>" = "<a@b.c".
Proof. repeat split; reflexivity. Qed.

(** *** The rule groups determine the answer *)

Lemma free_of_app (c : ascii) (a b : string) :
  free_of c (a ++ b) = free_of c a && free_of c b.
Proof.
  induction a as [|x a IH]; cbn [append free_of]; [reflexivity|].
  rewrite IH. now rewrite andb_assoc.
Qed.

Lemma free_of_sep (c : ascii) (d : string) : free_of c (String c d) = false.
Proof. cbn [free_of]. now rewrite Ascii.eqb_refl. Qed.

Lemma split_sep_last (c : ascii) (pre d : string) :
  free_of c d = true -> last_item (split c (pre ++ String c d)) = d.
Proof.
  intros Hd. unfold last_item.
  induction pre as [|a pre IH]; cbn [append split].
  - rewrite Ascii.eqb_refl, (last_cons _ _ _ (split_nonempty c d)).
    now rewrite (split_free _ _ Hd).
  - destruct (Ascii.eqb a c).
    + now rewrite (last_cons _ _ _ (split_nonempty c _)).
    + destruct (split c (pre ++ String c d)) as [|h t] eqn:Hs;
        [now apply split_nonempty in Hs|].
      destruct t as [|h2 t].
      * apply split_single in Hs. rewrite free_of_app, free_of_sep in Hs.
        now rewrite andb_false_r in Hs.
      * rewrite last_cons by discriminate.
        rewrite last_cons in IH by discriminate. exact IH.
Qed.

Lemma split_sep_first (c : ascii) (l post : string) :
  free_of c l = true -> first_item (split c (l ++ String c post)) = l.
Proof.
  unfold first_item.
  induction l as [|a l IH]; cbn [append split free_of].
  - intros _. now rewrite Ascii.eqb_refl.
  - destruct (Ascii.eqb a c); cbn [negb andb]; [discriminate|].
    intros Hl. specialize (IH Hl).
    destruct (split c (l ++ String c post)) as [|h t] eqn:Hs;
      [now apply split_nonempty in Hs|].
    cbn [hd] in *. now rewrite IH.
Qed.

Lemma contains_at_sep (pre d : string) :
  contains "@" (pre ++ String "@" d) = true.
Proof.
  apply contains_at_iff. rewrite free_of_app, free_of_sep.
  apply andb_false_r.
Qed.

Lemma contains_at_free (s : string) :
  free_of "@" s = true -> contains "@" s = false.
Proof.
  intros H. destruct (contains "@" s) eqn:Hc; [|reflexivity].
  apply contains_at_iff in Hc. congruence.
Qed.

Lemma domain_part_unique (s d : string) :
  DomainPart s d -> d = sender_domain_of s.
Proof.
  unfold sender_domain_of. intros [(pre & -> & Hd) | (Hs & ->)].
  - change ("@" ++ d)%string with (String "@" d).
    now rewrite contains_at_sep, split_sep_last.
  - now rewrite contains_at_free.
Qed.

Lemma local_part_unique (s l : string) :
  LocalPart s l -> l = sender_name_of s.
Proof.
  unfold sender_name_of. intros [(post & -> & Hl) | (Hs & ->)].
  - change ("@" ++ post)%string with (String "@" post).
    now rewrite contains_at_sep, split_sep_first.
  - now rewrite contains_at_free.
Qed.

Lemma first_hit_unique (fires : string -> Prop) (table : list string)
      (r r' : string) :
  FirstHit fires table r -> FirstHit fires table r' -> r = r'.
Proof.
  intros (b & a & Ht & Hr & Hb) (b' & a' & Ht' & Hr' & Hb').
  rewrite Ht in Ht'. clear Ht. revert b' Ht' Hb'.
  induction b as [|x b IH]; intros [|x' b'] Heq Hb'; cbn in Heq.
  - congruence.
  - injection Heq as <- _. inversion Hb' as [|? ? Hx _]. contradiction.
  - injection Heq as -> _. inversion Hb as [|? ? Hx _]. contradiction.
  - injection Heq as _ Heq. inversion Hb. inversion Hb'. eauto.
Qed.

Lemma first_hit_no_hit (fires : string -> Prop) (table : list string)
      (r : string) :
  FirstHit fires table r -> NoHit fires table -> False.
Proof.
  intros (b & a & -> & Hr & _) Hn. unfold NoHit in Hn.
  apply Forall_app in Hn. destruct Hn as [_ Hn].
  inversion Hn as [|? ? Hx _]. contradiction.
Qed.

(** The relation has one answer: the one the classifier computes. *)
Lemma classified_functional (low : string -> string)
      (sender subject sender_full : string) (r r' : bool * string) :
  Classified low sender subject sender_full r ->
  Classified low sender subject sender_full r' -> r = r'.
Proof.
  intros H H'.
  destruct H; destruct H';
    repeat match goal with
           | H : DomainPart _ _ |- _ => apply domain_part_unique in H; subst
           | H : LocalPart _ _ |- _ => apply local_part_unique in H; subst
           end;
    first
      [ reflexivity
      | match goal with
        | H1 : FirstHit ?f ?t _, H2 : NoHit ?f ?t |- _ =>
            exfalso; exact (first_hit_no_hit _ _ _ H1 H2)
        end
      | match goal with
        | H1 : FirstHit ?f ?t ?a, H2 : FirstHit ?f ?t ?b |- _ =>
            rewrite (first_hit_unique _ _ _ _ H1 H2); reflexivity
        end ].
Qed.

(** A subject written with the Kelvin sign for the letter k is matched as
    [str.lower] makes it "marketing week". *)
Example kelvin_sign_is_matched :
  is_unnecessary_email_fast
    "shop@store.example"
    ("MAR" ++ PyUnicode.encode [8490%N] ++ "ETING week")
    "Shop <shop@store.example>"
  = (true, "Contains pattern: marketing").
Proof. vm_compute. reflexivity. Qed.

End ClassifierFacts.

(** ** A frame rule for the methods

    A relation between the machine before and after that is reflexive and
    transitive, holds across a change of the world, and holds across the
    events and the updates of a method, holds across the method. *)

Section Frame.

Variable E : Env.
Variable R : machine E -> machine E -> Prop.
Variable okE : event -> Prop.
Variable okU : (object E -> object E) -> Prop.

Hypothesis R_refl : forall m, R m m.
Hypothesis R_trans : forall a b c, R a b -> R b c -> R a c.
Hypothesis R_emit : forall e m, okE e -> R m (snd (emit e m)).
Hypothesis R_update : forall f m, okU f -> R m (snd (update f m)).
Hypothesis R_world : forall m w', R m (mk_machine w' (self m) (log m)).

#[local] Abbreviation stable := (stable_under E R).

Lemma stable_ret {A} (a : A) : stable (ret a).
Proof. intros m. apply R_refl. Qed.

Lemma stable_bind {A B} (c : prog E A) (k : A -> prog E B) :
  stable c -> (forall a, stable (k a)) -> stable (bind c k).
Proof.
  intros Hc Hk m. unfold bind. specialize (Hc m).
  destruct (c m) as [a m1]. eapply R_trans; [exact Hc | apply Hk].
Qed.

Lemma stable_emit (e : event) : okE e -> stable (emit e).
Proof. intros H m. now apply R_emit. Qed.

Lemma stable_update (f : object E -> object E) : okU f -> stable (update f).
Proof. intros H m. now apply R_update. Qed.

Lemma stable_read {A} (f : object E -> A) : stable (read f).
Proof. intros m. apply R_refl. Qed.

Hypothesis E_local : forall e, local_event e = true -> okE e.
Hypothesis E_session : forall e, session_event e = true -> okE e.

Ltac ev :=
  first [ apply E_local; reflexivity | apply E_session; reflexivity ].

Hypothesis U_password : forall p, okU (set_password E p).
Hypothesis U_mail : forall c, okU (set_mail E c).
Hypothesis U_stop : okU (set_stop_requested E true).

Lemma stable_signal_handler : stable (signal_handler E).
Proof.
  unfold signal_handler.
  repeat (apply stable_bind; [|intros _]);
    [apply stable_emit | apply stable_emit | apply stable_update; exact U_stop];
    ev.
Qed.

Lemma stable_call {A} (e : event) (op : world E -> reply (world E) A) :
  okE e -> stable (call E e op).
Proof.
  intros He m. unfold call. cbn [snd].
  set (m1 := mk_machine (next (op (now m))) (self m) (e :: log m)).
  assert (H1 : R m m1).
  { eapply R_trans; [apply (R_world m (next (op (now m))))|].
    exact (R_emit e (mk_machine (next (op (now m))) (self m) (log m)) He). }
  destruct (sigint (op (now m))); [|exact H1].
  eapply R_trans; [exact H1 | apply stable_signal_handler].
Qed.

Lemma stable_on_mail {A} (e : event)
      (op : conn E -> world E -> reply (world E) A) :
  okE e -> stable (on_mail E e op).
Proof.
  intros He. unfold on_mail. apply stable_bind; [apply stable_read|].
  intros [c|]; [now apply stable_call | apply stable_ret].
Qed.

Lemma stable_bind_try {A B} (c : prog E (pyres A)) (k : A -> prog E (pyres B)) :
  stable c -> (forall a, stable (k a)) -> stable (bind_try E c k).
Proof.
  intros Hc Hk. unfold bind_try. apply stable_bind; [exact Hc|].
  intros [a|e]; [apply Hk | apply stable_ret].
Qed.

Lemma stable_ok {A} (c : prog E A) : stable c -> stable (ok E c).
Proof.
  intros Hc. unfold ok. apply stable_bind; [exact Hc|].
  intros a. apply stable_ret.
Qed.

(** One step of a proof that a method is stable. *)
Ltac frame_step :=
  match goal with
  | |- stable (ret _) => apply stable_ret
  | |- stable (read _) => apply stable_read
  | |- stable (emit _) => apply stable_emit
  | |- stable (update _) => apply stable_update
  | |- stable (call _ _ _) => apply stable_call
  | |- stable (on_mail _ _ _) => apply stable_on_mail
  | |- stable (ok _ _) => apply stable_ok
  | |- stable (bind _ _) => apply stable_bind; [|intros ?]
  | |- stable (bind_try _ _ _) => apply stable_bind_try; [|intros ?]
  | |- stable (if ?b then _ else _) => destruct b
  | |- stable (match ?x with _ => _ end) => destruct x
  end.

Ltac frame := repeat frame_step.

Lemma stable_logout_quietly : stable (logout_quietly E).
Proof. unfold logout_quietly. frame. ev. Qed.

Lemma stable_connect_try (attempt : nat) : stable (connect_try E attempt).
Proof.
  unfold connect_try. frame;
    try apply stable_logout_quietly;
    try ev;
    try apply U_password; try apply U_mail.
Qed.

Lemma stable_connect_attempts (attempts : list nat) :
  stable (connect_attempts E attempts).
Proof.
  induction attempts as [|attempt rest IH]; cbn [connect_attempts].
  - apply stable_ret.
  - apply stable_bind; [apply stable_connect_try|].
    intros [u|e]; [apply stable_ret|].
    frame; try exact IH; try apply stable_logout_quietly;
      try ev; try apply U_mail.
Qed.

Lemma stable_connect_to_gmail : stable (connect_to_gmail E).
Proof. apply stable_connect_attempts. Qed.

Hypothesis E_live : forall ok, okE (ensured_live ok).

Lemma stable_reconnect_if_needed : stable (reconnect_if_needed E).
Proof.
  unfold reconnect_if_needed.
  apply stable_bind; [apply stable_on_mail; ev|].
  intros [u|e]; frame; try apply stable_connect_to_gmail;
    try ev; try apply E_live.
Qed.

Hypothesis E_search : okE call_search.
Hypothesis E_fetch : forall email_id, okE (call_fetch email_id).
Hypothesis E_classify :
  forall subject sender_full,
    okE (classify (Classifier.extract_sender sender_full) subject sender_full).

Lemma stable_search_attempts (attempts : list nat) :
  stable (search_attempts E attempts).
Proof.
  induction attempts as [|attempt rest IH]; cbn [search_attempts].
  - apply stable_ret.
  - apply stable_bind; [apply stable_reconnect_if_needed|].
    intros live. destruct (negb live).
    + frame; [ev | exact IH].
    + apply stable_bind.
      * frame; [ev | exact E_search].
      * intros [[status email_ids]|[|]]; frame;
          try exact IH; try apply stable_connect_to_gmail;
          try ev; try apply U_mail.
Qed.

Lemma stable_get_unread_emails_fast : stable (get_unread_emails_fast E).
Proof. apply stable_search_attempts. Qed.

Lemma stable_fetch_and_decide (email_id : msgid) (attempt : nat) :
  stable (fetch_and_decide E email_id attempt).
Proof.
  unfold fetch_and_decide.
  apply stable_bind_try; [apply stable_on_mail; apply E_fetch|].
  intros [status msg_data]. frame;
    try ev; try apply E_classify.
Qed.

Lemma stable_attempt_body (email_id : msgid) (attempt : nat) :
  stable (attempt_body E email_id attempt).
Proof.
  unfold attempt_body. destruct (0 <? attempt).
  - apply stable_bind; [apply stable_reconnect_if_needed|].
    intros live. destruct (negb live);
      [apply stable_ret | apply stable_fetch_and_decide].
  - apply stable_fetch_and_decide.
Qed.

Lemma stable_attempt_handler (email_id : msgid) (attempt : nat) (e : exn) :
  stable (attempt_handler E email_id attempt e).
Proof.
  unfold attempt_handler. frame; ev.
Qed.

Lemma stable_fetch_attempts (email_id : msgid) (attempts : list nat) :
  stable (fetch_attempts E email_id attempts).
Proof.
  induction attempts as [|attempt rest IH]; cbn [fetch_attempts].
  - apply stable_ret.
  - apply stable_bind; [apply stable_attempt_body|].
    intros [[r|]|e].
    + apply stable_ret.
    + exact IH.
    + apply stable_bind; [apply stable_attempt_handler | intros _; exact IH].
Qed.

Lemma stable_process_one (email_id : msgid) : stable (process_one E email_id).
Proof. apply stable_fetch_attempts. Qed.

Lemma stable_process_email_batch (email_batch : list msgid) :
  stable (process_email_batch E email_batch).
Proof.
  induction email_batch as [|email_id rest IH]; cbn [process_email_batch].
  - apply stable_ret.
  - apply stable_bind; [apply stable_read|].
    intros stop. destruct stop; [apply stable_ret|].
    apply stable_bind; [apply stable_process_one|]. intros r.
    apply stable_bind; [exact IH|]. intros rs. apply stable_ret.
Qed.

Hypothesis U_count :
  forall rs, okU (fun o => fold_left (fun o r => count_result E r o) rs o).

Lemma stable_scan_batches (batches : list (list msgid)) :
  stable (scan_batches E batches).
Proof.
  induction batches as [|batch rest IH]; cbn [scan_batches].
  - apply stable_ret.
  - apply stable_bind; [apply stable_read|].
    intros stop. destruct stop; [apply stable_ret|].
    apply stable_bind; [apply stable_process_email_batch|]. intros rs.
    apply stable_bind; [apply stable_update, U_count | intros _; exact IH].
Qed.

Hypothesis E_deletion : forall e, deletion_event e = true -> okE e.

Lemma stable_flag_batch (batch : list result) (counts : nat * nat) :
  stable (flag_batch E batch counts).
Proof.
  revert counts. induction batch as [|email rest IH]; intros [s f];
    cbn [flag_batch].
  - apply stable_ret.
  - apply stable_bind; [apply stable_on_mail; now apply E_deletion|].
    intros [st|e]; [apply IH|].
    apply stable_bind; [|intros _; apply IH].
    destruct (f + 1 <? 5); [apply stable_emit; ev
                           | apply stable_ret].
Qed.

Lemma stable_flag_batches (batches : list (list result)) (counts : nat * nat) :
  stable (flag_batches E batches counts).
Proof.
  revert counts. induction batches as [|batch rest IH]; intros counts;
    cbn [flag_batches].
  - apply stable_ret.
  - apply stable_bind; [apply stable_flag_batch | intros c; apply IH].
Qed.

Lemma stable_delete_emails_fast : stable (delete_emails_fast E).
Proof.
  unfold delete_emails_fast.
  apply stable_bind; [apply stable_emit; now apply E_deletion | intros _].
  apply stable_bind; [apply stable_read | intros cands].
  apply stable_bind; [apply stable_flag_batches | intros counts].
  apply stable_bind; [apply stable_on_mail; now apply E_deletion | intros r].
  frame; ev.
Qed.

End Frame.

(** ** Three instances of the frame rule *)

Section Frames.

Variable E : Env.

(** *** The log only grows, by events of a given kind *)

Lemma extends_refl P (m : machine E) : extends_with P m m.
Proof. exists []. split; [reflexivity | constructor]. Qed.

Lemma extends_trans P (a b c : machine E) :
  extends_with P a b -> extends_with P b c -> extends_with P a c.
Proof.
  intros (t1 & H1 & F1) (t2 & H2 & F2). exists (t2 ++ t1). split.
  - rewrite H2, H1. apply app_assoc.
  - apply Forall_app. split; assumption.
Qed.

Lemma extends_emit (P : event -> Prop) e (m : machine E) :
  P e -> extends_with P m (snd (emit e m)).
Proof. intros H. exists [e]. split; [reflexivity | repeat constructor; exact H]. Qed.

Lemma extends_update P (f : object E -> object E) (m : machine E) :
  True -> extends_with P m (snd (update f m)).
Proof. intros _. exists []. split; [reflexivity | constructor]. Qed.

Lemma extends_world P (m : machine E) w' :
  extends_with P m (mk_machine w' (self m) (log m)).
Proof. exists []. split; [reflexivity | constructor]. Qed.

Lemma trace_of_extension {A} (c : prog E A) (m : machine E) (t : list event) :
  log (snd (c m)) = t ++ log m -> trace c m = rev t.
Proof.
  intros H. unfold trace. rewrite H, length_app.
  replace (length t + length (log m) - length (log m)) with (length t) by lia.
  now rewrite firstn_app, firstn_all, Nat.sub_diag, firstn_O, app_nil_r.
Qed.

(** *** The counters and the list of candidates do not change *)

Lemma count_results_counters (rs : list result) (o : object E) :
  stop_requested (fold_left (fun o r => count_result E r o) rs o)
  = stop_requested o
  /\ mail (fold_left (fun o r => count_result E r o) rs o) = mail o.
Proof.
  revert o. induction rs as [|r rs IH]; intros o; cbn [fold_left].
  - split; reflexivity.
  - destruct (IH (count_result E r o)) as [-> ->].
    unfold count_result. destruct (action_of r); split; reflexivity.
Qed.

End Frames.



(** ** What each method adds to the log *)

Section Logs.

Variable E : Env.
Variable P : event -> Prop.

Hypothesis P_local : forall e, local_event e = true -> P e.
Hypothesis P_session : forall e, session_event e = true -> P e.
Hypothesis P_live : forall ok, P (ensured_live ok).
Hypothesis P_scan : forall e, scan_event e = true -> P e.

Ltac log_frame lemma :=
  intros; apply lemma with (okE := P) (okU := fun _ => True);
  first [ exact (extends_refl E P)
        | exact (extends_trans E P)
        | exact (extends_emit E P)
        | exact (extends_update E P)
        | exact (extends_world E P)
        | assumption
        | intros; exact I
        | exact I
        | exact P_live
        | intros; apply P_scan; reflexivity ].

Lemma log_call {A} (e : event) (op : world E -> reply (world E) A) m :
  P e -> extends_with P m (snd (call E e op m)).
Proof.
  intros He. revert m.
  apply stable_call with (okE := P) (okU := fun _ => True);
    first [ exact (extends_refl E P) | exact (extends_trans E P)
          | exact (extends_emit E P) | exact (extends_update E P)
          | exact (extends_world E P) | assumption | exact I ].
Qed.

Lemma log_on_mail {A} (e : event)
      (op : conn E -> world E -> reply (world E) A) m :
  P e -> extends_with P m (snd (on_mail E e op m)).
Proof.
  intros He. revert m.
  apply stable_on_mail with (okE := P) (okU := fun _ => True);
    first [ exact (extends_refl E P) | exact (extends_trans E P)
          | exact (extends_emit E P) | exact (extends_update E P)
          | exact (extends_world E P) | assumption | exact I ].
Qed.

Lemma log_connect_to_gmail m :
  extends_with P m (snd (connect_to_gmail E m)).
Proof. revert m. log_frame stable_connect_to_gmail. Qed.

Lemma log_reconnect_if_needed m :
  extends_with P m (snd (reconnect_if_needed E m)).
Proof. revert m. log_frame stable_reconnect_if_needed. Qed.

Lemma log_get_unread_emails_fast m :
  extends_with P m (snd (get_unread_emails_fast E m)).
Proof. revert m. log_frame stable_get_unread_emails_fast. Qed.

Lemma log_process_one email_id m :
  extends_with P m (snd (process_one E email_id m)).
Proof. revert m. log_frame stable_process_one. Qed.

Lemma log_process_email_batch email_batch m :
  extends_with P m (snd (process_email_batch E email_batch m)).
Proof. revert m. log_frame stable_process_email_batch. Qed.

Lemma log_scan_batches batches m :
  extends_with P m (snd (scan_batches E batches m)).
Proof. revert m. log_frame stable_scan_batches. Qed.

End Logs.

Section DeletionLog.

Variable E : Env.
Variable P : event -> Prop.
Hypothesis P_local : forall e, local_event e = true -> P e.
Hypothesis P_deletion : forall e, deletion_event e = true -> P e.

Lemma log_flag_batch batch counts m :
  extends_with P m (snd (flag_batch E batch counts m)).
Proof.
  revert m. apply stable_flag_batch with (okE := P) (okU := fun _ => True);
    first [ exact (extends_refl E P) | exact (extends_trans E P)
          | exact (extends_emit E P) | exact (extends_update E P)
          | exact (extends_world E P) | assumption | exact I ].
Qed.

Lemma log_delete_emails_fast m :
  extends_with P m (snd (delete_emails_fast E m)).
Proof.
  revert m. apply stable_delete_emails_fast with (okE := P) (okU := fun _ => True);
    first [ exact (extends_refl E P) | exact (extends_trans E P)
          | exact (extends_emit E P) | exact (extends_update E P)
          | exact (extends_world E P) | assumption | exact I ].
Qed.

End DeletionLog.

(** ** Unfolding one bind *)

Lemma bind_eq {E A B} (c : prog E A) (k : A -> prog E B) (m : machine E) :
  bind c k m = k (fst (c m)) (snd (c m)).
Proof. unfold bind. destruct (c m). reflexivity. Qed.

Lemma bind_try_eq {E A B} (c : prog E (pyres A)) (k : A -> prog E (pyres B))
      (m : machine E) :
  bind_try E c k m
  = match fst (c m) with
    | Ret a => k a (snd (c m))
    | Raise e => (Raise e, snd (c m))
    end.
Proof. unfold bind_try. rewrite bind_eq. destruct (fst (c m)); reflexivity. Qed.

(** ** The confirmation gate *)

Lemma local_not_deletion e : local_event e = true -> not_deletion e.
Proof. unfold not_deletion. destruct e; cbn; congruence. Qed.

Lemma session_not_deletion e : session_event e = true -> not_deletion e.
Proof. unfold not_deletion. destruct e; cbn; congruence. Qed.

Lemma scan_not_deletion e : scan_event e = true -> not_deletion e.
Proof. unfold not_deletion. destruct e; cbn; congruence. Qed.

Lemma live_not_deletion ok : not_deletion (ensured_live ok).
Proof. reflexivity. Qed.

Lemma confirmed_clean (t : list event) : Forall not_deletion t -> Confirmed t.
Proof.
  induction 1 as [|e t He _ IH]; constructor; [exact IH|].
  unfold not_deletion in He. congruence.
Qed.

Lemma confirmed_app_clean (t l : list event) :
  Forall not_deletion t -> Confirmed l -> Confirmed (t ++ l).
Proof.
  induction 1 as [|e t He _ IH]; intros Hl; cbn; [exact Hl|].
  constructor; [now apply IH|]. unfold not_deletion in He. congruence.
Qed.

Lemma confirmed_after_yes (t l : list event) (confirm : string) :
  affirmative confirm = true -> Confirmed l ->
  Confirmed (t ++ answered confirm :: l).
Proof.
  intros Hyes Hl. induction t as [|e t IH]; cbn.
  - constructor; [exact Hl | discriminate].
  - constructor; [exact IH|]. intros _. exists confirm. split; [|exact Hyes].
    apply in_or_app. right. left. reflexivity.
Qed.

(** The inductive reading is the reading by positions. *)
Lemma confirmed_split (l newer older : list event) (e : event) :
  Confirmed l -> l = newer ++ e :: older -> deletion_event e = true ->
  exists confirm, In (answered confirm) older /\ affirmative confirm = true.
Proof.
  intros H. revert newer. induction H as [|x l' Hl IH Hx]; intros newer Heq Hd.
  - destruct newer; discriminate.
  - destruct newer as [|y newer]; cbn in Heq; injection Heq as -> ->.
    + now apply Hx.
    + now apply (IH newer).
Qed.

Section Gate.

Variable E : Env.

Lemma gated_of_clean dry_run (m m' : machine E) :
  extends_with not_deletion m m' -> gated dry_run m m'.
Proof.
  intros (t & Ht & F). exists t. repeat split; auto using confirmed_clean.
Qed.

Lemma gated_clean_then dry_run (a b c : machine E) :
  extends_with not_deletion a b -> gated dry_run b c -> gated dry_run a c.
Proof.
  intros (t1 & H1 & F1) (t2 & H2 & G2 & D2). exists (t2 ++ t1).
  repeat split.
  - rewrite H2, H1. apply app_assoc.
  - clear D2 H2. induction G2 as [|e older G IH Hx]; cbn.
    + now apply confirmed_clean.
    + constructor; [exact IH|]. intros Hd. destruct (Hx Hd) as (cf & Hin & Hy).
      exists cf. split; [apply in_or_app; now left | exact Hy].
  - intros Hd. apply Forall_app. split; auto.
Qed.

Lemma gated_then_clean dry_run (a b c : machine E) :
  gated dry_run a b -> extends_with not_deletion b c -> gated dry_run a c.
Proof.
  intros (t1 & H1 & G1 & D1) (t2 & H2 & F2). exists (t2 ++ t1).
  repeat split.
  - rewrite H2, H1. apply app_assoc.
  - now apply confirmed_app_clean.
  - intros Hd. apply Forall_app. split; auto.
Qed.

Lemma show_analysis_results_gated total_emails dry_run m :
  gated dry_run m (snd (show_analysis_results E total_emails dry_run m)).
Proof.
  unfold show_analysis_results.
  rewrite bind_eq. cbn [read fst snd]. rewrite bind_eq. cbn [emit fst snd].
  set (m1 := mk_machine (now m) (self m) (_ :: log m)).
  assert (H1 : extends_with not_deletion m m1).
  { exists [print (msg_summary (stop_requested (self m))
                               (processed_count (self m)) total_emails
                               (deleted_count (self m)) (kept_count (self m)))].
    split; [reflexivity | repeat constructor]. }
  apply (gated_clean_then _ _ m1); [exact H1|]. clearbody m1. clear H1.
  destruct dry_run.
  - rewrite bind_eq. cbn [emit ret fst snd]. apply gated_of_clean.
    exists [print msg_dry_run]. split; [reflexivity | repeat constructor].
  - destruct (0 <? deleted_count (self m)).
    + rewrite bind_try_eq.
      pose proof (log_call E not_deletion local_not_deletion
                           call_input (input E) m1 eq_refl) as Hc.
      destruct (fst (call E call_input (input E) m1)) as [confirm|e].
      * apply (gated_clean_then _ _ _ _ Hc).
        set (m2 := snd (call E call_input (input E) m1)). clearbody m2.
        rewrite bind_eq. cbn [emit fst snd].
        destruct (affirmative confirm) eqn:Hyes.
        -- rewrite bind_eq. cbn [ret snd].
           set (m3 := mk_machine (now m2) (self m2) (answered confirm :: log m2)).
           destruct (log_delete_emails_fast E (fun _ => True)
                       (fun _ _ => I) (fun _ _ => I) m3) as (t & Ht & _).
           exists (t ++ [answered confirm]). repeat split.
           ++ rewrite Ht. cbn [log m3]. now rewrite <- app_assoc.
           ++ apply confirmed_after_yes; [exact Hyes | constructor].
           ++ discriminate.
        -- rewrite bind_eq. cbn [emit ret fst snd]. apply gated_of_clean.
           exists [print msg_deletion_cancelled; answered confirm].
           split; [reflexivity | repeat constructor].
      * cbn [snd]. apply gated_of_clean. exact Hc.
    + rewrite bind_eq. cbn [emit ret fst snd]. apply gated_of_clean.
      exists [print msg_none_identified].
      split; [reflexivity | repeat constructor].
Qed.

Lemma analyze_emails_fast_gated dry_run m :
  gated dry_run m (snd (analyze_emails_fast E dry_run m)).
Proof.
  unfold analyze_emails_fast. rewrite bind_eq.
  pose proof (log_get_unread_emails_fast E not_deletion local_not_deletion
                session_not_deletion live_not_deletion scan_not_deletion m)
    as H1.
  apply (gated_clean_then _ _ _ _ H1).
  set (m1 := snd (get_unread_emails_fast E m)).
  set (email_ids := fst (get_unread_emails_fast E m)).
  clearbody m1 email_ids. clear H1.
  destruct email_ids as [|i ids].
  - rewrite bind_eq. cbn [emit ret fst snd]. apply gated_of_clean.
    exists [print msg_no_unread]. split; [reflexivity | repeat constructor].
  - rewrite bind_eq. cbn [update fst snd]. rewrite bind_eq.
    set (m2 := mk_machine (now m1) (reset_counters E (self m1)) (log m1)).
    assert (H2 : extends_with not_deletion m1 m2).
    { exists []. split; [reflexivity | constructor]. }
    apply (gated_clean_then _ _ _ _ H2).
    apply (gated_clean_then _ _ (snd (scan_batches E
             (fetch_email_headers_batch (i :: ids) scan_batch_size) m2))).
    + apply log_scan_batches;
        auto using local_not_deletion, session_not_deletion, scan_not_deletion,
                   live_not_deletion.
    + apply show_analysis_results_gated.
Qed.

Lemma close_connection_clean m :
  extends_with not_deletion m (snd (close_connection E m)).
Proof.
  unfold close_connection. rewrite bind_eq. cbn [read fst snd].
  destruct (mail (self m)) as [c|]; [|apply extends_refl].
  rewrite bind_eq. cbn [ret snd]. rewrite bind_try_eq.
  pose proof (log_on_mail E not_deletion local_not_deletion
                          call_close (close E) m eq_refl) as H1.
  destruct (fst (on_mail E call_close (close E) m)); [|exact H1].
  eapply extends_trans; [exact H1|].
  apply log_on_mail; [apply local_not_deletion | reflexivity].
Qed.

Lemma main_gated dry_run_mode m :
  gated dry_run_mode m (snd (main E dry_run_mode m)).
Proof.
  unfold main. rewrite bind_eq.
  eapply gated_then_clean; [|apply close_connection_clean].
  unfold main_body. rewrite bind_eq.
  pose proof (log_connect_to_gmail E not_deletion local_not_deletion
                                   session_not_deletion m) as H1.
  apply (gated_clean_then _ _ _ _ H1).
  destruct (negb (fst (connect_to_gmail E m))).
  - cbn [ret snd]. apply gated_of_clean, extends_refl.
  - rewrite bind_eq.
    eapply gated_then_clean; [apply analyze_emails_fast_gated|].
    destruct (fst (analyze_emails_fast E dry_run_mode _)).
    + apply extends_refl.
    + exists [print msg_error]. split; [reflexivity | repeat constructor].
Qed.

End Gate.

(** ** Counting events of a kind in a trace *)

Lemma filter_nothing {A} (f : A -> bool) (l : list A) :
  Forall (fun x => f x = false) l -> filter f l = [].
Proof.
  induction 1 as [|x l Hx _ IH]; cbn; [reflexivity|]. now rewrite Hx.
Qed.

Lemma filter_trace {E A} (f : event -> bool) (c : prog E A) (m : machine E)
      (t : list event) :
  log (snd (c m)) = t ++ log m ->
  filter f (trace c m) = rev (filter f t).
Proof.
  intros H. rewrite (trace_of_extension E c m t H). apply filter_rev.
Qed.



(** ** Slices *)

Section Slices.

Context {A : Type}.

Lemma chunks_from_succ (c n : nat) (l : list A) :
  chunks_from (S c) n l = firstn n l :: chunks_from c n (skipn n l).
Proof.
  unfold chunks_from. cbn [seq map]. f_equal.
  rewrite <- seq_shift, map_map. apply map_ext. intros k.
  rewrite skipn_skipn. do 2 f_equal. lia.
Qed.

Lemma concat_chunks_from (c n : nat) (l : list A) :
  length l <= c * n -> concat (chunks_from c n l) = l.
Proof.
  revert l. induction c as [|c IH]; intros l Hlen.
  - destruct l; [reflexivity | cbn in Hlen; lia].
  - rewrite chunks_from_succ. cbn [concat]. rewrite IH.
    + apply firstn_skipn.
    + rewrite length_skipn. cbn in Hlen. lia.
Qed.

Lemma slices_count_bound (len n : nat) :
  0 < n -> len <= (len + n - 1) / n * n.
Proof.
  intros Hn.
  pose proof (Nat.mul_succ_div_gt (len + n - 1) n ltac:(lia)) as H.
  lia.
Qed.

Lemma slices_chunks (l : list A) (n : nat) :
  slices l n = chunks_from ((length l + n - 1) / n) n l.
Proof.
  unfold slices, range_step, chunks_from. now rewrite map_map.
Qed.

Lemma concat_slices (l : list A) (n : nat) : 0 < n -> concat (slices l n) = l.
Proof.
  intros Hn. rewrite slices_chunks. apply concat_chunks_from.
  now apply slices_count_bound.
Qed.

Lemma slices_sizes (l : list A) (n : nat) :
  0 < n -> Forall (fun b => 0 < length b <= n) (slices l n).
Proof.
  intros Hn. rewrite slices_chunks. unfold chunks_from.
  apply Forall_forall. intros b Hb. apply in_map_iff in Hb.
  destruct Hb as (k & <- & Hk). apply in_seq in Hk.
  rewrite length_firstn, length_skipn.
  assert (k * n < length l).
  { pose proof (Nat.Div0.mul_div_le (length l + n - 1) n) as H.
    assert (S k <= (length l + n - 1) / n) by lia.
    assert (n * S k <= n * ((length l + n - 1) / n))
      by (apply Nat.mul_le_mono_l; assumption).
    lia. }
  lia.
Qed.

Lemma slices_length (l : list A) (n : nat) :
  length (slices l n) = (length l + n - 1) / n.
Proof. unfold slices, range_step. now rewrite !length_map, length_seq. Qed.

Lemma slices_nth (l : list A) (n k : nat) :
  k < length (slices l n) ->
  nth k (slices l n) [] = firstn n (skipn (k * n) l).
Proof.
  intros Hk. rewrite slices_length in Hk. rewrite slices_chunks.
  unfold chunks_from.
  rewrite (nth_indep _ [] (firstn n (skipn (0 * n) l)))
    by (now rewrite length_map, length_seq).
  rewrite (map_nth (fun k => firstn n (skipn (k * n) l)) (seq 0 _) 0 k).
  now rewrite seq_nth.
Qed.

(** Every slice but the last is full. *)
Lemma slices_full (l : list A) (n k : nat) :
  0 < n -> S k < length (slices l n) -> length (nth k (slices l n) []) = n.
Proof.
  intros Hn Hk. rewrite slices_nth by lia.
  rewrite slices_length in Hk.
  rewrite length_firstn, length_skipn.
  pose proof (Nat.Div0.mul_div_le (length l + n - 1) n) as H.
  assert (n * S (S k) <= n * ((length l + n - 1) / n))
    by (apply Nat.mul_le_mono_l; lia).
  lia.
Qed.

Lemma concat_firstn_length (k : nat) (ls : list (list A)) :
  length (concat (firstn k ls)) <= length (concat ls).
Proof.
  revert k. induction ls as [|b ls IH]; intros [|k]; cbn; try lia.
  rewrite !length_app. specialize (IH k). lia.
Qed.

End Slices.

(** ** The accounting of the scan *)

Section Accounting.

Variable E : Env.

Lemma count_result_accounted r o :
  accounted E o -> accounted E (count_result E r o)
                 /\ processed_count (count_result E r o) = S (processed_count o).
Proof.
  unfold accounted, count_result. intros [H1 H2].
  destruct (action_of r); cbn; rewrite ?length_app; cbn; lia.
Qed.

Lemma count_all_accounted rs o :
  accounted E o ->
  accounted E (count_all E rs o)
  /\ processed_count (count_all E rs o) = processed_count o + length rs.
Proof.
  unfold count_all. revert o. induction rs as [|r rs IH]; intros o Ho; cbn.
  - split; [exact Ho | lia].
  - destruct (count_result_accounted r o Ho) as [H1 H2].
    destruct (IH _ H1) as [H3 H4]. split; [exact H3 | lia].
Qed.

Lemma reset_accounted (o : object E) : accounted E (reset_counters E o).
Proof. split; reflexivity. Qed.

Lemma appended_length (r : option result) : length (appended r) <= 1.
Proof. destruct r; cbn; lia. Qed.

Lemma process_email_batch_length batch m :
  length (fst (process_email_batch E batch m)) <= length batch.
Proof.
  revert m. induction batch as [|i rest IH]; intros m; cbn [process_email_batch].
  - cbn. lia.
  - rewrite bind_eq. cbn [read fst snd].
    destruct (stop_requested (self m)); [cbn; lia|].
    rewrite !bind_eq. cbn [ret fst]. rewrite length_app.
    pose proof (appended_length (fst (process_one E i m))).
    specialize (IH (snd (process_one E i m))). cbn [length]. lia.
Qed.

(** The batch step leaves the counters and the list alone. *)
Lemma process_email_batch_counters batch m :
  counters E (self (snd (process_email_batch E batch m))) = counters E (self m).
Proof.
  revert m.
  apply stable_process_email_batch
    with (R := same_counters) (okE := fun _ => True) (okU := keeps_counters E);
    unfold same_counters, keeps_counters;
    first [ reflexivity | intros; reflexivity | intros; exact I
          | intros ? ? ? H1 H2; congruence
          | intros ? ? H; apply H ].
Qed.

Lemma accounted_counters (o o' : object E) :
  counters E o' = counters E o -> accounted E o -> accounted E o'.
Proof.
  unfold counters, accounted. intros [= H1 H2 H3 H4]. rewrite H1, H2, H3, H4.
  auto.
Qed.

Lemma scan_batches_accounted batches m :
  accounted E (self m) ->
  accounted E (self (snd (scan_batches E batches m)))
  /\ processed_count (self (snd (scan_batches E batches m)))
     <= processed_count (self m) + length (concat batches).
Proof.
  revert m. induction batches as [|b rest IH]; intros m Hm; cbn [scan_batches].
  - cbn. split; [exact Hm | lia].
  - rewrite bind_eq. cbn [read fst snd].
    destruct (stop_requested (self m)); [cbn [ret snd]; split; [exact Hm|lia]|].
    rewrite !bind_eq. cbn [update fst snd].
    set (rs := fst (process_email_batch E b m)).
    set (m1 := snd (process_email_batch E b m)).
    pose proof (process_email_batch_length b m) as Hlen. fold rs in Hlen.
    pose proof (process_email_batch_counters b m) as Hc. fold m1 in Hc.
    assert (H1 : accounted E (self m1)) by (eapply accounted_counters; eauto).
    destruct (count_all_accounted rs _ H1) as [H2 H3].
    destruct (IH (mk_machine (now m1) (count_all E rs (self m1)) (log m1)) H2)
      as [H4 H5].
    split; [exact H4|].
    eapply Nat.le_trans; [exact H5|]. cbn [self]. rewrite H3.
    assert (processed_count (self m1) = processed_count (self m))
      by (unfold counters in Hc; congruence).
    cbn [concat]. rewrite length_app. lia.
Qed.

(** The loop over a list of batches followed by more batches is the loop over
    the first followed by the loop over the rest. *)
Lemma scan_batches_app bs1 bs2 m :
  snd (scan_batches E (bs1 ++ bs2) m)
  = snd (scan_batches E bs2 (snd (scan_batches E bs1 m))).
Proof.
  revert m. induction bs1 as [|b rest IH]; intros m; cbn [app scan_batches].
  - reflexivity.
  - rewrite !bind_eq. cbn [read fst snd].
    destruct (stop_requested (self m)) eqn:Hs.
    + cbn [ret snd]. destruct bs2 as [|b2 r2]; [reflexivity|].
      cbn [scan_batches]. rewrite bind_eq. cbn [read fst snd]. now rewrite Hs.
    + rewrite !bind_eq. apply IH.
Qed.

End Accounting.

(** ** The stop flag and the session during the batch step *)

Section BatchFacts.

Variable E : Env.

Lemma process_email_batch_stop_stays batch m :
  stop_requested (self m) = true ->
  stop_requested (self (snd (process_email_batch E batch m))) = true.
Proof.
  revert m. change (stable_under E stop_stays (process_email_batch E batch)).
  apply stable_process_email_batch
    with (okE := fun _ => True) (okU := keeps_stop E);
    unfold stop_stays, keeps_stop; cbn;
    solve [ intros; exact I | intros; reflexivity | auto ].
Qed.

Lemma process_one_stop_stays email_id m :
  stop_requested (self m) = true ->
  stop_requested (self (snd (process_one E email_id m))) = true.
Proof.
  revert m. change (stable_under E stop_stays (process_one E email_id)).
  apply stable_process_one
    with (okE := fun _ => True) (okU := keeps_stop E);
    unfold stop_stays, keeps_stop; cbn;
    solve [ intros; exact I | intros; reflexivity | auto ].
Qed.

(** With the flag set the batch step does nothing. *)
Lemma process_email_batch_stopped batch m :
  stop_requested (self m) = true -> process_email_batch E batch m = ([], m).
Proof.
  intros Hs. destruct batch as [|i rest]; [reflexivity|].
  cbn [process_email_batch]. rewrite bind_eq. cbn [read fst snd].
  now rewrite Hs.
Qed.

Lemma scan_batches_stopped batches m :
  stop_requested (self m) = true -> scan_batches E batches m = (tt, m).
Proof.
  intros Hs. destruct batches as [|b rest]; [reflexivity|].
  cbn [scan_batches]. rewrite bind_eq. cbn [read fst snd]. now rewrite Hs.
Qed.

(** The batch step over a batch cut in two. *)
Lemma process_email_batch_app b1 b2 m :
  process_email_batch E (b1 ++ b2) m
  = (fst (process_email_batch E b1 m)
     ++ fst (process_email_batch E b2 (snd (process_email_batch E b1 m))),
     snd (process_email_batch E b2 (snd (process_email_batch E b1 m)))).
Proof.
  revert m. induction b1 as [|i rest IH]; intros m; cbn [app].
  - cbn [process_email_batch ret fst snd app].
    now destruct (process_email_batch E b2 m).
  - cbn [process_email_batch]. rewrite !bind_eq. cbn [read fst snd].
    destruct (stop_requested (self m)) eqn:Hs.
    + cbn [ret fst snd app]. now rewrite (process_email_batch_stopped b2 m Hs).
    + rewrite !bind_eq. cbn [ret fst snd]. rewrite IH. cbn [fst snd].
      now rewrite app_assoc.
Qed.

(** The call of a method of the session changes nothing of the object but,
    possibly, the stop flag. *)
Lemma call_mail {A} (e : event) (op : world E -> reply (world E) A) m :
  mail (self (snd (call E e op m))) = mail (self m).
Proof. unfold call. cbn [snd]. now destruct (sigint (op (now m))). Qed.

Lemma process_one_never_skips email_id m c :
  fetch_never_fails E -> mail (self m) = Some c ->
  (exists r, fst (process_one E email_id m) = Some r)
  /\ mail (self (snd (process_one E email_id m))) = Some c.
Proof.
  intros Hok Hmail. unfold process_one. cbn [seq max_fetch_retries fetch_attempts].
  rewrite bind_eq. unfold attempt_body. cbn [Nat.ltb Nat.leb].
  unfold fetch_and_decide. rewrite bind_try_eq.
  unfold on_mail. rewrite bind_eq. cbn [read fst snd]. rewrite Hmail.
  pose proof (call_mail (call_fetch email_id) (fetch E c email_id) m) as Hm.
  rewrite Hmail in Hm.
  set (m1 := snd (call E (call_fetch email_id) (fetch E c email_id) m)) in *.
  replace (fst (call E (call_fetch email_id) (fetch E c email_id) m))
    with (outcome (fetch E c email_id (now m))) by reflexivity.
  destruct (Hok c email_id (now m)) as [h ->].
  change (negb (String.eqb "OK" "OK")) with false. cbn iota.
  destruct (PyDate.parse_email_date _ _ _) as [d|].
  - destruct (PyDate.cutoff_date <=? d)%Z.
    + cbn [ret fst snd]. split; [eauto | exact Hm].
    + rewrite bind_eq. cbn [emit fst snd].
      destruct (Classifier.is_unnecessary_email_fast _ _ _) as [[|] reason];
        cbn [ret fst snd self]; split; eauto.
  - cbn [ret fst snd]. split; [eauto | exact Hm].
Qed.

Lemma process_email_batch_never_skips batch m c :
  fetch_never_fails E -> mail (self m) = Some c ->
  mail (self (snd (process_email_batch E batch m))) = Some c
  /\ (stop_requested (self (snd (process_email_batch E batch m))) = false ->
      length (fst (process_email_batch E batch m)) = length batch).
Proof.
  intros Hok. revert m. induction batch as [|i rest IH]; intros m Hmail.
  - cbn. auto.
  - cbn [process_email_batch]. rewrite !bind_eq. cbn [read fst snd].
    destruct (stop_requested (self m)) eqn:Hs.
    + cbn [ret fst snd]. split; [exact Hmail | congruence].
    + rewrite !bind_eq. cbn [ret fst snd].
      destruct (process_one_never_skips i m c Hok Hmail) as [[r Hr] Hm1].
      destruct (IH _ Hm1) as [Hm2 Hlen].
      split; [exact Hm2|]. intros Hfin. rewrite Hr, length_app, (Hlen Hfin).
      reflexivity.
Qed.

Lemma scan_batches_never_skips batches m c :
  fetch_never_fails E -> mail (self m) = Some c -> accounted E (self m) ->
  stop_requested (self (snd (scan_batches E batches m))) = false ->
  processed_count (self (snd (scan_batches E batches m)))
  = processed_count (self m) + length (concat batches).
Proof.
  intros Hok. revert m. induction batches as [|b rest IH]; intros m Hmail Hacc.
  - cbn. lia.
  - cbn [scan_batches]. rewrite !bind_eq. cbn [read fst snd].
    destruct (stop_requested (self m)) eqn:Hs.
    + cbn [ret snd]. congruence.
    + rewrite !bind_eq. cbn [update fst snd].
      set (rs := fst (process_email_batch E b m)).
      set (m1 := snd (process_email_batch E b m)).
      destruct (process_email_batch_never_skips b m c Hok Hmail) as [Hm1 Hlen].
      fold m1 rs in Hm1, Hlen.
      pose proof (process_email_batch_counters E b m) as Hc. fold m1 in Hc.
      assert (H1 : accounted E (self m1)) by (eapply accounted_counters; eauto).
      destruct (count_all_accounted E rs _ H1) as [H2 H3].
      destruct (count_results_counters E rs (self m1)) as [Hst Hml].
      set (m2 := mk_machine (now m1) _ (log m1)).
      intros Hfin.
      assert (Hs1 : stop_requested (self m1) = false).
      { destruct (stop_requested (self m1)) eqn:Hx; [|reflexivity].
        assert (Hs2 : stop_requested (self m2) = true)
          by (cbn [m2 self]; now rewrite Hst).
        rewrite (scan_batches_stopped rest m2 Hs2) in Hfin. cbn [snd] in Hfin.
        congruence. }
      rewrite (IH m2); [| cbn [m2 self]; now rewrite Hml | exact H2 | exact Hfin].
      cbn [m2 self]. unfold count_all in H3. rewrite H3, (Hlen Hs1).
      assert (processed_count (self m1) = processed_count (self m))
        by (unfold counters in Hc; congruence).
      cbn [concat]. rewrite length_app. lia.
Qed.

End BatchFacts.

(** ** The deletion executor *)

Section Deletion.

Variable E : Env.

Lemma call_log {A} (e : event) (op : world E -> reply (world E) A) m :
  log (snd (call E e op m))
  = rev (signal_events (sigint (op (now m)))) ++ e :: log m.
Proof. unfold call. cbn [snd]. now destruct (sigint (op (now m))). Qed.

Lemma on_mail_connected {A} (e : event)
      (op : conn E -> world E -> reply (world E) A) m c :
  mail (self m) = Some c -> on_mail E e op m = call E e (op c) m.
Proof.
  intros H. unfold on_mail. rewrite bind_eq. cbn [read fst snd]. now rewrite H.
Qed.

Lemma flag_batch_app b1 b2 counts m :
  flag_batch E (b1 ++ b2) counts m
  = flag_batch E b2 (fst (flag_batch E b1 counts m))
               (snd (flag_batch E b1 counts m)).
Proof.
  revert counts m. induction b1 as [|email rest IH]; intros [s f] m; cbn [app].
  - reflexivity.
  - cbn [flag_batch]. rewrite !bind_eq.
    destruct (fst (on_mail E _ _ m)); [apply IH|].
    rewrite !bind_eq. apply IH.
Qed.

Lemma flag_batches_concat batches counts m :
  flag_batches E batches counts m = flag_batch E (concat batches) counts m.
Proof.
  revert counts m. induction batches as [|b rest IH]; intros counts m.
  - reflexivity.
  - cbn [flag_batches concat]. rewrite bind_eq, flag_batch_app. apply IH.
Qed.

(** Every candidate moves one of the two counters by one. *)
Lemma flag_batch_counts batch s f m :
  let counts := fst (flag_batch E batch (s, f) m) in
  fst counts + snd counts = s + f + length batch
  /\ s <= fst counts /\ f <= snd counts.
Proof.
  cbn zeta. revert s f m. induction batch as [|email rest IH]; intros s f m.
  - cbn. lia.
  - cbn [flag_batch]. rewrite bind_eq.
    destruct (fst (on_mail E _ _ m)).
    + specialize (IH (s + 1) f (snd (on_mail E (call_store (id_of email))
                                       (fun c => store E c (id_of email)) m))).
      cbn [length]. lia.
    + rewrite bind_eq.
      match goal with
      | |- context [flag_batch E rest (s, f + 1) ?m'] =>
          specialize (IH s (f + 1) m')
      end.
      cbn [length]. lia.
Qed.

(** Every candidate is flagged once, in order, whatever the stores answer. *)
Lemma flag_batch_log batch counts m c :
  mail (self m) = Some c ->
  exists t,
    log (snd (flag_batch E batch counts m)) = t ++ log m
    /\ filter is_store t = rev (map (fun r => call_store (id_of r)) batch)
    /\ Forall (fun e => is_expunge e = false) t
    /\ mail (self (snd (flag_batch E batch counts m))) = Some c.
Proof.
  revert counts m. induction batch as [|email rest IH]; intros [s f] m Hmail.
  - exists []. cbn. auto.
  - cbn [flag_batch]. rewrite bind_eq.
    rewrite (on_mail_connected _ _ m c Hmail).
    set (op := store E c (id_of email)).
    pose proof (call_log (call_store (id_of email)) op m) as Hlog.
    pose proof (call_mail E (call_store (id_of email)) op m) as Hm.
    rewrite Hmail in Hm.
    set (m1 := snd (call E (call_store (id_of email)) op m)) in *.
    assert (Hsig : forall b, filter is_store (rev (signal_events b)) = []
                             /\ Forall (fun e => is_expunge e = false)
                                       (rev (signal_events b))).
    { intros [|]; cbn; repeat constructor. }
    destruct (Hsig (sigint (op (now m)))) as [Hs1 Hs2].
    destruct (fst (call E (call_store (id_of email)) op m)) as [st|e].
    + destruct (IH (s + 1, f) m1 Hm) as (t & Ht & Hf & Hx & Hm2).
      exists (t ++ rev (signal_events (sigint (op (now m))))
                ++ [call_store (id_of email)]).
      split; [|split; [|split]].
      * rewrite Ht, Hlog, <- !app_assoc. reflexivity.
      * rewrite !filter_app, Hf, Hs1. cbn. reflexivity.
      * repeat (apply Forall_app; split); auto; repeat constructor.
      * exact Hm2.
    + rewrite bind_eq.
      set (pr := if f + 1 <? 5
                 then emit (print (msg_flag_failed (id_of email)))
                 else ret tt).
      assert (Hpr : exists t0, log (snd (pr m1)) = t0 ++ log m1
                               /\ filter is_store t0 = []
                               /\ Forall (fun e => is_expunge e = false) t0
                               /\ mail (self (snd (pr m1))) = Some c).
      { unfold pr. destruct (f + 1 <? 5).
        - exists [print (msg_flag_failed (id_of email))]. cbn.
          split; [|split; [|split]]; auto.
        - exists []. cbn. split; [|split; [|split]]; auto. }
      destruct Hpr as (t0 & Ht0 & Hf0 & Hx0 & Hm0).
      destruct (IH (s, f + 1) (snd (pr m1)) Hm0) as (t & Ht & Hf & Hx & Hm2).
      exists (t ++ t0 ++ rev (signal_events (sigint (op (now m))))
                ++ [call_store (id_of email)]).
      split; [|split; [|split]].
      * rewrite Ht, Ht0, Hlog, <- !app_assoc. reflexivity.
      * rewrite !filter_app, Hf, Hf0, Hs1. cbn. reflexivity.
      * repeat (apply Forall_app; split); auto; repeat constructor.
      * exact Hm2.
Qed.

Lemma flag_batch_all_flagged batch s f m c :
  store_never_raises E -> mail (self m) = Some c ->
  fst (flag_batch E batch (s, f) m) = (s + length batch, f).
Proof.
  intros Hok. revert s m. induction batch as [|email rest IH]; intros s m Hmail.
  - cbn. f_equal. lia.
  - cbn [flag_batch]. rewrite bind_eq.
    rewrite (on_mail_connected _ _ m c Hmail).
    pose proof (call_mail E (call_store (id_of email))
                          (store E c (id_of email)) m) as Hm.
    rewrite Hmail in Hm.
    replace (fst (call E (call_store (id_of email)) (store E c (id_of email)) m))
      with (outcome (store E c (id_of email) (now m))) by reflexivity.
    destruct (Hok c (id_of email) (now m)) as [st ->].
    rewrite (IH (s + 1) _ Hm). cbn [length]. f_equal. lia.
Qed.

(** The two counts are those of the stores that returned and of the stores
    that raised, and the world is the one the stores left. *)
Lemma flag_batch_tally batch s f m c :
  mail (self m) = Some c ->
  let replies := store_replies E c batch (now m) in
  fst (flag_batch E batch (s, f) m)
  = (s + length (flagged_ones replies), f + length (failed_ones replies))
  /\ now (snd (flag_batch E batch (s, f) m))
     = world_after_stores E c batch (now m).
Proof.
  cbn zeta. revert s f m.
  induction batch as [|email rest IH]; intros s f m Hmail.
  - cbn. split; [f_equal; lia | reflexivity].
  - cbn [flag_batch store_replies world_after_stores]. rewrite bind_eq.
    rewrite (on_mail_connected _ _ m c Hmail).
    pose proof (call_mail E (call_store (id_of email))
                          (store E c (id_of email)) m) as Hm.
    rewrite Hmail in Hm.
    assert (Hnow : now (snd (call E (call_store (id_of email))
                               (store E c (id_of email)) m))
                   = next (store E c (id_of email) (now m)))
      by (unfold call; cbn [snd];
          destruct (sigint (store E c (id_of email) (now m))); reflexivity).
    replace (fst (call E (call_store (id_of email)) (store E c (id_of email)) m))
      with (outcome (store E c (id_of email) (now m))) by reflexivity.
    set (m1 := snd (call E (call_store (id_of email))
                      (store E c (id_of email)) m)) in *.
    unfold flagged_ones, failed_ones. cbn [filter snd raised].
    destruct (outcome (store E c (id_of email) (now m))) as [st|e];
      cbn [raised negb map length fst].
    + destruct (IH (s + 1) f m1 Hm) as [H1 H2]. rewrite H1, H2, Hnow.
      unfold flagged_ones, failed_ones. split; [f_equal; lia | reflexivity].
    + rewrite bind_eq.
      set (m2 := snd ((if f + 1 <? 5
                       then emit (print (msg_flag_failed (id_of email)))
                       else ret tt) m1)).
      assert (H2m : mail (self m2) = Some c /\ now m2 = now m1)
        by (unfold m2; destruct (f + 1 <? 5); split; assumption || reflexivity).
      destruct H2m as [Hm2 Hn2].
      destruct (IH s (f + 1) m2 Hm2) as [H1 H2]. rewrite H1, H2, Hn2, Hnow.
      unfold flagged_ones, failed_ones. split; [f_equal; lia | reflexivity].
Qed.

End Deletion.

(** ** One message: attempts, retry, liveness check *)

Section PerMessage.

Variable E : Env.

Lemma local_quiet e : local_event e = true -> quiet e.
Proof. destruct e; cbn; try discriminate; intros _; split; reflexivity. Qed.

Lemma session_quiet e : session_event e = true -> quiet e.
Proof. destruct e; cbn; try discriminate; intros _; split; reflexivity. Qed.

Lemma signal_events_quiet b : Forall quiet (rev (signal_events b)).
Proof. destruct b; cbn; repeat constructor. Qed.

Lemma on_mail_mail {A} (e : event)
      (op : conn E -> world E -> reply (world E) A) m :
  mail (self (snd (on_mail E e op m))) = mail (self m).
Proof.
  unfold on_mail. rewrite bind_eq. cbn [read fst snd].
  destruct (mail (self m)) eqn:H; [rewrite call_mail; exact H | exact H].
Qed.

Lemma fetch_and_decide_disconnected email_id attempt m :
  mail (self m) = None ->
  fetch_and_decide E email_id attempt m = (Raise OtherError, m).
Proof.
  intros H. unfold fetch_and_decide. rewrite bind_try_eq.
  unfold on_mail. rewrite bind_eq. cbn [read fst snd]. now rewrite H.
Qed.

(** What the [try] block of an attempt logs: the fetch, if there is a
    session, then quiet events. *)
Lemma fetch_and_decide_log email_id attempt m :
  exists q,
    log (snd (fetch_and_decide E email_id attempt m))
    = q ++ match mail (self m) with
           | Some _ => [call_fetch email_id]
           | None => []
           end ++ log m
    /\ Forall quiet q
    /\ mail (self (snd (fetch_and_decide E email_id attempt m))) = mail (self m).
Proof.
  destruct (mail (self m)) as [c|] eqn:Hmail.
  - unfold fetch_and_decide. rewrite bind_try_eq.
    rewrite (on_mail_connected E _ _ m c Hmail).
    pose proof (call_log E (call_fetch email_id) (fetch E c email_id) m) as Hlog.
    pose proof (call_mail E (call_fetch email_id) (fetch E c email_id) m) as Hm.
    rewrite Hmail in Hm.
    set (m1 := snd (call E (call_fetch email_id) (fetch E c email_id) m)) in *.
    set (sg := rev (signal_events (sigint (fetch E c email_id (now m))))) in *.
    assert (Hsg : Forall quiet sg) by apply signal_events_quiet.
    assert (Hfin : forall extra,
               Forall quiet extra ->
               exists q, extra ++ log m1 = q ++ [call_fetch email_id] ++ log m
                         /\ Forall quiet q).
    { intros extra Hx. exists (extra ++ sg). split.
      - rewrite Hlog, <- app_assoc. reflexivity.
      - apply Forall_app. split; assumption. }
    assert (Hq1 : Forall quiet [sleep 1]) by (repeat constructor).
    destruct (fst (call E (call_fetch email_id) (fetch E c email_id) m))
      as [[status [hdrs|]]|e].
    + destruct (negb (String.eqb status "OK")).
      * destruct (attempt <? max_fetch_retries - 1).
        -- rewrite bind_eq. cbn [emit ret fst snd log self].
           destruct (Hfin [sleep 1] Hq1) as (q & Hq & Fq).
           exists q. repeat split; assumption.
        -- cbn [ret snd]. destruct (Hfin [] (Forall_nil _)) as (q & Hq & Fq).
           exists q. repeat split; assumption.
      * destruct (PyDate.parse_email_date _ _ _) as [d|].
        -- destruct (PyDate.cutoff_date <=? d)%Z.
           ++ cbn [ret snd]. destruct (Hfin [] (Forall_nil _)) as (q & Hq & Fq).
              exists q. repeat split; assumption.
           ++ rewrite bind_eq. cbn [emit fst snd].
              assert (Hc : Forall quiet
                             [classify (Classifier.extract_sender (h_from hdrs))
                                       (h_subject hdrs) (h_from hdrs)])
                by (repeat constructor).
              destruct (Hfin _ Hc) as (q & Hq & Fq).
              destruct (Classifier.is_unnecessary_email_fast _ _ _) as [[|] ?];
                cbn [ret snd log self]; exists q; repeat split; assumption.
        -- cbn [ret snd]. destruct (Hfin [] (Forall_nil _)) as (q & Hq & Fq).
           exists q. repeat split; assumption.
    + destruct (negb (String.eqb status "OK")).
      * destruct (attempt <? max_fetch_retries - 1).
        -- rewrite bind_eq. cbn [emit ret fst snd log self].
           destruct (Hfin [sleep 1] Hq1) as (q & Hq & Fq).
           exists q. repeat split; assumption.
        -- cbn [ret snd]. destruct (Hfin [] (Forall_nil _)) as (q & Hq & Fq).
           exists q. repeat split; assumption.
      * cbn [ret snd]. destruct (Hfin [] (Forall_nil _)) as (q & Hq & Fq).
        exists q. repeat split; assumption.
    + cbn [snd]. destruct (Hfin [] (Forall_nil _)) as (q & Hq & Fq).
      exists q. repeat split; assumption.
  - rewrite (fetch_and_decide_disconnected _ _ _ Hmail). cbn [snd].
    exists []. repeat split; [constructor | exact Hmail].
Qed.

(** A failed fetch appends no record, and does not end the first attempt. *)
Lemma fetch_and_decide_failed email_id attempt m c :
  mail (self m) = Some c ->
  fetch_failed (outcome (fetch E c email_id (now m))) ->
  match fst (fetch_and_decide E email_id attempt m) with
  | Ret (Break (Some _)) => False
  | Ret (Break None) => (attempt <? max_fetch_retries - 1) = false
  | Ret Continue => (attempt <? max_fetch_retries - 1) = true
  | Raise _ => True
  end.
Proof.
  intros Hmail Hfail. unfold fetch_and_decide. rewrite bind_try_eq.
  rewrite (on_mail_connected E _ _ m c Hmail).
  replace (fst (call E (call_fetch email_id) (fetch E c email_id) m))
    with (outcome (fetch E c email_id (now m))) by reflexivity.
  destruct (outcome (fetch E c email_id (now m))) as [[status data]|e];
    cbn [fetch_failed] in Hfail; [|exact I].
  destruct (String.eqb status "OK") eqn:Hs; cbn [negb].
  - destruct Hfail as [Hf|Hf]; [discriminate|]. subst data. exact I.
  - destruct (attempt <? max_fetch_retries - 1) eqn:Ha.
    + rewrite bind_eq. cbn [emit ret fst snd]. reflexivity.
    + cbn [ret fst]. reflexivity.
Qed.

Lemma attempt_handler_log email_id attempt e m :
  extends_with quiet m (snd (attempt_handler E email_id attempt e m)).
Proof.
  revert m.
  change (stable_under E (extends_with quiet) (attempt_handler E email_id attempt e)).
  apply stable_attempt_handler with (okE := quiet);
    first [ exact (extends_refl E _) | exact (extends_trans E _)
          | exact (extends_emit E _) | exact local_quiet ].
Qed.

(** The liveness check logs its answer last. *)
Lemma reconnect_if_needed_log m :
  exists t,
    log (snd (reconnect_if_needed E m))
    = ensured_live (fst (reconnect_if_needed E m)) :: t ++ log m
    /\ Forall quiet t.
Proof.
  unfold reconnect_if_needed. rewrite bind_eq.
  destruct (log_on_mail E quiet local_quiet call_noop (noop E) m
                        ltac:(split; reflexivity)) as (t1 & Ht1 & F1).
  set (m1 := snd (on_mail E call_noop (noop E) m)) in *.
  destruct (fst (on_mail E call_noop (noop E) m)) as [u|e].
  - rewrite bind_eq. cbn [emit ret fst snd log]. exists t1.
    split; [now rewrite Ht1 | exact F1].
  - rewrite !bind_eq. cbn [emit fst snd].
    set (m2 := mk_machine (now m1) (self m1)
                          (print msg_connection_lost :: log m1)).
    destruct (log_connect_to_gmail E quiet local_quiet session_quiet m2)
      as (t2 & Ht2 & F2).
    cbn [emit ret fst snd log]. exists (t2 ++ print msg_connection_lost :: t1).
    split.
    + rewrite Ht2. cbn [m2 log]. rewrite Ht1, <- app_assoc. reflexivity.
    + apply Forall_app. split; [exact F2|].
      constructor; [split; reflexivity | exact F1].
Qed.

(** A successful connection leaves a session. *)
Lemma connect_try_mail attempt m u :
  fst (connect_try E attempt m) = Ret u ->
  mail (self (snd (connect_try E attempt m))) <> None.
Proof.
  unfold connect_try.
  repeat (rewrite bind_try_eq;
          match goal with
          | |- context [match fst ?x with _ => _ end] =>
              destruct (fst x); [|cbn [fst]; intros; discriminate]
          end).
  intros _. cbn [ret snd]. rewrite !on_mail_mail.
  unfold ok. rewrite !bind_eq. cbn [read update ret fst snd self set_mail mail].
  discriminate.
Qed.

Lemma connect_attempts_mail attempts m :
  fst (connect_attempts E attempts m) = true ->
  mail (self (snd (connect_attempts E attempts m))) <> None.
Proof.
  revert m. induction attempts as [|attempt rest IH]; intros m;
    cbn [connect_attempts].
  - cbn. discriminate.
  - rewrite bind_eq.
    destruct (fst (connect_try E attempt m)) as [u|e] eqn:Ht.
    + intros _. cbn [ret snd]. now apply (connect_try_mail attempt m u).
    + rewrite !bind_eq.
      destruct (attempt =? max_connect_retries - 1).
      * rewrite bind_eq. cbn [ret fst]. discriminate.
      * apply IH.
Qed.

Lemma reconnect_if_needed_mail m :
  fst (reconnect_if_needed E m) = true ->
  mail (self (snd (reconnect_if_needed E m))) <> None.
Proof.
  unfold reconnect_if_needed. rewrite bind_eq.
  destruct (fst (on_mail E call_noop (noop E) m)) as [u|e] eqn:Hn.
  - intros _. rewrite bind_eq. cbn [emit ret fst snd self].
    rewrite on_mail_mail. intros Hnone.
    unfold on_mail in Hn. rewrite bind_eq in Hn. cbn [read fst snd] in Hn.
    rewrite Hnone in Hn. discriminate.
  - rewrite !bind_eq. cbn [emit ret fst snd self].
    apply connect_attempts_mail.
Qed.

(** *** The attempts at one message *)

Lemma all_checked_quiet (q : list event) : Forall quiet q -> all_checked q.
Proof.
  induction 1 as [|e q [He _] _ IH]; cbn; [exact I|].
  split; [congruence | exact IH].
Qed.

Lemma all_checked_app (a b : list event) :
  all_checked a -> all_checked b -> all_checked (a ++ b).
Proof.
  induction a as [|e a IH]; cbn; [auto|]. intros [He Ha] Hb.
  split; [|now apply IH].
  intros Hf. destruct (He Hf) as [rest ->]. cbn. eauto.
Qed.

Lemma checked_retries_app (a b : list event) :
  all_checked a -> checked_retries b -> checked_retries (a ++ b).
Proof.
  induction a as [|e a IH]; cbn; [auto|]. intros [He Ha] Hb.
  split; [|now apply IH].
  intros Hf. destruct (He Hf) as [rest ->]. right. cbn. eauto.
Qed.

Lemma checked_retries_suffix (a b : list event) :
  checked_retries (a ++ b) -> checked_retries b.
Proof. induction a as [|e a IH]; cbn; [auto | intros [_ H]; auto]. Qed.

(** The second attempt: the check, and the fetch only behind a good check. *)
Lemma second_attempt_log email_id attempt m :
  (0 <? attempt) = true ->
  exists q t,
    log (snd (fetch_attempts E email_id [attempt] m))
    = q ++ (if fst (reconnect_if_needed E m) then [call_fetch email_id] else [])
        ++ ensured_live (fst (reconnect_if_needed E m)) :: t ++ log m
    /\ Forall quiet q /\ Forall quiet t.
Proof.
  intros Ha. cbn [fetch_attempts]. rewrite bind_eq.
  unfold attempt_body. rewrite Ha. rewrite bind_eq.
  destruct (reconnect_if_needed_log m) as (t & Ht & Ft).
  pose proof (reconnect_if_needed_mail m) as Hmail.
  set (live := fst (reconnect_if_needed E m)) in *.
  set (m2 := snd (reconnect_if_needed E m)) in *.
  destruct live; cbn [negb].
  - destruct (fetch_and_decide_log email_id attempt m2) as (q & Hq & Fq & Hm).
    destruct (mail (self m2)) as [c2|] eqn:Hc2; [|now destruct (Hmail eq_refl)].
    destruct (fst (fetch_and_decide E email_id attempt m2)) as [[r|]|e].
    + cbn [ret snd]. exists q, t. repeat split; [|exact Fq|exact Ft].
      rewrite Hq, Ht. reflexivity.
    + cbn [fetch_attempts ret snd]. exists q, t.
      repeat split; [|exact Fq|exact Ft]. rewrite Hq, Ht. reflexivity.
    + rewrite bind_eq. cbn [fetch_attempts ret snd].
      destruct (attempt_handler_log email_id attempt e
                  (snd (fetch_and_decide E email_id attempt m2)))
        as (h & Hh & Fh).
      exists (h ++ q), t. repeat split; [| |exact Ft].
      * rewrite Hh, Hq, Ht, <- app_assoc. reflexivity.
      * apply Forall_app. split; assumption.
  - cbn [ret fst snd fetch_attempts]. exists [], t.
    repeat split; [|constructor|exact Ft]. rewrite Ht. reflexivity.
Qed.

(** The last attempt leaves no record when the check or the fetch fails. *)
Lemma last_attempt_skips email_id attempt m :
  (0 <? attempt) = true -> (attempt <? max_fetch_retries - 1) = false ->
  (fst (reconnect_if_needed E m) = false ->
   fst (fetch_attempts E email_id [attempt] m) = None)
  /\ (forall c2,
         fst (reconnect_if_needed E m) = true ->
         mail (self (snd (reconnect_if_needed E m))) = Some c2 ->
         fetch_failed (outcome (fetch E c2 email_id
                                      (now (snd (reconnect_if_needed E m))))) ->
         fst (fetch_attempts E email_id [attempt] m) = None).
Proof.
  intros Ha Hlast. cbn [fetch_attempts]. rewrite bind_eq.
  unfold attempt_body. rewrite Ha. rewrite bind_eq.
  split.
  - intros ->. reflexivity.
  - intros c2 -> Hmail Hfail. cbn [negb].
    pose proof (fetch_and_decide_failed email_id attempt _ c2 Hmail Hfail) as H.
    destruct (fst (fetch_and_decide E email_id attempt _)) as [[[r|]|]|e].
    + contradiction.
    + reflexivity.
    + congruence.
    + rewrite bind_eq. reflexivity.
Qed.

(** A failed first fetch is followed by the second attempt. *)
Lemma first_attempt_failed email_id more m c :
  mail (self m) = Some c ->
  fetch_failed (outcome (fetch E c email_id (now m))) ->
  fetch_attempts E email_id (0 :: more) m
  = fetch_attempts E email_id more (snd (fetch_attempts E email_id [0] m))
  /\ exists q,
       log (snd (fetch_attempts E email_id [0] m))
       = q ++ call_fetch email_id :: log m
       /\ Forall quiet q.
Proof.
  intros Hmail Hfail. cbn [fetch_attempts]. rewrite !bind_eq.
  unfold attempt_body. cbn [Nat.ltb Nat.leb].
  pose proof (fetch_and_decide_failed email_id 0 m c Hmail Hfail) as H.
  destruct (fetch_and_decide_log email_id 0 m) as (q & Hq & Fq & _).
  rewrite Hmail in Hq.
  destruct (fst (fetch_and_decide E email_id 0 m)) as [[[r|]|]|e].
  - contradiction.
  - discriminate H.
  - cbn [ret snd]. split; [reflexivity|]. exists q. split; assumption.
  - rewrite !bind_eq. cbn [ret snd]. split; [reflexivity|].
    destruct (attempt_handler_log email_id 0 e
                (snd (fetch_and_decide E email_id 0 m))) as (h & Hh & Fh).
    exists (h ++ q). split.
    + rewrite Hh, Hq, <- app_assoc. reflexivity.
    + apply Forall_app. split; assumption.
Qed.

Lemma quiet_no_fetch (q : list event) : Forall quiet q -> filter is_fetch q = [].
Proof.
  intros H. apply filter_nothing. eapply Forall_impl; [|exact H].
  intros e [He _]. exact He.
Qed.

Lemma quiet_no_check (q : list event) :
  Forall quiet q -> filter is_ensured_live q = [].
Proof.
  intros H. apply filter_nothing. eapply Forall_impl; [|exact H].
  intros e [_ He]. exact He.
Qed.

(** In what one message logs, a fetch is the oldest event or comes just
    after a good liveness check. *)
Lemma process_one_checked email_id m :
  exists t, log (snd (process_one E email_id m)) = t ++ log m
            /\ checked_retries t.
Proof.
  unfold process_one. cbn [seq max_fetch_retries].
  change (fetch_attempts E email_id [0; 1] m)
    with (bind (attempt_body E email_id 0)
               (fun r => match r with
                         | Ret (Break appended) => ret appended
                         | Ret Continue => fetch_attempts E email_id [1]
                         | Raise e => bind (attempt_handler E email_id 0 e)
                                        (fun _ => fetch_attempts E email_id [1])
                         end) m).
  rewrite bind_eq. unfold attempt_body at 1 2. cbn [Nat.ltb Nat.leb].
  destruct (fetch_and_decide_log email_id 0 m) as (q0 & Hq0 & Fq0 & _).
  set (f0 := match mail (self m) with
             | Some _ => [call_fetch email_id]
             | None => []
             end) in *.
  assert (Hf0 : checked_retries (q0 ++ f0)).
  { apply checked_retries_app; [now apply all_checked_quiet|].
    unfold f0. destruct (mail (self m)); cbn; auto. }
  set (m1 := snd (fetch_and_decide E email_id 0 m)) in *.
  assert (Hseg : forall mx q t,
             Forall quiet q -> Forall quiet t ->
             all_checked (q ++ (if fst (reconnect_if_needed E mx)
                                then [call_fetch email_id] else [])
                            ++ ensured_live (fst (reconnect_if_needed E mx)) :: t)).
  { intros mx q t Fq Ft. apply all_checked_app; [now apply all_checked_quiet|].
    destruct (fst (reconnect_if_needed E mx)); cbn.
    - split; [eauto|]. split; [discriminate | now apply all_checked_quiet].
    - split; [discriminate | now apply all_checked_quiet]. }
  destruct (fst (fetch_and_decide E email_id 0 m)) as [[r|]|e].
  - cbn [ret snd]. exists (q0 ++ f0). split; [now rewrite Hq0, app_assoc | exact Hf0].
  - destruct (second_attempt_log email_id 1 m1 eq_refl) as (q & t & Hl & Fq & Ft).
    exists ((q ++ (if fst (reconnect_if_needed E m1)
                   then [call_fetch email_id] else [])
               ++ ensured_live (fst (reconnect_if_needed E m1)) :: t)
            ++ (q0 ++ f0)).
    split.
    + rewrite Hl, Hq0. rewrite <- ?app_assoc. cbn [app].
      rewrite <- ?app_assoc. reflexivity.
    + apply checked_retries_app; [now apply Hseg | exact Hf0].
  - rewrite bind_eq.
    destruct (attempt_handler_log email_id 0 e m1) as (h & Hh & Fh).
    set (m1' := snd (attempt_handler E email_id 0 e m1)) in *.
    destruct (second_attempt_log email_id 1 m1' eq_refl) as (q & t & Hl & Fq & Ft).
    exists ((q ++ (if fst (reconnect_if_needed E m1')
                   then [call_fetch email_id] else [])
               ++ ensured_live (fst (reconnect_if_needed E m1')) :: t)
            ++ h ++ (q0 ++ f0)).
    split.
    + rewrite Hl, Hh, Hq0. rewrite <- ?app_assoc. cbn [app].
      rewrite <- ?app_assoc. reflexivity.
    + apply checked_retries_app; [now apply Hseg|].
      apply checked_retries_app; [now apply all_checked_quiet | exact Hf0].
Qed.

(** With a session open, the first thing a message logs is its fetch. *)
Lemma process_one_first_fetch email_id m c :
  mail (self m) = Some c ->
  exists t, log (snd (process_one E email_id m))
            = t ++ call_fetch email_id :: log m.
Proof.
  intros Hmail. unfold process_one. cbn [seq max_fetch_retries].
  change (fetch_attempts E email_id [0; 1] m)
    with (bind (attempt_body E email_id 0)
               (fun r => match r with
                         | Ret (Break appended) => ret appended
                         | Ret Continue => fetch_attempts E email_id [1]
                         | Raise e => bind (attempt_handler E email_id 0 e)
                                        (fun _ => fetch_attempts E email_id [1])
                         end) m).
  rewrite bind_eq. unfold attempt_body at 1 2. cbn [Nat.ltb Nat.leb].
  destruct (fetch_and_decide_log email_id 0 m) as (q0 & Hq0 & _ & _).
  rewrite Hmail in Hq0.
  set (m1 := snd (fetch_and_decide E email_id 0 m)) in *.
  assert (Hrest : forall mx, extends_with (fun _ => True) mx
                     (snd (fetch_attempts E email_id [1] mx))).
  { change (stable_under E (extends_with (fun _ => True))
                   (fetch_attempts E email_id [1])).
    apply stable_fetch_attempts with (okE := fun _ => True) (okU := fun _ => True);
      first [ exact (extends_refl E _) | exact (extends_trans E _)
            | exact (extends_emit E _) | exact (extends_update E _)
            | exact (extends_world E _) | intros; exact I ]. }
  destruct (fst (fetch_and_decide E email_id 0 m)) as [[r|]|e].
  - cbn [ret snd]. exists q0. exact Hq0.
  - destruct (Hrest m1) as (t & Ht & _). exists (t ++ q0).
    rewrite Ht, Hq0, <- app_assoc. reflexivity.
  - rewrite bind_eq.
    destruct (attempt_handler_log email_id 0 e m1) as (h & Hh & _).
    destruct (Hrest (snd (attempt_handler E email_id 0 e m1))) as (t & Ht & _).
    exists (t ++ h ++ q0).
    rewrite Ht, Hh, Hq0, <- !app_assoc. reflexivity.
Qed.

(** The deletion executor makes no liveness check. *)
Lemma delete_emails_fast_unchecked m :
  extends_with (fun e => is_liveness_check e = false) m
               (snd (delete_emails_fast E m)).
Proof.
  apply log_delete_emails_fast; intros e He; destruct e;
    first [ discriminate He | reflexivity ].
Qed.

End PerMessage.

(** ** Scenarios C and D of the specification *)

(** A promotion dated after the cutoff is kept without a classifier call. *)
Example scenario_C :
  let s := Script.zoned 0 Script.promotion in
  fst (process_email_batch (Script.env s) ["1"] (Script.connected s))
  = [keep_record "1" "too_recent_or_no_date"]
  /\ trace (process_email_batch (Script.env s) ["1"]) (Script.connected s)
     = [call_fetch "1"].
Proof. split; vm_compute; reflexivity. Qed.

(** A message without a Date header is kept without a classifier call. *)
Example scenario_D :
  let s := Script.zoned 0 Script.undated in
  fst (process_email_batch (Script.env s) ["1"] (Script.connected s))
  = [keep_record "1" "too_recent_or_no_date"]
  /\ trace (process_email_batch (Script.env s) ["1"]) (Script.connected s)
     = [call_fetch "1"].
Proof. split; vm_compute; reflexivity. Qed.

(** An old message from a friend is kept after the classifier said so. *)
Example scenario_B_scanned :
  let s := Script.zoned 0 Script.friend in
  fst (process_email_batch (Script.env s) ["1"] (Script.connected s))
  = [keep_record "1" "not_unnecessary"]
  /\ trace (process_email_batch (Script.env s) ["1"]) (Script.connected s)
     = [call_fetch "1";
        classify "friend@gmail.com" "Dinner Friday?" "friend@gmail.com"].
Proof. split; vm_compute; reflexivity. Qed.

(* ================================================================= *)
(** * Further facts *)

(** ** Rules hidden by earlier rules *)

Module ShadowFacts.

Import PyStr PyStrFacts Classifier ClassifierFacts.

Lemma substring_trans (a b c : string) :
  Substring a b -> Substring b c -> Substring a c.
Proof.
  intros (p1 & q1 & ->) (p2 & q2 & ->).
  exists (p2 ++ p1)%string, (q1 ++ q2)%string.
  now rewrite !append_assoc.
Qed.

Lemma substring_nil (s : string) : Substring "" s.
Proof. exists ""%string, s. reflexivity. Qed.

Lemma domain_part_substring (s d : string) : DomainPart s d -> Substring d s.
Proof.
  intros [(pre & -> & _) | (_ & ->)]; [|apply substring_nil].
  exists (pre ++ "@")%string, ""%string.
  now rewrite append_nil_r, append_assoc.
Qed.

Lemma local_part_substring (s l : string) : LocalPart s l -> Substring l s.
Proof.
  intros [(post & -> & _) | (_ & ->)].
  - exists ""%string, ("@" ++ post)%string. reflexivity.
  - exists ""%string, ""%string. cbn. now rewrite append_nil_r.
Qed.

(** A rule that fires first, when no earlier rule fires and firing passes to
    the rules contained in a rule, is not a hidden one. *)
Lemma first_hit_live (fires : string -> Prop) (earlier table : list string)
      (r : string) :
  (forall p q, Substring p q -> fires q -> fires p) ->
  Forall (fun x => ~ fires x) earlier ->
  FirstHit fires table r -> In r (live_rules earlier table).
Proof.
  intros Hmono. revert earlier.
  induction table as [|x rest IH]; intros earlier Hearlier (b & a & Ht & Hr & Hb).
  - destruct b; discriminate.
  - destruct b as [|y b]; cbn in Ht; injection Ht as -> ->; cbn [live_rules].
    + destruct (shadowed_in earlier r) eqn:Hs.
      * exfalso. unfold shadowed_in in Hs. apply existsb_exists in Hs.
        destruct Hs as (p & Hin & Hc). apply contains_iff in Hc.
        rewrite Forall_forall in Hearlier.
        apply (Hearlier p Hin). now apply (Hmono p r).
      * left. reflexivity.
    + inversion Hb as [|? ? Hy Hb']. subst.
      assert (Hin : In r (live_rules (earlier ++ [y]) (b ++ r :: a))).
      { apply IH.
        - apply Forall_app. split; [exact Hearlier | repeat constructor; exact Hy].
        - exists b, a. auto. }
      destruct (shadowed_in earlier y); [exact Hin | right; exact Hin].
Qed.

End ShadowFacts.

(** ** Sub-sequences *)

Section SubseqFacts.

Context {A : Type}.

Lemma subseq_refl (l : list A) : Subseq l l.
Proof. induction l; [apply Subseq_nil | now apply Subseq_take]. Qed.

Lemma subseq_nil_l (l : list A) : Subseq [] l.
Proof. induction l; [apply Subseq_nil | now apply Subseq_skip]. Qed.

Lemma subseq_app (a b c d : list A) :
  Subseq a b -> Subseq c d -> Subseq (a ++ c) (b ++ d).
Proof.
  induction 1 as [|x a b _ IH|x a b _ IH]; intros Hcd; cbn.
  - exact Hcd.
  - apply Subseq_skip. now apply IH.
  - apply Subseq_take. now apply IH.
Qed.

Lemma subseq_in (a b : list A) (x : A) : Subseq a b -> In x a -> In x b.
Proof.
  induction 1 as [|y a b _ IH|y a b _ IH]; cbn; intros Hx; auto.
  destruct Hx; auto.
Qed.

End SubseqFacts.

Lemma subseq_filter_map {A B} (f : A -> B) (p : A -> bool) (l : list A) :
  Subseq (map f (filter p l)) (map f l).
Proof.
  induction l as [|x l IH]; cbn; [constructor|].
  destruct (p x); cbn; [apply Subseq_take | apply Subseq_skip]; exact IH.
Qed.

Lemma subseq_trans {A} (a b c : list A) :
  Subseq a b -> Subseq b c -> Subseq a c.
Proof.
  intros Hab Hbc. revert a Hab.
  induction Hbc as [|x b c _ IH|x b c _ IH]; intros a Hab.
  - exact Hab.
  - apply Subseq_skip. now apply IH.
  - inversion Hab; subst;
      [apply Subseq_skip | apply Subseq_take]; now apply IH.
Qed.

(** ** Records are sound *)

Section Soundness.

Variable E : Env.

Lemma fetch_and_decide_sound email_id attempt m r :
  fst (fetch_and_decide E email_id attempt m) = Ret (Break (Some r)) ->
  sound_record email_id r.
Proof.
  unfold fetch_and_decide. rewrite bind_try_eq.
  destruct (fst (on_mail E _ _ m)) as [[status [hdrs|]]|e];
    [| |cbn [fst]; discriminate].
  - destruct (negb (String.eqb status "OK")).
    + destruct (attempt <? max_fetch_retries - 1);
        [rewrite bind_eq|]; cbn [emit ret fst snd]; discriminate.
    + destruct (PyDate.parse_email_date _ _ _) as [d|].
      * destruct (PyDate.cutoff_date <=? d)%Z eqn:Hd.
        -- cbn [ret fst]. intros [= <-]. split; [reflexivity | now left].
        -- rewrite bind_eq. cbn [emit fst snd].
           destruct (Classifier.is_unnecessary_email_fast _ _ _)
             as [[|] reason] eqn:Hc; cbn [ret fst]; intros [= <-].
           ++ split; [reflexivity|]. split; [|exact Hc].
              apply Z.leb_gt in Hd. exact Hd.
           ++ split; [reflexivity | now right].
      * cbn [ret fst]. intros [= <-]. split; [reflexivity | now left].
  - destruct (negb (String.eqb status "OK")).
    + destruct (attempt <? max_fetch_retries - 1);
        [rewrite bind_eq|]; cbn [emit ret fst snd]; discriminate.
    + cbn [ret fst]. discriminate.
Qed.

Lemma fetch_attempts_sound email_id attempts m r :
  fst (fetch_attempts E email_id attempts m) = Some r ->
  sound_record email_id r.
Proof.
  revert m. induction attempts as [|attempt rest IH]; intros m;
    cbn [fetch_attempts].
  - cbn. discriminate.
  - rewrite bind_eq.
    assert (Hbody : forall x,
               fst (attempt_body E email_id attempt m) = Ret (Break (Some x)) ->
               sound_record email_id x).
    { intros x. unfold attempt_body. destruct (0 <? attempt).
      - rewrite bind_eq. destruct (negb (fst (reconnect_if_needed E m))).
        + cbn [ret fst]. discriminate.
        + apply fetch_and_decide_sound.
      - apply fetch_and_decide_sound. }
    destruct (fst (attempt_body E email_id attempt m)) as [[[x|]|]|e].
    + cbn [ret fst]. intros [= <-]. now apply Hbody.
    + cbn [ret fst]. discriminate.
    + apply IH.
    + rewrite bind_eq. apply IH.
Qed.

Lemma process_email_batch_sound batch m :
  Subseq (map id_of (fst (process_email_batch E batch m))) batch
  /\ Forall (fun r => sound_record (id_of r) r)
            (fst (process_email_batch E batch m)).
Proof.
  revert m. induction batch as [|i rest IH]; intros m;
    cbn [process_email_batch].
  - cbn. split; constructor.
  - rewrite bind_eq. cbn [read fst snd].
    destruct (stop_requested (self m)).
    + cbn [ret fst map]. split; [apply subseq_nil_l | constructor].
    + rewrite !bind_eq. cbn [ret fst].
      destruct (IH (snd (process_one E i m))) as [Hs Hf].
      pose proof (fetch_attempts_sound i (seq 0 max_fetch_retries) m) as Hone.
      fold (process_one E i m) in Hone.
      destruct (fst (process_one E i m)) as [r|]; cbn [appended app map].
      * destruct (Hone r eq_refl) as [Hid Hr]. split.
        -- rewrite Hid. now apply Subseq_take.
        -- constructor; [|exact Hf]. rewrite Hid. split; assumption.
      * split; [now apply Subseq_skip | exact Hf].
Qed.

(** The candidates after counting a list of records. *)
Lemma count_all_candidates (rs : list result) (o : object E) :
  emails_to_delete (count_all E rs o)
  = emails_to_delete o ++ filter is_delete_record rs.
Proof.
  unfold count_all. revert o. induction rs as [|r rs IH]; intros o; cbn.
  - now rewrite app_nil_r.
  - rewrite IH. unfold count_result. destruct r; cbn.
    + reflexivity.
    + now rewrite <- app_assoc.
Qed.

Lemma scan_batches_candidates batches m :
  exists added,
    emails_to_delete (self (snd (scan_batches E batches m)))
    = emails_to_delete (self m) ++ added
    /\ Subseq (map id_of added) (concat batches)
    /\ Forall (fun r => is_delete_record r = true
                        /\ sound_record (id_of r) r) added.
Proof.
  revert m. induction batches as [|b rest IH]; intros m; cbn [scan_batches].
  - exists []. cbn. rewrite app_nil_r. repeat split; constructor.
  - rewrite bind_eq. cbn [read fst snd].
    destruct (stop_requested (self m)).
    + exists []. cbn [ret snd]. rewrite app_nil_r.
      repeat split; [apply subseq_nil_l | constructor].
    + rewrite !bind_eq. cbn [update fst snd].
      set (rs := fst (process_email_batch E b m)).
      set (m1 := snd (process_email_batch E b m)).
      destruct (process_email_batch_sound b m) as [Hs Hf]. fold rs in Hs, Hf.
      pose proof (process_email_batch_counters E b m) as Hc. fold m1 in Hc.
      assert (Hcand : emails_to_delete (self m1) = emails_to_delete (self m))
        by (unfold counters in Hc; congruence).
      destruct (IH (mk_machine (now m1) (count_all E rs (self m1)) (log m1)))
        as (added & Ha & Hsub & Hall).
      exists (filter is_delete_record rs ++ added).
      split; [|split].
      * unfold count_all in Ha. rewrite Ha. cbn [self].
        fold (count_all E rs (self m1)).
        rewrite count_all_candidates, Hcand, <- app_assoc. reflexivity.
      * rewrite map_app. cbn [concat]. apply subseq_app; [|exact Hsub].
        eapply subseq_trans; [apply subseq_filter_map | exact Hs].
      * apply Forall_app. split; [|exact Hall].
        apply Forall_forall. intros r Hr. apply filter_In in Hr.
        destruct Hr as [Hin Hd]. split; [exact Hd|].
        rewrite Forall_forall in Hf. now apply Hf.
Qed.

End Soundness.

(** ** More on the deletion executor *)

Section DeletionMore.

Variable E : Env.

(** A call changes nothing of the object but, possibly, the stop flag. *)
Lemma call_same_but_stop {A} (e : event) (op : world E -> reply (world E) A) m :
  same_but_stop (self m) (self (snd (call E e op m))).
Proof.
  unfold call, same_but_stop. cbn [snd].
  destruct (sigint (op (now m))); cbn; auto.
Qed.

Lemma same_but_stop_refl (o : object E) : same_but_stop o o.
Proof. unfold same_but_stop. auto. Qed.

Lemma same_but_stop_trans (a b c : object E) :
  same_but_stop a b -> same_but_stop b c -> same_but_stop a c.
Proof.
  unfold same_but_stop. intros (H1 & H2 & H3 & H4) (H5 & H6 & H7 & H8).
  repeat split; try congruence. auto.
Qed.

Lemma delete_emails_fast_same_but_stop m :
  same_but_stop (self m) (self (snd (delete_emails_fast E m))).
Proof.
  revert m.
  change (stable_under E (fun a b => same_but_stop (self a) (self b))
                       (delete_emails_fast E)).
  apply stable_delete_emails_fast
    with (okE := fun _ => True) (okU := fun f => forall o, same_but_stop o (f o)).
  - intros m. apply same_but_stop_refl.
  - intros a b c. apply same_but_stop_trans.
  - intros e m _. apply same_but_stop_refl.
  - intros f m Hf. apply Hf.
  - intros m w'. apply same_but_stop_refl.
  - intros; exact I.
  - intros o. unfold same_but_stop. cbn. auto.
  - intros; exact I.
Qed.

Lemma stores_only_local ids e : local_event e = true -> stores_only ids e.
Proof. intros He i ->. discriminate He. Qed.

Lemma flag_batch_store_ids batch counts m :
  extends_with (stores_only (map id_of batch)) m
               (snd (flag_batch E batch counts m)).
Proof.
  revert counts m. induction batch as [|email rest IH]; intros [s f] m.
  - apply extends_refl.
  - cbn [flag_batch]. rewrite bind_eq.
    assert (Hweak : forall cnt mx,
               extends_with (stores_only (map id_of (email :: rest))) mx
                            (snd (flag_batch E rest cnt mx))).
    { intros cnt mx. destruct (IH cnt mx) as (t & Ht & Ft).
      exists t. split; [exact Ht|]. eapply Forall_impl; [|exact Ft].
      intros e He i Hi. right. now apply He. }
    pose proof (log_on_mail E (stores_only (map id_of (email :: rest)))
                  (stores_only_local _) (call_store (id_of email))
                  (fun c => store E c (id_of email)) m) as H1.
    assert (Hev : stores_only (map id_of (email :: rest))
                              (call_store (id_of email))).
    { intros i [= <-]. left. reflexivity. }
    specialize (H1 Hev).
    destruct (fst (on_mail E _ _ m)).
    + eapply extends_trans; [exact H1 | apply Hweak].
    + rewrite bind_eq. eapply extends_trans; [exact H1|].
      eapply extends_trans; [|apply Hweak].
      destruct (f + 1 <? 5).
      * apply extends_emit. intros i Hi. discriminate Hi.
      * apply extends_refl.
Qed.

Lemma delete_emails_fast_store_ids m :
  extends_with (stores_only (map id_of (emails_to_delete (self m)))) m
               (snd (delete_emails_fast E m)).
Proof.
  unfold delete_emails_fast. rewrite !bind_eq. cbn [read fst].
  set (P := stores_only (map id_of (emails_to_delete (self m)))).
  assert (Hloc : forall e, local_event e = true -> P e)
    by (intros; now apply stores_only_local).
  set (m0 := snd (emit delete_invoked m)).
  change (snd (read emails_to_delete m0)) with m0.
  change (emails_to_delete (self m0)) with (emails_to_delete (self m)).
  assert (H0 : extends_with P m m0).
  { apply extends_emit. intros i Hi. discriminate Hi. }
  eapply extends_trans; [exact H0|].
  rewrite flag_batches_concat.
  rewrite concat_slices by (unfold delete_batch_size; lia).
  eapply extends_trans; [apply flag_batch_store_ids|].
  set (m1 := snd (flag_batch E (emails_to_delete (self m)) (0, 0) m0)).
  set (counts := fst (flag_batch E (emails_to_delete (self m)) (0, 0) m0)).
  assert (H2 : extends_with P m1 (snd (on_mail E call_expunge (expunge E) m1))).
  { apply log_on_mail; [exact Hloc|]. intros i Hi. discriminate Hi. }
  eapply extends_trans; [exact H2|].
  destruct (fst (on_mail E call_expunge (expunge E) m1));
    cbn [emit fst snd];
    (eexists [_; _; _]; split; [reflexivity|]);
    repeat constructor; intros i Hi; discriminate Hi.
Qed.

(** What a method of the session logs: nothing without a session, else the
    call and the handler's events if the signal came in. *)
Lemma on_mail_log_cases {A} (e : event)
      (op : conn E -> world E -> reply (world E) A) m :
  exists t, log (snd (on_mail E e op m)) = t ++ log m
            /\ (t = [] \/ exists b, t = rev (signal_events b) ++ [e]).
Proof.
  destruct (mail (self m)) as [c|] eqn:Hmail.
  - rewrite (on_mail_connected E e op m c Hmail), call_log.
    exists (rev (signal_events (sigint (op c (now m)))) ++ [e]).
    split; [rewrite <- app_assoc; reflexivity|]. right. eauto.
  - unfold on_mail. rewrite bind_eq. cbn [read fst snd]. rewrite Hmail.
    exists []. split; [reflexivity | now left].
Qed.

Lemma on_mail_no_failed_line {A} (e : event)
      (op : conn E -> world E -> reply (world E) A) m :
  is_failed_line e = false ->
  exists t, log (snd (on_mail E e op m)) = t ++ log m
            /\ Forall (fun x => is_failed_line x = false) t.
Proof.
  intros He. destruct (on_mail_log_cases e op m) as (t & Ht & [->|[b ->]]).
  - exists []. split; [exact Ht | constructor].
  - eexists. split; [exact Ht|]. apply Forall_app. split.
    + destruct b; cbn; repeat constructor.
    + repeat constructor. exact He.
Qed.

(** Without a session nothing is sent: every candidate fails at once. *)
Lemma flag_batch_disconnected batch s f m :
  mail (self m) = None ->
  flag_batch E batch (s, f) m
  = ((s, f + length batch),
     mk_machine (now m) (self m)
       (rev (map (fun r => print (msg_flag_failed (id_of r)))
                 (firstn (4 - f) batch)) ++ log m)).
Proof.
  revert f m. induction batch as [|email rest IH]; intros f m Hmail.
  - cbn. rewrite Nat.add_0_r, firstn_nil. now destruct m.
  - cbn [flag_batch]. rewrite bind_eq.
    unfold on_mail at 1 2. rewrite !bind_eq. cbn [read fst snd]. rewrite Hmail.
    cbn [ret fst snd]. rewrite bind_eq.
    destruct (f + 1 <? 5) eqn:Hf.
    + apply Nat.ltb_lt in Hf. cbn [emit fst snd].
      rewrite IH by exact Hmail. cbn [now self log length].
      replace (4 - f) with (S (4 - (f + 1))) by lia.
      cbn [firstn map rev]. rewrite <- app_assoc. cbn [app].
      f_equal. f_equal. lia.
    + apply Nat.ltb_ge in Hf. cbn [ret fst snd].
      rewrite IH by exact Hmail. cbn [length].
      replace (4 - f) with 0 by lia. replace (4 - (f + 1)) with 0 by lia.
      cbn [firstn map rev app]. f_equal. f_equal. lia.
Qed.

(** The lines [Failed: ...] are those of the first stores that raised, up
    to the fourth failure of the run. *)
Lemma flag_batch_failed_ones batch s f m c :
  mail (self m) = Some c ->
  exists t,
    log (snd (flag_batch E batch (s, f) m)) = t ++ log m
    /\ filter is_failed_line (rev t)
       = map (fun r => print (msg_flag_failed (id_of r)))
             (firstn (4 - f) (failed_ones (store_replies E c batch (now m)))).
Proof.
  revert s f m. induction batch as [|email rest IH]; intros s f m Hmail.
  - exists []. split; [reflexivity|]. cbn. now rewrite firstn_nil.
  - cbn [flag_batch store_replies]. rewrite bind_eq.
    rewrite (on_mail_connected E _ _ m c Hmail).
    pose proof (call_mail E (call_store (id_of email))
                          (store E c (id_of email)) m) as Hm.
    rewrite Hmail in Hm.
    pose proof (call_log E (call_store (id_of email))
                         (store E c (id_of email)) m) as Hlog.
    assert (Hnow : now (snd (call E (call_store (id_of email))
                               (store E c (id_of email)) m))
                   = next (store E c (id_of email) (now m)))
      by (unfold call; cbn [snd];
          destruct (sigint (store E c (id_of email) (now m))); reflexivity).
    replace (fst (call E (call_store (id_of email)) (store E c (id_of email)) m))
      with (outcome (store E c (id_of email) (now m))) by reflexivity.
    set (m1 := snd (call E (call_store (id_of email))
                      (store E c (id_of email)) m)) in *.
    assert (Hsig : forall b, filter is_failed_line (signal_events b) = [])
      by (intros [|]; reflexivity).
    unfold failed_ones. cbn [filter snd].
    destruct (outcome (store E c (id_of email) (now m))) as [st|e];
      cbn [raised map fst].
    + destruct (IH (s + 1) f m1 Hm) as (t & Ht & Hf).
      exists (t ++ rev (signal_events (sigint (store E c (id_of email) (now m))))
                ++ [call_store (id_of email)]).
      split; [rewrite Ht, Hlog, <- !app_assoc; reflexivity|].
      rewrite !rev_app_distr, rev_involutive. cbn [rev app].
      rewrite <- ?app_assoc. cbn [app filter is_failed_line].
      rewrite filter_app, Hsig. cbn [app]. rewrite Hf, Hnow. reflexivity.
    + rewrite bind_eq.
      destruct (f + 1 <? 5) eqn:Hlt.
      * apply Nat.ltb_lt in Hlt.
        set (m2 := snd (emit (print (msg_flag_failed (id_of email))) m1)).
        destruct (IH s (f + 1) m2 Hm) as (t & Ht & Hf).
        exists (t ++ [print (msg_flag_failed (id_of email))]
                  ++ rev (signal_events (sigint (store E c (id_of email) (now m))))
                  ++ [call_store (id_of email)]).
        split; [rewrite Ht; cbn [m2 emit snd log]; rewrite Hlog, <- !app_assoc;
                reflexivity|].
        rewrite !rev_app_distr, rev_involutive. cbn [rev app].
        rewrite <- ?app_assoc. cbn [app filter is_failed_line].
        rewrite filter_app, Hsig. cbn [app filter is_failed_line]. rewrite Hf.
        cbn [m2 emit snd now]. rewrite Hnow.
        replace (4 - f) with (S (4 - (f + 1))) by lia. reflexivity.
      * apply Nat.ltb_ge in Hlt. cbn [ret snd].
        destruct (IH s (f + 1) m1 Hm) as (t & Ht & Hf).
        exists (t ++ rev (signal_events (sigint (store E c (id_of email) (now m))))
                  ++ [call_store (id_of email)]).
        split; [rewrite Ht, Hlog, <- !app_assoc; reflexivity|].
        rewrite !rev_app_distr, rev_involutive. cbn [rev app].
        rewrite <- ?app_assoc. cbn [app filter is_failed_line].
        rewrite filter_app, Hsig. cbn [app]. rewrite Hf, Hnow.
        replace (4 - f) with 0 by lia. replace (4 - (f + 1)) with 0 by lia.
        reflexivity.
Qed.

End DeletionMore.

(** The candidates of a scan, from any machine. *)
Lemma scan_candidates_candidates_aux (E : Env) (email_ids : list msgid)
      (m : machine E) :
  let final := snd (scan_batches E
                      (fetch_email_headers_batch email_ids scan_batch_size)
                      (mk_machine (now m) (reset_counters E (self m)) (log m))) in
  Subseq (map id_of (emails_to_delete (self final))) email_ids
  /\ Forall (fun r => is_delete_record r = true /\ sound_record (id_of r) r)
            (emails_to_delete (self final)).
Proof.
  cbn zeta.
  destruct (scan_batches_candidates E
              (fetch_email_headers_batch email_ids scan_batch_size)
              (mk_machine (now m) (reset_counters E (self m)) (log m)))
    as (added & Ha & Hsub & Hall).
  rewrite Ha. cbn [self reset_counters emails_to_delete app].
  split; [|exact Hall].
  unfold fetch_email_headers_batch in Hsub.
  rewrite concat_slices in Hsub by (unfold scan_batch_size; lia).
  exact Hsub.
Qed.

Section DeletionEntry.

Variable E : Env.

(** [delete_emails_fast] logs its entry first. *)
Lemma delete_emails_fast_enters (P : event -> Prop) (m : machine E) :
  (forall e, local_event e = true -> P e) ->
  (forall e, deletion_event e = true -> P e) ->
  exists t, log (snd (delete_emails_fast E m)) = t ++ delete_invoked :: log m
            /\ Forall P t.
Proof.
  intros Hloc Hdel.
  set (m0 := snd (emit delete_invoked m)).
  assert (H0 : exists t, log (snd (delete_emails_fast E m)) = t ++ log m0
                         /\ Forall P t).
  { unfold delete_emails_fast. rewrite !bind_eq. cbn [read fst snd].
    change (snd (emit delete_invoked m)) with m0.
    set (fl := flag_batches E _ (0, 0) m0).
    assert (H1 : extends_with P m0 (snd fl)).
    { unfold fl. rewrite flag_batches_concat.
      apply log_flag_batch; assumption. }
    set (ex := on_mail E call_expunge (expunge E) (snd fl)).
    assert (H2 : extends_with P (snd fl) (snd ex))
      by (apply log_on_mail; [exact Hloc | now apply Hdel]).
    eapply extends_trans; [exact H1|].
    eapply extends_trans; [exact H2|].
    destruct (fst ex); cbn [emit fst snd];
      (eexists [_; _; _]; split;
       [reflexivity | repeat constructor; apply Hloc; reflexivity]). }
  exact H0.
Qed.

End DeletionEntry.

(** ** Methods that log only events of one kind *)

Section Only.

Variable E : Env.
Variable P : event -> Prop.
Hypothesis P_local : forall e, local_event e = true -> P e.

#[local] Abbreviation only := (stable_under E (extends_with P)).

Lemma only_ret {A} (a : A) : only (ret a).
Proof. intros m. apply extends_refl. Qed.

Lemma only_read {A} (f : object E -> A) : only (read f).
Proof. intros m. apply extends_refl. Qed.

Lemma only_update (f : object E -> object E) : only (update f).
Proof. intros m. now apply extends_update. Qed.

Lemma only_emit (e : event) : P e -> only (emit e).
Proof. intros He m. now apply extends_emit. Qed.

Lemma only_bind {A B} (c : prog E A) (k : A -> prog E B) :
  only c -> (forall a, only (k a)) -> only (bind c k).
Proof. apply stable_bind. apply extends_trans. Qed.

Lemma only_bind_try {A B} (c : prog E (pyres A)) (k : A -> prog E (pyres B)) :
  only c -> (forall a, only (k a)) -> only (bind_try E c k).
Proof. apply stable_bind_try; [apply extends_refl | apply extends_trans]. Qed.

Lemma only_ok {A} (c : prog E A) : only c -> only (ok E c).
Proof. apply stable_ok; [apply extends_refl | apply extends_trans]. Qed.

Lemma only_call {A} (e : event) (op : world E -> reply (world E) A) :
  P e -> only (call E e op).
Proof. intros He m. now apply log_call. Qed.

Lemma only_on_mail {A} (e : event)
      (op : conn E -> world E -> reply (world E) A) :
  P e -> only (on_mail E e op).
Proof. intros He m. now apply log_on_mail. Qed.

Lemma only_logout_quietly : P call_logout -> only (logout_quietly E).
Proof.
  intros Hl. unfold logout_quietly. apply only_bind; [apply only_read|].
  intros [c|]; [|apply only_ret].
  apply only_bind; [now apply only_call | intros _; apply only_ret].
Qed.

End Only.

(** One step of a proof that a method logs only events of a kind. *)
Ltac only_step :=
  match goal with
  | |- stable_under _ _ (ret _) => apply only_ret
  | |- stable_under _ _ (read _) => apply only_read
  | |- stable_under _ _ (update _) => apply only_update
  | |- stable_under _ _ (emit _) => apply only_emit
  | |- stable_under _ _ (call _ _ _) => apply only_call
  | |- stable_under _ _ (on_mail _ _ _) => apply only_on_mail
  | |- stable_under _ _ (logout_quietly _) => apply only_logout_quietly
  | |- stable_under _ _ (ok _ _) => apply only_ok
  | |- stable_under _ _ (bind _ _) => apply only_bind; [|intros ?]
  | |- stable_under _ _ (bind_try _ _ _) => apply only_bind_try; [|intros ?]
  | |- stable_under _ _ (if ?b then _ else _) => destruct b
  | |- stable_under _ _ (match ?x with _ => _ end) => destruct x
  end.

(** The side conditions, for a kind given by a boolean test that fails. *)
Ltac only_side :=
  first [ assumption
        | reflexivity
        | let e := fresh "e" in let He := fresh "He" in
          intros e He; destruct e; first [reflexivity | discriminate He] ].

Ltac only_steps := repeat only_step; try only_side.

(** ** The filtered log of a method *)

Section Emits.

Variable E : Env.
Variable w : event -> bool.
Hypothesis w_local : forall e, local_event e = true -> w e = false.

#[local] Abbreviation silent := (stable_under E (extends_with (fun e => w e = false))).

Lemma filter_rev_nothing (t : list event) :
  Forall (fun e => w e = false) t -> filter w (rev t) = [].
Proof. intros H. apply filter_nothing. now apply Forall_rev. Qed.

Lemma emits_silent (Q : list event -> Prop) {A} (c : prog E A) :
  Q [] -> silent c -> emits E w Q c.
Proof.
  intros HQ Hc m. destruct (Hc m) as (t & Ht & Ft).
  exists t. split; [exact Ht|]. now rewrite filter_rev_nothing.
Qed.

Lemma filter_signal_events (b : bool) : filter w (signal_events b) = [].
Proof.
  destruct b; [|reflexivity]. cbn [signal_events filter].
  now rewrite !w_local.
Qed.

Lemma emits_call (Q : list event -> Prop) {A} (e : event)
      (op : world E -> reply (world E) A) :
  w e = true -> Q [e] -> emits E w Q (call E e op).
Proof.
  intros He HQ m. rewrite call_log.
  exists (rev (signal_events (sigint (op (now m)))) ++ [e]).
  split; [now rewrite <- app_assoc|].
  rewrite rev_app_distr, rev_involutive. cbn [rev app filter].
  now rewrite He, filter_signal_events.
Qed.

Lemma emits_on_mail (Q : list event -> Prop) {A} (e : event)
      (op : conn E -> world E -> reply (world E) A) :
  w e = true -> Q [] -> Q [e] -> emits E w Q (on_mail E e op).
Proof.
  intros He H0 H1 m. destruct (mail (self m)) as [c|] eqn:Hmail.
  - rewrite (on_mail_connected E e op m c Hmail). now apply emits_call.
  - unfold on_mail. rewrite bind_eq. cbn [read fst snd]. rewrite Hmail.
    exists []. split; [reflexivity | exact H0].
Qed.

Lemma emits_bind (Q1 Q2 Q : list event -> Prop) {A B}
      (c : prog E A) (k : A -> prog E B) :
  emits E w Q1 c -> (forall a, emits E w Q2 (k a)) ->
  (forall l1 l2, Q1 l1 -> Q2 l2 -> Q (l1 ++ l2)) ->
  emits E w Q (bind c k).
Proof.
  intros Hc Hk HQ m. rewrite bind_eq.
  destruct (Hc m) as (t1 & Ht1 & H1).
  destruct (Hk (fst (c m)) (snd (c m))) as (t2 & Ht2 & H2).
  exists (t2 ++ t1). split; [now rewrite Ht2, Ht1, app_assoc|].
  rewrite rev_app_distr, filter_app. now apply HQ.
Qed.

Lemma emits_bind_try (Q1 Q2 Q : list event -> Prop) {A B}
      (c : prog E (pyres A)) (k : A -> prog E (pyres B)) :
  emits E w Q1 c -> (forall a, emits E w Q2 (k a)) ->
  (forall l1, Q1 l1 -> Q l1) ->
  (forall l1 l2, Q1 l1 -> Q2 l2 -> Q (l1 ++ l2)) ->
  emits E w Q (bind_try E c k).
Proof.
  intros Hc Hk HQ1 HQ m. rewrite bind_try_eq.
  destruct (Hc m) as (t1 & Ht1 & H1).
  destruct (fst (c m)) as [a|e].
  - destruct (Hk a (snd (c m))) as (t2 & Ht2 & H2).
    exists (t2 ++ t1). split; [now rewrite Ht2, Ht1, app_assoc|].
    rewrite rev_app_distr, filter_app. now apply HQ.
  - exists t1. split; [exact Ht1 | now apply HQ1].
Qed.

(** After a block that cannot raise, the rest of the [try] always runs. *)
Lemma emits_bind_try_ok (Q1 Q2 Q : list event -> Prop) {A B}
      (c : prog E A) (k : A -> prog E (pyres B)) :
  emits E w Q1 c -> (forall a, emits E w Q2 (k a)) ->
  (forall l1 l2, Q1 l1 -> Q2 l2 -> Q (l1 ++ l2)) ->
  emits E w Q (bind_try E (ok E c) k).
Proof.
  intros Hc Hk HQ m. rewrite bind_try_eq. unfold ok. rewrite bind_eq.
  cbn [ret fst snd].
  destruct (Hc m) as (t1 & Ht1 & H1).
  destruct (Hk (fst (c m)) (snd (c m))) as (t2 & Ht2 & H2).
  exists (t2 ++ t1). split; [now rewrite Ht2, Ht1, app_assoc|].
  rewrite rev_app_distr, filter_app. now apply HQ.
Qed.

Lemma emits_mono (Q Q' : list event -> Prop) {A} (c : prog E A) :
  (forall l, Q l -> Q' l) -> emits E w Q c -> emits E w Q' c.
Proof.
  intros HQ Hc m. destruct (Hc m) as (t & Ht & H).
  exists t. split; [exact Ht | now apply HQ].
Qed.

Lemma emits_trace (Q : list event -> Prop) {A} (c : prog E A) (m : machine E) :
  emits E w Q c -> Q (filter w (trace c m)).
Proof.
  intros Hc. destruct (Hc m) as (t & Ht & H).
  now rewrite (trace_of_extension E c m t Ht).
Qed.

End Emits.

(** *** The filtered log as a subsequence of a given list *)

Section Within.

Variable E : Env.
Variable w : event -> bool.
Hypothesis w_local : forall e, local_event e = true -> w e = false.

#[local] Abbreviation within L := (emits E w (fun l => Subseq l L)).

Lemma within_silent {A} (c : prog E A) :
  stable_under E (extends_with (fun e => w e = false)) c -> within [] c.
Proof. apply emits_silent; constructor. Qed.

Lemma within_call {A} (e : event) (op : world E -> reply (world E) A) :
  w e = true -> within [e] (call E e op).
Proof. intros He. apply emits_call; [exact w_local | exact He | apply subseq_refl]. Qed.

Lemma within_on_mail {A} (e : event)
      (op : conn E -> world E -> reply (world E) A) :
  w e = true -> within [e] (on_mail E e op).
Proof.
  intros He. apply emits_on_mail;
    [exact w_local | exact He | apply subseq_nil_l | apply subseq_refl].
Qed.

Lemma within_bind L1 L2 {A B} (c : prog E A) (k : A -> prog E B) :
  within L1 c -> (forall a, within L2 (k a)) -> within (L1 ++ L2) (bind c k).
Proof.
  intros Hc Hk.
  apply (emits_bind E w (fun l => Subseq l L1) (fun l => Subseq l L2));
    [exact Hc | exact Hk |].
  intros l1 l2. apply subseq_app.
Qed.

Lemma within_bind_try L1 L2 {A B}
      (c : prog E (pyres A)) (k : A -> prog E (pyres B)) :
  within L1 c -> (forall a, within L2 (k a)) ->
  within (L1 ++ L2) (bind_try E c k).
Proof.
  intros Hc Hk.
  apply (emits_bind_try E w (fun l => Subseq l L1) (fun l => Subseq l L2));
    [exact Hc | exact Hk | |].
  - intros l1 H1. rewrite <- (app_nil_r l1).
    apply subseq_app; [exact H1 | apply subseq_nil_l].
  - intros l1 l2. apply subseq_app.
Qed.

Lemma within_subseq L L' {A} (c : prog E A) :
  within L c -> Subseq L L' -> within L' c.
Proof.
  intros Hc HL. eapply emits_mono; [|exact Hc].
  intros l Hl. cbn beta in *. eapply subseq_trans; eassumption.
Qed.

End Within.

(** ** [connect_to_gmail]: what it asks and what it opens *)

Section Connecting.

Variable E : Env.

Lemma is_setup_local (e : event) : local_event e = true -> is_setup e = false.
Proof. destruct e; intros H; first [reflexivity | discriminate H]. Qed.

#[local] Abbreviation rounds L := (emits E is_setup (fun l => Subseq l L)).
#[local] Abbreviation no_setup :=
  (stable_under E (extends_with (fun e => is_setup e = false))).

(** The rest of the [try] block of an attempt, from the closing of the old
    session on. *)
Lemma connect_rest_round (rest : prog E (pyres unit)) :
  rest = (bind_try E (ok E (logout_quietly E)) (fun _ =>
          bind_try E (call E call_IMAP4_SSL (IMAP4_SSL E)) (fun c =>
          bind_try E (ok E (update (set_mail E (Some c)))) (fun _ =>
          bind_try E (ok E (read password)) (fun pw =>
          bind_try E (on_mail E call_login (fun c => login E c pw)) (fun _ =>
          bind_try E (on_mail E call_select (select E)) (fun _ =>
          ret (Ret tt)))))))) ->
  rounds setup_round rest.
Proof.
  intros ->.
  apply (within_bind_try E is_setup [] setup_round);
    [apply within_silent; only_steps | intros _].
  apply (within_bind_try E is_setup [call_IMAP4_SSL] [call_login; call_select]);
    [apply within_call; [exact is_setup_local | reflexivity] | intros c].
  apply (within_bind_try E is_setup [] [call_login; call_select]);
    [apply within_silent; only_steps | intros _].
  apply (within_bind_try E is_setup [] [call_login; call_select]);
    [apply within_silent; only_steps | intros pw].
  apply (within_bind_try E is_setup [call_login] [call_select]);
    [apply within_on_mail; [exact is_setup_local | reflexivity] | intros _].
  apply (within_bind_try E is_setup [call_select] []);
    [apply within_on_mail; [exact is_setup_local | reflexivity] | intros _].
  apply within_silent. only_steps.
Qed.

(** A retry makes one round at most, and does not ask for the password. *)
Lemma connect_try_round (attempt : nat) :
  attempt <> 0 -> rounds setup_round (connect_try E attempt).
Proof.
  intros Hn. destruct attempt as [|n]; [contradiction|].
  unfold connect_try. cbn [Nat.ltb Nat.leb Nat.eqb].
  apply (within_bind_try E is_setup [] setup_round);
    [apply within_silent; only_steps | intros _].
  apply (within_bind_try E is_setup [] setup_round);
    [apply within_silent; only_steps | intros _].
  now apply connect_rest_round.
Qed.

(** The first attempt asks for the password, then makes one round at most. *)
Lemma connect_try_first :
  emits E is_setup
        (fun l => exists rest, l = call_getpass :: rest /\ Subseq rest setup_round)
        (connect_try E 0).
Proof.
  unfold connect_try. cbn [Nat.ltb Nat.leb Nat.eqb].
  apply (emits_bind_try_ok E is_setup (fun l => l = [])
           (fun l => exists rest, l = call_getpass :: rest
                                  /\ Subseq rest setup_round)).
  - apply emits_silent; [reflexivity | only_steps].
  - intros _.
    apply (emits_bind_try E is_setup (fun l => l = [call_getpass])
             (fun l => Subseq l setup_round)).
    + apply (emits_bind_try E is_setup (fun l => l = [call_getpass])
               (fun l => l = [])).
      * apply emits_call; [exact is_setup_local | reflexivity | reflexivity].
      * intros p. apply emits_silent; [reflexivity | only_steps].
      * intros l Hl. exact Hl.
      * intros l1 l2 -> ->. reflexivity.
    + intros _. now apply connect_rest_round.
    + intros l ->. exists []. split; [reflexivity | apply subseq_nil_l].
    + intros l1 l2 -> H2. exists l2. split; [reflexivity | exact H2].
  - intros l1 l2 -> H. exact H.
Qed.

Lemma connect_attempts_rounds (attempts : list nat) :
  Forall (fun a => a <> 0) attempts ->
  rounds (concat (map (fun _ => setup_round) attempts))
         (connect_attempts E attempts).
Proof.
  induction 1 as [|attempt rest Ha _ IH]; cbn [connect_attempts map concat].
  - apply within_silent. only_steps.
  - apply (within_bind E is_setup setup_round).
    + now apply connect_try_round.
    + intros [u|e].
      * eapply within_subseq; [apply within_silent; only_steps|].
        apply subseq_nil_l.
      * apply (within_bind E is_setup []);
          [apply within_silent; only_steps | intros _].
        apply (within_bind E is_setup []);
          [apply within_silent; only_steps | intros c].
        apply (within_bind E is_setup []);
          [apply within_silent; only_steps | intros _].
        destruct (attempt =? max_connect_retries - 1).
        -- eapply within_subseq; [apply within_silent; only_steps|].
           apply subseq_nil_l.
        -- exact IH.
Qed.

Lemma connect_to_gmail_setup :
  emits E is_setup
        (fun l => exists rest,
             l = call_getpass :: rest
             /\ Subseq rest (setup_round ++ setup_round ++ setup_round))
        (connect_to_gmail E).
Proof.
  unfold connect_to_gmail. cbn [max_connect_retries seq connect_attempts].
  apply (emits_bind E is_setup
           (fun l => exists rest, l = call_getpass :: rest
                                  /\ Subseq rest setup_round)
           (fun l => Subseq l (setup_round ++ setup_round))).
  - apply connect_try_first.
  - intros [u|e].
    + eapply within_subseq; [apply within_silent; only_steps|].
      apply subseq_nil_l.
    + apply (within_bind E is_setup []);
        [apply within_silent; only_steps | intros _].
      apply (within_bind E is_setup []);
        [apply within_silent; only_steps | intros c].
      apply (within_bind E is_setup []);
        [apply within_silent; only_steps | intros _].
      cbn [Nat.eqb max_connect_retries Nat.sub].
      pose proof (connect_attempts_rounds [1; 2]) as H.
      cbn [map concat app] in H. rewrite app_nil_r in H. apply H.
      repeat constructor; discriminate.
  - intros l1 l2 (rest & -> & H1) H2. exists (rest ++ l2).
    split; [reflexivity | now apply subseq_app].
Qed.

End Connecting.

(** ** [connect_to_gmail]: the result and the session held *)

Section ConnectState.

Variable E : Env.

(** A [try] block that ends well has run its last part. *)
Lemma bind_try_post (Q : machine E -> Prop) {A B}
      (c : prog E (pyres A)) (k : A -> prog E (pyres B)) m b :
  (forall a m', fst (k a m') = Ret b -> Q (snd (k a m'))) ->
  fst (bind_try E c k m) = Ret b -> Q (snd (bind_try E c k m)).
Proof.
  intros Hk. rewrite bind_try_eq. destruct (fst (c m)) as [a|e].
  - apply Hk.
  - intros H. discriminate H.
Qed.

(** Once the new session is stored, the login and the selection keep it. *)
Lemma connect_tail_mail (c : conn E) m :
  mail (self (snd (bind_try E (ok E (update (set_mail E (Some c)))) (fun _ =>
                   bind_try E (ok E (read password)) (fun pw =>
                   bind_try E (on_mail E call_login (fun c => login E c pw))
                     (fun _ =>
                   bind_try E (on_mail E call_select (select E)) (fun _ =>
                   ret (Ret tt))))) m)))
  = Some c.
Proof.
  set (m1 := mk_machine (now m) (set_mail E (Some c) (self m)) (log m)).
  rewrite bind_try_eq.
  change (ok E (update (set_mail E (Some c))) m) with (Ret tt, m1).
  cbn [fst snd]. rewrite bind_try_eq.
  change (ok E (read password) m1) with (Ret (password (self m1)), m1).
  cbn [fst snd]. rewrite bind_try_eq.
  pose proof (on_mail_mail E call_login
                (fun c0 => login E c0 (password (self m1))) m1) as H1.
  set (r1 := on_mail E call_login _ m1) in *.
  destruct (fst r1); [|cbn [ret snd]; rewrite H1; reflexivity].
  rewrite bind_try_eq.
  pose proof (on_mail_mail E call_select (select E) (snd r1)) as H2.
  set (r2 := on_mail E call_select (select E) (snd r1)) in *.
  destruct (fst r2); cbn [ret snd]; rewrite H2, H1; reflexivity.
Qed.

Lemma connect_try_session (attempt : nat) m u :
  fst (connect_try E attempt m) = Ret u ->
  has_session (self (snd (connect_try E attempt m))) = true.
Proof.
  unfold connect_try.
  apply (bind_try_post (fun m' => has_session (self m') = true)).
  intros _ m1.
  apply (bind_try_post (fun m' => has_session (self m') = true)).
  intros _ m2.
  apply (bind_try_post (fun m' => has_session (self m') = true)).
  intros _ m3.
  apply (bind_try_post (fun m' => has_session (self m') = true)).
  intros c m4 _. unfold has_session. now rewrite connect_tail_mail.
Qed.

(** The [except] block of an attempt leaves no session. *)
Lemma connect_cleanup_mail (e : event) m :
  mail (self (snd ((emit e ;;
                    c <- read mail ;;
                    match c with
                    | Some _ => logout_quietly E ;; update (set_mail E None)
                    | None => ret tt
                    end) m)))
  = None.
Proof.
  rewrite !bind_eq. cbn [emit read fst snd self].
  destruct (mail (self m)) as [c|] eqn:Hmail.
  - rewrite bind_eq. reflexivity.
  - exact Hmail.
Qed.

Lemma connect_attempts_session (attempts : list nat) m :
  attempts <> [] \/ mail (self m) = None ->
  has_session (self (snd (connect_attempts E attempts m)))
  = fst (connect_attempts E attempts m).
Proof.
  revert m. induction attempts as [|attempt rest IH]; intros m Hm.
  - destruct Hm as [Hm|Hm]; [contradiction|].
    cbn [connect_attempts ret fst snd]. unfold has_session. now rewrite Hm.
  - cbn [connect_attempts]. rewrite bind_eq.
    pose proof (connect_try_session attempt m) as Hs.
    destruct (fst (connect_try E attempt m)) as [u|e].
    + cbn [ret fst snd]. now apply (Hs u).
    + clear Hs. set (m1 := snd (connect_try E attempt m)).
      pose proof (connect_cleanup_mail
                    (print (msg_connection_failed (attempt + 1))) m1) as Hc.
      rewrite !bind_eq in Hc. rewrite !bind_eq.
      set (m2 := snd (_ (snd (read mail (snd (emit _ m1)))))) in *.
      destruct (attempt =? max_connect_retries - 1).
      * rewrite bind_eq. cbn [emit ret fst snd self]. unfold has_session.
        now rewrite Hc.
      * apply IH. now right.
Qed.

Lemma connect_to_gmail_session m :
  has_session (self (snd (connect_to_gmail E m))) = fst (connect_to_gmail E m).
Proof.
  unfold connect_to_gmail. apply connect_attempts_session.
  left. discriminate.
Qed.

Lemma reconnect_if_needed_session m :
  has_session (self (snd (reconnect_if_needed E m)))
  = fst (reconnect_if_needed E m).
Proof.
  unfold reconnect_if_needed. rewrite bind_eq.
  pose proof (on_mail_mail E call_noop (noop E) m) as Hm.
  destruct (fst (on_mail E call_noop (noop E) m)) as [u|e] eqn:Hr.
  - rewrite bind_eq. cbn [emit ret fst snd self]. unfold has_session.
    rewrite Hm. destruct (mail (self m)) as [c|] eqn:Hmail; [reflexivity|].
    unfold on_mail in Hr. rewrite bind_eq in Hr. cbn [read fst snd] in Hr.
    rewrite Hmail in Hr. discriminate Hr.
  - rewrite !bind_eq. cbn [emit ret fst snd self].
    apply connect_to_gmail_session.
Qed.

End ConnectState.

(** ** [get_unread_emails_fast]: checks and searches *)

Section Searching.

Variable E : Env.

#[local] Abbreviation w := is_check_or_search.
#[local] Abbreviation no_search :=
  (stable_under E (extends_with (fun e => w e = false))).

Lemma check_or_search_local (e : event) : local_event e = true -> w e = false.
Proof. destruct e; intros H; first [reflexivity | discriminate H]. Qed.

Lemma check_or_search_session (e : event) :
  session_event e = true -> w e = false.
Proof. destruct e; intros H; first [reflexivity | discriminate H]. Qed.

Lemma connect_to_gmail_no_search : no_search (connect_to_gmail E).
Proof.
  intros m. apply log_connect_to_gmail;
    [exact check_or_search_local | exact check_or_search_session].
Qed.

(** [reconnect_if_needed] logs its verdict, once, and no search. *)
Lemma reconnect_verdict m :
  exists t, log (snd (reconnect_if_needed E m)) = t ++ log m
            /\ filter w (rev t) = [ensured_live (fst (reconnect_if_needed E m))].
Proof.
  unfold reconnect_if_needed. rewrite bind_eq.
  destruct (log_on_mail E (fun e => w e = false) check_or_search_local
              call_noop (noop E) m eq_refl) as (t0 & Ht0 & F0).
  set (r := on_mail E call_noop (noop E) m) in *.
  destruct (fst r) as [u|e].
  - rewrite bind_eq. cbn [emit ret fst snd log].
    exists (ensured_live true :: t0). split; [now rewrite Ht0|].
    cbn [rev]. rewrite filter_app, (filter_rev_nothing w t0 F0). reflexivity.
  - rewrite !bind_eq. cbn [emit ret fst snd log].
    set (m1 := mk_machine (now (snd r)) (self (snd r))
                          (print msg_connection_lost :: log (snd r))).
    destruct (connect_to_gmail_no_search m1) as (t1 & Ht1 & F1).
    exists (ensured_live (fst (connect_to_gmail E m1))
              :: t1 ++ print msg_connection_lost :: t0).
    split.
    + rewrite Ht1. cbn [m1 log]. rewrite Ht0, <- app_comm_cons, <- app_assoc.
      reflexivity.
    + cbn [rev]. rewrite rev_app_distr. cbn [rev].
      rewrite !filter_app, (filter_rev_nothing w t0 F0),
        (filter_rev_nothing w t1 F1).
      reflexivity.
Qed.

Ltac search_tail Hrest n :=
  repeat match goal with
    | |- emits _ _ _ (search_attempts _ _) => exact Hrest
    | |- emits _ _ _ (bind _ _) =>
        apply (emits_bind E w (fun l => l = []) (search_blocks n));
        [ apply emits_silent;
          [ reflexivity
          | first [apply connect_to_gmail_no_search | only_steps] ]
        | intros ?
        | let H := fresh in intros ? ? -> H; exact H ]
    | |- emits _ _ _ (ret _) =>
        apply emits_silent;
        [ exists []; split; [reflexivity | split; [constructor | apply Nat.le_0_l]]
        | only_steps ]
    | |- emits _ _ _ (if ?b then _ else _) => destruct b
    end.

(** One attempt, before the attempts [rest]. *)
Lemma search_attempt_blocks (attempt : nat) (rest : list nat) (n : nat) :
  emits E w (search_blocks n) (search_attempts E rest) ->
  emits E w (fun l => exists first blocks,
                 l = first ++ concat blocks /\ attempt_block first
                 /\ Forall attempt_block blocks /\ length blocks <= n)
        (search_attempts E (attempt :: rest)).
Proof.
  intros Hrest m. cbn [search_attempts]. rewrite bind_eq.
  destruct (reconnect_verdict m) as (t1 & Ht1 & Hf1).
  set (m1 := snd (reconnect_if_needed E m)) in *.
  destruct (fst (reconnect_if_needed E m)); cbn [negb].
  - assert (K : emits E w
                  (fun l => exists s blocks,
                       l = s ++ concat blocks /\ (s = [] \/ s = [call_search])
                       /\ Forall attempt_block blocks /\ length blocks <= n)
                  (r <- bind_try E (on_mail E call_select (select E))
                          (fun _ => on_mail E call_search (search E)) ;;
                   match r with
                   | Ret (status, email_ids) =>
                       if negb (String.eqb status "OK")
                       then emit (print (msg_search_status status)) ;;
                            if attempt <? max_search_retries - 1
                            then emit (sleep 2) ;; search_attempts E rest
                            else emit (print msg_search_failed) ;; ret []
                       else emit (print (msg_found (length email_ids))) ;;
                            ret email_ids
                   | Raise SocketError =>
                       update (set_mail E None) ;;
                       emit (sleep 3) ;;
                       _ <- connect_to_gmail E ;;
                       search_attempts E rest
                   | Raise OtherError =>
                       if attempt <? max_search_retries - 1
                       then emit (sleep 3) ;; search_attempts E rest
                       else emit (print msg_search_failed) ;; ret []
                   end)).
    { apply (emits_bind E w (fun l => l = [] \/ l = [call_search])
               (search_blocks n)).
      - apply (emits_bind_try E w (fun l => l = [])
                 (fun l => l = [] \/ l = [call_search])).
        + apply emits_silent; [reflexivity | only_steps].
        + intros _. apply emits_on_mail;
            [exact check_or_search_local | reflexivity | now left | now right].
        + intros l ->. now left.
        + intros l1 l2 -> H. exact H.
      - intros [[status email_ids]|[|]]; search_tail Hrest n.
      - intros l1 l2 H1 (blocks & -> & HF & Hlen). exists l1, blocks.
        repeat split; assumption. }
    destruct (K m1) as (t2 & Ht2 & s & blocks & Hl & Hs & HF & Hlen).
    exists (t2 ++ t1). split; [now rewrite Ht2, Ht1, app_assoc|].
    rewrite rev_app_distr, filter_app, Hf1, Hl.
    exists ([ensured_live true] ++ s), blocks.
    split; [now rewrite <- app_assoc|]. split; [|now split].
    destruct Hs as [-> | ->]; [right; left | right; right]; reflexivity.
  - assert (K : emits E w (search_blocks n)
                  (emit (print (msg_no_connection (attempt + 1))) ;;
                   search_attempts E rest))
      by search_tail Hrest n.
    destruct (K m1) as (t2 & Ht2 & blocks & Hl & HF & Hlen).
    exists (t2 ++ t1). split; [now rewrite Ht2, Ht1, app_assoc|].
    rewrite rev_app_distr, filter_app, Hf1, Hl.
    exists [ensured_live false], blocks.
    split; [reflexivity|]. split; [now left | now split].
Qed.

Lemma search_attempts_blocks (attempts : list nat) :
  emits E w (search_blocks (length attempts)) (search_attempts E attempts).
Proof.
  induction attempts as [|attempt rest IH].
  - apply emits_silent; [|cbn [search_attempts]; apply only_ret].
    exists []. split; [reflexivity | split; [constructor | apply Nat.le_0_l]].
  - eapply emits_mono; [|apply (search_attempt_blocks attempt rest _ IH)].
    intros l (first & blocks & -> & Hf & HF & Hlen).
    exists (first :: blocks). split; [reflexivity|].
    split; [now constructor | cbn [length]; lia].
Qed.

Lemma searches_in_blocks (blocks : list (list event)) :
  Forall attempt_block blocks ->
  length (filter is_search (concat blocks)) <= length blocks.
Proof.
  induction 1 as [|b rest Hb _ IH]; [apply Nat.le_refl|].
  cbn [concat length]. rewrite filter_app, length_app.
  destruct Hb as [-> | [-> | ->]]; cbn [filter is_search length]; lia.
Qed.

(** The session after a search that found something. *)
Lemma search_attempts_session (attempts : list nat) m :
  fst (search_attempts E attempts m) <> [] ->
  has_session (self (snd (search_attempts E attempts m))) = true.
Proof.
  revert m. induction attempts as [|attempt rest IH]; intros m.
  - intros H. now contradiction H.
  - cbn [search_attempts]. rewrite bind_eq.
    set (m1 := snd (reconnect_if_needed E m)).
    destruct (fst (reconnect_if_needed E m)); cbn [negb].
    2:{ rewrite bind_eq. apply IH. }
    rewrite bind_eq.
    set (try := bind_try E (on_mail E call_select (select E))
                         (fun _ => on_mail E call_search (search E))).
    assert (Htry : forall a, fst (try m1) = Ret a ->
                             has_session (self (snd (try m1))) = true).
    { intros a. unfold try. rewrite bind_try_eq.
      destruct (fst (on_mail E call_select (select E) m1)) as [u|e];
        [|intros H; discriminate H].
      set (m2 := snd (on_mail E call_select (select E) m1)).
      intros Hr. unfold has_session. rewrite on_mail_mail.
      destruct (mail (self m2)) as [c|] eqn:Hmail; [reflexivity|].
      unfold on_mail in Hr. rewrite bind_eq in Hr. cbn [read fst snd] in Hr.
      rewrite Hmail in Hr. discriminate Hr. }
    destruct (fst (try m1)) as [[status email_ids]|[|]].
    + specialize (Htry _ eq_refl).
      destruct (negb (String.eqb status "OK")).
      * rewrite bind_eq. destruct (attempt <? max_search_retries - 1).
        -- rewrite bind_eq. apply IH.
        -- rewrite bind_eq. cbn [ret fst]. intros H. now contradiction H.
      * rewrite bind_eq. cbn [emit ret fst snd self]. intros _. exact Htry.
    + rewrite !bind_eq. apply IH.
    + destruct (attempt <? max_search_retries - 1).
      * rewrite bind_eq. apply IH.
      * rewrite bind_eq. cbn [ret fst]. intros H. now contradiction H.
Qed.

End Searching.

Lemma filter_narrower {A} (f g : A -> bool) (l : list A) :
  (forall x, f x = true -> g x = true) ->
  filter f (filter g l) = filter f l.
Proof.
  intros H. induction l as [|x l IH]; [reflexivity|].
  cbn [filter]. destruct (g x) eqn:Hg.
  - cbn [filter]. now rewrite IH.
  - rewrite IH. destruct (f x) eqn:Hf; [|reflexivity].
    apply H in Hf. congruence.
Qed.

(** A method of the frame rule logs only events of a kind: the side
    conditions of the rule for the relation [extends_with P]. *)
Ltac by_frame lemma P :=
  apply lemma with (okE := P) (okU := fun _ => True);
  first [ exact (extends_refl _ P) | exact (extends_trans _ P)
        | exact (extends_emit _ P) | exact (extends_update _ P)
        | exact (extends_world _ P) | exact I | intros; exact I
        | only_side
        | intros; reflexivity ].

(** ** The fetches of a scan *)

Section Fetching.

Variable E : Env.

#[local] Abbreviation fetches L := (emits E is_fetch (fun l => Subseq l L)).
#[local] Abbreviation not_fetch := (fun e : event => is_fetch e = false).
#[local] Abbreviation no_fetch := (stable_under E (extends_with not_fetch)).

Lemma is_fetch_local (e : event) : local_event e = true -> is_fetch e = false.
Proof. destruct e; intros H; first [reflexivity | discriminate H]. Qed.

Lemma reconnect_if_needed_no_fetch : no_fetch (reconnect_if_needed E).
Proof. by_frame stable_reconnect_if_needed (fun e : event => is_fetch e = false). Qed.

Lemma get_unread_emails_fast_no_fetch : no_fetch (get_unread_emails_fast E).
Proof. by_frame stable_get_unread_emails_fast (fun e : event => is_fetch e = false). Qed.

Lemma delete_emails_fast_no_fetch : no_fetch (delete_emails_fast E).
Proof. by_frame stable_delete_emails_fast (fun e : event => is_fetch e = false). Qed.

Lemma show_analysis_results_no_fetch total_emails dry_run :
  no_fetch (show_analysis_results E total_emails dry_run).
Proof.
  unfold show_analysis_results.
  repeat first [ apply delete_emails_fast_no_fetch | only_step ]; only_side.
Qed.

Lemma fetch_and_decide_fetches email_id attempt :
  fetches [call_fetch email_id] (fetch_and_decide E email_id attempt).
Proof.
  unfold fetch_and_decide.
  apply (within_bind_try E is_fetch [call_fetch email_id] []).
  - apply within_on_mail; [exact is_fetch_local | reflexivity].
  - intros [status msg_data]. apply within_silent. cbv zeta. only_steps.
Qed.

Lemma attempt_body_fetches email_id attempt :
  fetches [call_fetch email_id] (attempt_body E email_id attempt).
Proof.
  unfold attempt_body. destruct (0 <? attempt).
  - apply (within_bind E is_fetch [] [call_fetch email_id]).
    + apply within_silent, reconnect_if_needed_no_fetch.
    + intros live. destruct (negb live).
      * eapply within_subseq; [apply within_silent, only_ret|].
        apply subseq_nil_l.
      * apply fetch_and_decide_fetches.
  - apply fetch_and_decide_fetches.
Qed.

Lemma attempt_handler_no_fetch email_id attempt e :
  no_fetch (attempt_handler E email_id attempt e).
Proof. unfold attempt_handler. only_steps. Qed.

Lemma fetch_attempts_fetches email_id (attempts : list nat) :
  fetches (concat (map (fun _ => [call_fetch email_id]) attempts))
          (fetch_attempts E email_id attempts).
Proof.
  induction attempts as [|attempt rest IH]; cbn [fetch_attempts map concat].
  - apply within_silent, only_ret.
  - apply (within_bind E is_fetch [call_fetch email_id]).
    + apply attempt_body_fetches.
    + intros [[r|]|e].
      * eapply within_subseq; [apply within_silent, only_ret|].
        apply subseq_nil_l.
      * exact IH.
      * apply (within_bind E is_fetch []);
          [apply within_silent, attempt_handler_no_fetch | intros _; exact IH].
Qed.

Lemma process_email_batch_fetches (email_batch : list msgid) :
  fetches (fetch_budget email_batch) (process_email_batch E email_batch).
Proof.
  induction email_batch as [|email_id rest IH];
    cbn [process_email_batch fetch_budget flat_map].
  - apply within_silent, only_ret.
  - apply (within_bind E is_fetch []); [apply within_silent, only_read|].
    intros stop. destruct stop.
    + eapply within_subseq; [apply within_silent, only_ret|].
      apply subseq_nil_l.
    + apply (within_bind E is_fetch [call_fetch email_id; call_fetch email_id]).
      * apply (fetch_attempts_fetches email_id [0; 1]).
      * intros r.
        apply (within_subseq E is_fetch (fetch_budget rest ++ []));
          [|rewrite app_nil_r; apply subseq_refl].
        apply (within_bind E is_fetch (fetch_budget rest) []);
          [exact IH | intros rs; apply within_silent, only_ret].
Qed.

Lemma fetch_budget_app (a b : list msgid) :
  fetch_budget (a ++ b) = fetch_budget a ++ fetch_budget b.
Proof. unfold fetch_budget. apply flat_map_app. Qed.

Lemma scan_batches_fetches (batches : list (list msgid)) :
  fetches (fetch_budget (concat batches)) (scan_batches E batches).
Proof.
  induction batches as [|batch rest IH]; cbn [scan_batches concat].
  - apply within_silent, only_ret.
  - rewrite fetch_budget_app.
    apply (within_bind E is_fetch []); [apply within_silent, only_read|].
    intros stop. destruct stop.
    + eapply within_subseq; [apply within_silent, only_ret|].
      apply subseq_nil_l.
    + apply (within_bind E is_fetch (fetch_budget batch)).
      * apply process_email_batch_fetches.
      * intros rs.
        apply (within_bind E is_fetch []);
          [apply within_silent, only_update | intros _; exact IH].
Qed.

End Fetching.

(** ** [close_connection] *)

Section Closing.

Variable E : Env.

Lemma is_closing_local (e : event) : local_event e = true -> is_closing e = false.
Proof. destruct e; intros H; first [reflexivity | discriminate H]. Qed.

Lemma close_connection_connected m c :
  mail (self m) = Some c ->
  let closed := call E call_close (close E c) m in
  close_connection E m
  = (tt, match fst closed with
         | Ret _ => snd (call E call_logout (logout E c) (snd closed))
         | Raise _ => snd closed
         end).
Proof.
  intros Hmail closed. unfold close_connection. rewrite bind_eq.
  cbn [read fst snd]. rewrite Hmail. rewrite bind_eq, bind_try_eq.
  rewrite (on_mail_connected E call_close (close E) m c Hmail). fold closed.
  destruct (fst closed) as [u|e]; [|reflexivity].
  rewrite (on_mail_connected E call_logout (logout E) (snd closed) c)
    by (unfold closed; rewrite call_mail; exact Hmail).
  reflexivity.
Qed.

End Closing.

(** ** The run as a whole *)

Section Running.

Variable E : Env.

(** When no connection is made, [main] stops where [connect_to_gmail] did. *)
Lemma main_without_connection (dry_run_mode : bool) m :
  fst (connect_to_gmail E m) = false ->
  main E dry_run_mode m = (tt, snd (connect_to_gmail E m)).
Proof.
  intros Hfail. pose proof (connect_to_gmail_session E m) as Hs.
  rewrite Hfail in Hs. unfold main, main_body. rewrite !bind_eq, Hfail.
  cbn [negb ret fst snd]. unfold close_connection. rewrite bind_eq.
  cbn [read fst snd]. unfold has_session in Hs.
  destruct (mail (self (snd (connect_to_gmail E m)))); [discriminate Hs|].
  reflexivity.
Qed.

End Running.


(** ** The password prompt of a reconnection *)

Section Reprompt.

Variable E : Env.

Lemma rounds_have_no_getpass (rest : list event) :
  Subseq rest (setup_round ++ setup_round ++ setup_round) ->
  filter is_getpass rest = [].
Proof.
  intros Hsub. apply filter_nothing. rewrite Forall_forall. intros e He.
  apply (subseq_in _ _ e Hsub) in He.
  cbn in He. repeat (destruct He as [<-|He]; [reflexivity|]). contradiction.
Qed.

Lemma is_getpass_setup (e : event) : is_getpass e = true -> is_setup e = true.
Proof. destruct e; intros H; first [reflexivity | discriminate H]. Qed.

Lemma connect_to_gmail_getpass m :
  exists t, log (snd (connect_to_gmail E m)) = t ++ log m
            /\ filter is_getpass (rev t) = [call_getpass].
Proof.
  destruct (connect_to_gmail_setup E m) as (t & Ht & rest & Hl & Hsub).
  exists t. split; [exact Ht|].
  rewrite <- (filter_narrower is_getpass is_setup _ is_getpass_setup), Hl.
  cbn [filter is_getpass]. now rewrite rounds_have_no_getpass.
Qed.

End Reprompt.

(* ================================================================= *)
(** * The properties of the specification *)

Section ClassifierClaims.

Import PyStr PyStrFacts Classifier ClassifierFacts.


End ClassifierClaims.

(** C1.  In a run of [main], every event of the deletion operation (entering
    [delete_emails_fast], a flag store, the expunge) comes after an answer to
    the confirmation prompt that is "yes" once lower-cased, and only when the
    run is not a dry run; a dry run has no such event, whatever the scan
    found. *)
Theorem deletion_only_after_confirmation
    (E : Env) (w : world E) (dry_run_mode : bool)
    (before after : list event) (e : event) :
  rev (log (snd (main E dry_run_mode (start E w)))) = before ++ e :: after ->
  deletion_event e = true ->
  dry_run_mode = false
  /\ exists confirm,
       In (answered confirm) before /\ PyStr.lower confirm = "yes".
Proof.
  intros Htrace Hdel.
  destruct (main_gated E dry_run_mode (start E w)) as (t & Ht & G & D).
  cbn [start log] in Ht. rewrite app_nil_r in Ht. rewrite Ht in Htrace.
  assert (Hlog : t = rev after ++ e :: rev before).
  { rewrite <- (rev_involutive t), Htrace, rev_app_distr. cbn [rev].
    now rewrite <- app_assoc. }
  split.
  - destruct dry_run_mode; [|reflexivity].
    specialize (D eq_refl). rewrite Hlog in D.
    apply Forall_app in D. destruct D as [_ D]. inversion D as [|? ? He _].
    unfold not_deletion in He. congruence.
  - destruct (confirmed_split t (rev after) (rev before) e G Hlog Hdel)
      as (confirm & Hin & Hyes).
    exists confirm. split; [now apply in_rev|].
    unfold affirmative in Hyes. now apply String.eqb_eq in Hyes.
Qed.

Lemma deletion_only_after_confirmation_witness :
  false = false
  /\ exists confirm,
       In (answered confirm)
          [call_getpass; call_IMAP4_SSL; call_login; call_select; call_noop;
           ensured_live true; call_select; call_search; print (msg_found 1);
           call_fetch "1";
           classify "newsletter@updates.com" "Weekly Digest"
                    "News <newsletter@updates.com>";
           print (msg_summary false 1 1 1 0); call_input; answered "Yes"]
       /\ PyStr.lower confirm = "yes".
Proof.
  apply (deletion_only_after_confirmation
           (Script.env (Script.calm ["1"] "Yes")) (0 : nat) false _
           [call_store "1"; call_expunge; print msg_deletion_complete;
            print (msg_successfully_deleted 1); print (msg_failed_deletions 0);
            call_close; call_logout]
           delete_invoked).
  - vm_compute. reflexivity.
  - reflexivity.
Defined.


Section SenderClaims.

Import PyStr PyStrFacts Classifier ClassifierFacts.

(** C10.  The sender handed to the classifier is the text inside the first
    (leftmost) angle-bracket pair of the decoded From value -- '<', one or
    more characters other than '>', '>' -- when there is such a pair, and the
    whole From value otherwise; every call of the classifier made by the
    batch step has that sender as first argument.  So for a From value with
    no angle bracket and no '@' the domain rules are tried on the empty
    string and the sender-name rules on the whole, lower-cased From value. *)
Theorem sender_is_bracketed_address
    (E : Env) (email_batch : list msgid) (m : machine E) (sender_full : string) :
  ((exists pre inner post,
       BracketPair sender_full pre inner post
       /\ (forall pre' inner' post',
              BracketPair sender_full pre' inner' post' ->
              String.length pre <= String.length pre')
       /\ extract_sender sender_full = inner)
   \/ ((forall pre inner post, ~ BracketPair sender_full pre inner post)
       /\ extract_sender sender_full = sender_full))
  /\ Forall sender_from_full (trace (process_email_batch E email_batch) m)
  /\ (free_of "<" sender_full = true ->
      free_of ">" sender_full = true ->
      free_of "@" sender_full = true ->
      extract_sender sender_full = sender_full
      /\ sender_domain_of (lower (extract_sender sender_full)) = ""
      /\ sender_name_of (lower (extract_sender sender_full))
         = lower sender_full).
Proof.
  split; [|split].
  - unfold extract_sender.
    destruct (re_search sender_full) as [g|] eqn:Hs.
    + left. destruct (re_search_found _ _ Hs) as (pre & post & Hp & Hleft).
      exists pre, g, post. auto.
    + right. split; [now apply re_search_none | reflexivity].
  - assert (H : extends_with sender_from_full m
                              (snd (process_email_batch E email_batch m))).
    { revert m.
      apply stable_process_email_batch
        with (okE := sender_from_full) (okU := fun _ => True);
        first [ exact (extends_refl E _) | exact (extends_trans E _)
              | exact (extends_emit E _) | exact (extends_update E _)
              | exact (extends_world E _)
              | intros e He; destruct e; try discriminate He; exact I
              | intros; exact I
              | intros; reflexivity ]. }
    destruct H as (t & Ht & Ft).
    rewrite (trace_of_extension E _ _ t Ht). now apply Forall_rev.
  - intros Hlt _ Hat.
    assert (Hx : extract_sender sender_full = sender_full).
    { unfold extract_sender. now rewrite (re_search_needs_lt _ Hlt). }
    rewrite Hx. split; [reflexivity|].
    assert (Hc : contains "@" (lower sender_full) = false).
    { destruct (contains "@" (lower sender_full)) eqn:Hc; [|reflexivity].
      apply contains_at_iff in Hc. rewrite free_of_at_lower in Hc. congruence. }
    unfold sender_domain_of, sender_name_of. rewrite Hc. split; reflexivity.
Qed.

Lemma sender_is_bracketed_address_witness :
  extract_sender "Mailer Daemon" = "Mailer Daemon"
  /\ sender_domain_of (lower (extract_sender "Mailer Daemon")) = ""
  /\ sender_name_of (lower (extract_sender "Mailer Daemon")) = "mailer daemon".
Proof.
  apply (proj2 (proj2 (sender_is_bracketed_address
                         (Script.env (Script.calm [] "no")) []
                         (Script.connected (Script.calm [] "no"))
                         "Mailer Daemon"))); reflexivity.
Defined.

End SenderClaims.

Section DateClaims.

Import PyDate.
Local Open Scope Z_scope.

(** C8, as stated, fails: the value returned for a parsable header is the
    reading of the local clock, not the instant.  In a zone five hours west
    of UTC the header "Sun, 01 Jun 2025 02:00:00 +0000" parses to the reading
    2025-05-31 21:00:00, which is before the cutoff, and the message is
    classified; in UTC the same header is at the cutoff or later and the
    message is kept. *)
Lemma date_parser_not_an_instant :
  let s := "Sun, 01 Jun 2025 02:00:00 +0000"%string in
  let h := mk_headers "a@b.c" "sale" s in
  instant_of Script.parse_example_date s = Some 1748743200
  /\ parse_email_date Script.parse_example_date (fun _ => -18000) s
     = Some 1748725200
  /\ parse_email_date Script.parse_example_date (fun _ => -18000) s
     <> instant_of Script.parse_example_date s
  /\ fst (process_email_batch (Script.env (Script.zoned (-18000) h)) ["1"%string]
                              (Script.connected (Script.zoned (-18000) h)))
     = [delete_record "1" 1748725200 "a@b.c" "sale" "Contains pattern: sale"]
  /\ fst (process_email_batch (Script.env (Script.zoned 0 h)) ["1"%string]
                              (Script.connected (Script.zoned 0 h)))
     = [keep_record "1" "too_recent_or_no_date"].
Proof.
  cbn zeta. repeat split; try reflexivity.
  vm_compute. discriminate.
Qed.

(** C8, amended.  The date parser never raises; it gives Unknown ([None])
    for the empty string, for a string the parser of [email.utils] rejects
    or fails on, and for a date outside the supported years; for any other
    parsable string, with or without a zone offset of its own, it gives the
    reading of the local clock at the instant the string denotes, that is
    the instant plus the local UTC offset at it.  The comparison with the
    cutoff is one of local readings. *)
Theorem date_parser_gives_local_reading
    (parsedate_tz : string -> pyres (option time_tuple)) (utcoffset : Z -> Z)
    (date_str : string) (parsed : time_tuple) (instant : Z) :
  date_str <> ""%string ->
  parsedate_tz date_str = Ret (Some parsed) ->
  mktime_tz parsed = Ret instant ->
  naive_min <= instant + utcoffset instant <= naive_max ->
  parse_email_date parsedate_tz utcoffset date_str
  = Some (instant + utcoffset instant)
  /\ instant_of parsedate_tz date_str = Some instant
  /\ parse_email_date parsedate_tz utcoffset "" = None
  /\ (forall s, parsedate_tz s = Ret None ->
                parse_email_date parsedate_tz utcoffset s = None)
  /\ (forall s e, parsedate_tz s = Raise e ->
                  parse_email_date parsedate_tz utcoffset s = None)
  /\ (forall s t e, parsedate_tz s = Ret (Some t) -> mktime_tz t = Raise e ->
                    parse_email_date parsedate_tz utcoffset s = None)
  /\ (forall s t i, parsedate_tz s = Ret (Some t) -> mktime_tz t = Ret i ->
                    ~ naive_min <= i + utcoffset i <= naive_max ->
                    parse_email_date parsedate_tz utcoffset s = None).
Proof.
  intros Hne Hp Hm Hr.
  apply String.eqb_neq in Hne.
  assert (Hin : (naive_min <=? instant + utcoffset instant)
                && (instant + utcoffset instant <=? naive_max) = true).
  { apply andb_true_iff. split; apply Z.leb_le; lia. }
  repeat split.
  - unfold parse_email_date, fromtimestamp. now rewrite Hne, Hp, Hm, Hin.
  - unfold instant_of. now rewrite Hne, Hp, Hm.
  - intros s Hs. unfold parse_email_date. rewrite Hs.
    now destruct (String.eqb s "").
  - intros s e Hs. unfold parse_email_date. rewrite Hs.
    now destruct (String.eqb s "").
  - intros s t e Hs Ht. unfold parse_email_date. rewrite Hs, Ht.
    now destruct (String.eqb s "").
  - intros s t i Hs Ht Hout. unfold parse_email_date, fromtimestamp.
    rewrite Hs, Ht. destruct (String.eqb s ""); [reflexivity|].
    destruct ((naive_min <=? i + utcoffset i) && (i + utcoffset i <=? naive_max))
      eqn:Hb; [|reflexivity].
    apply andb_true_iff in Hb. destruct Hb as [H1 H2].
    apply Z.leb_le in H1, H2. lia.
Qed.

Lemma date_parser_gives_local_reading_witness :
  parse_email_date Script.parse_example_date (fun _ => 7200)
                   "Sun, 01 Jun 2025 04:00:00 +0200"
  = Some (1748743200 + 7200)
  /\ instant_of Script.parse_example_date "Sun, 01 Jun 2025 04:00:00 +0200"
     = Some 1748743200.
Proof.
  pose proof (date_parser_gives_local_reading
                Script.parse_example_date (fun _ => 7200)
                "Sun, 01 Jun 2025 04:00:00 +0200"
                (mk_time_tuple 2025 6 1 4 0 0 7200) 1748743200) as H.
  destruct H as (H1 & H2 & _).
  - discriminate.
  - reflexivity.
  - reflexivity.
  - unfold naive_min, naive_max. lia.
  - split; [exact H1 | exact H2].
Defined.

End DateClaims.

Section ScanClaims.

(** C4, as stated, fails in its second half: a message whose header fetch
    fails at both attempts leaves no record, so after a full scan that nobody
    cancelled the processed count is below the number of unread ids.  Here
    the only unread message is answered "NO" twice. *)
Lemma skipped_message_not_counted :
  let s := Script.fetching ["1"] (fun _ _ => Ret ("NO", None)) in
  let m := snd (analyze_emails_fast (Script.env s) true (Script.connected s)) in
  stop_requested (self m) = false
  /\ length (Script.unread s) = 1
  /\ processed_count (self m) = 0
  /\ processed_count (self m) <> length (Script.unread s)
  /\ deleted_count (self m) + kept_count (self m) = 0
  /\ In (print (msg_summary false 0 1 0 0)) (log m).
Proof. vm_compute. repeat split; auto; discriminate. Qed.

(** C4, amended.  After every fully consumed batch the list of candidates
    has as many entries as the deleted count says, deleted count plus kept
    count equals the processed count, and the processed count is at most the
    number of unread ids.  After a full scan that was not cancelled and in
    which every header fetch succeeded, the processed count equals the number
    of unread ids. *)
Theorem scan_accounting (E : Env) (email_ids : list msgid) (k : nat)
        (m0 : machine E) :
  let batches := fetch_email_headers_batch email_ids scan_batch_size in
  let m := snd (scan_batches E (firstn k batches)
                             (snd (update (reset_counters E) m0))) in
  (length (emails_to_delete (self m)) = deleted_count (self m)
   /\ deleted_count (self m) + kept_count (self m) = processed_count (self m)
   /\ processed_count (self m) <= length email_ids)
  /\ (length batches <= k ->
      stop_requested (self m) = false ->
      fetch_never_fails E ->
      mail (self m0) <> None ->
      deleted_count (self m) + kept_count (self m) = processed_count (self m)
      /\ processed_count (self m) = length email_ids).
Proof.
  cbn zeta. unfold fetch_email_headers_batch.
  set (batches := slices email_ids scan_batch_size).
  set (m1 := snd (update (reset_counters E) m0)).
  assert (Hacc : accounted E (self m1)) by apply reset_accounted.
  destruct (scan_batches_accounted E (firstn k batches) m1 Hacc)
    as [[H1 H2] H3].
  assert (Hcat : concat batches = email_ids)
    by (apply concat_slices; unfold scan_batch_size; lia).
  split.
  - repeat split; [exact H1 | exact H2 |].
    eapply Nat.le_trans; [exact H3|]. cbn [m1 update snd self reset_counters
                                              processed_count].
    cbn [Nat.add]. rewrite <- Hcat. apply concat_firstn_length.
  - intros Hk Hstop Hok Hmail. split; [exact H2|].
    destruct (mail (self m0)) as [c|] eqn:Hc; [|congruence].
    rewrite (scan_batches_never_skips E (firstn k batches) m1 c Hok);
      [| exact Hc | exact Hacc | exact Hstop].
    rewrite firstn_all2 by exact Hk. rewrite Hcat. reflexivity.
Qed.

Lemma scan_accounting_witness :
  let s := Script.calm ["1"; "2"; "3"] "no" in
  let m := snd (scan_batches (Script.env s)
                  (firstn 1 (fetch_email_headers_batch ["1"; "2"; "3"]
                                                       scan_batch_size))
                  (snd (update (reset_counters (Script.env s))
                               (Script.connected s)))) in
  deleted_count (self m) + kept_count (self m) = processed_count (self m)
  /\ processed_count (self m) = 3.
Proof.
  apply (proj2 (scan_accounting (Script.env (Script.calm ["1"; "2"; "3"] "no"))
                                ["1"; "2"; "3"] 1
                                (Script.connected
                                   (Script.calm ["1"; "2"; "3"] "no")))).
  - vm_compute. lia.
  - vm_compute. reflexivity.
  - intros c i w. exists Script.newsletter. reflexivity.
  - discriminate.
Defined.

(** C5, as stated, fails: the flag can be set while the last message is
    being handled; that message is still recorded and the processed count
    equals the number of unread ids.  Here SIGINT arrives during the fetch of
    the only unread message (the fourth call of the run). *)
Lemma cancel_during_last_message :
  let s := Script.interrupted ["1"] (fun n => n =? 3) in
  let m := snd (analyze_emails_fast (Script.env s) true (Script.connected s)) in
  stop_requested (self m) = true
  /\ length (Script.unread s) = 1
  /\ processed_count (self m) = 1
  /\ ~ processed_count (self m) < length (Script.unread s)
  /\ rev (log m)
     = [call_noop; ensured_live true; call_select; call_search;
        print (msg_found 1); call_fetch "1"; handled_SIGINT;
        print msg_stop_requested;
        classify "newsletter@updates.com" "Weekly Digest"
                 "News <newsletter@updates.com>";
        print (msg_summary true 1 1 1 0); print msg_dry_run].
Proof.
  vm_compute. repeat split; auto.
  intros H. apply Nat.lt_irrefl in H. exact H.
Qed.

(** C5, amended.  If the flag is set by the time the messages [b1] of a
    batch [b1 ++ b2] have been handled, the scan ends in the machine reached
    there with the records of [b1] counted: nothing of [b2] or of a later
    batch is fetched, logged or recorded, and what was recorded stays.  The
    processed count is then at most the number of messages reached, so it is
    strictly below the number of unread ids as soon as one message was not
    reached. *)
Theorem cancellation_stops_scan (E : Env) (email_ids : list msgid)
        (bs1 : list (list msgid)) (b1 b2 : list msgid)
        (bs2 : list (list msgid)) (m : machine E) :
  fetch_email_headers_batch email_ids scan_batch_size
  = bs1 ++ (b1 ++ b2) :: bs2 ->
  let m0 := snd (update (reset_counters E) m) in
  let m1 := snd (scan_batches E bs1 m0) in
  let rs := fst (process_email_batch E b1 m1) in
  let m2 := snd (process_email_batch E b1 m1) in
  stop_requested (self m2) = true ->
  let final := snd (scan_batches E (fetch_email_headers_batch email_ids
                                      scan_batch_size) m0) in
  final = mk_machine (now m2) (count_all E rs (self m2)) (log m2)
  /\ processed_count (self final) <= length (concat bs1) + length b1
  /\ (b2 <> [] \/ bs2 <> [] -> processed_count (self final) < length email_ids).
Proof.
  intros Hsplit m0 m1 rs m2 Hstop final.
  assert (Hfinal : final = mk_machine (now m2) (count_all E rs (self m2)) (log m2)).
  { unfold final. rewrite Hsplit, scan_batches_app. fold m1.
    destruct (stop_requested (self m1)) eqn:Hs1.
    - rewrite (scan_batches_stopped E _ m1 Hs1). cbn [snd].
      unfold rs, m2. rewrite (process_email_batch_stopped E b1 m1 Hs1).
      cbn [fst snd count_all fold_left]. now destruct m1.
    - cbn [scan_batches]. rewrite !bind_eq. cbn [read fst snd]. rewrite Hs1.
      rewrite !bind_eq. cbn [update fst snd].
      rewrite process_email_batch_app. cbn [fst snd]. fold m2 rs.
      rewrite (process_email_batch_stopped E b2 m2 Hstop). cbn [fst snd].
      rewrite app_nil_r.
      rewrite scan_batches_stopped; [reflexivity|].
      cbn [self]. destruct (count_results_counters E rs (self m2)) as [-> _].
      exact Hstop. }
  assert (Hacc0 : accounted E (self m0)) by apply reset_accounted.
  destruct (scan_batches_accounted E bs1 m0 Hacc0) as [Hacc1 Hle1].
  change (snd (scan_batches E bs1 m0)) with m1 in Hacc1, Hle1.
  pose proof (process_email_batch_counters E b1 m1) as Hc.
  change (snd (process_email_batch E b1 m1)) with m2 in Hc.
  assert (Hacc2 : accounted E (self m2)) by (eapply accounted_counters; eauto).
  destruct (count_all_accounted E rs _ Hacc2) as [_ Hp].
  pose proof (process_email_batch_length E b1 m1) as Hlen.
  change (fst (process_email_batch E b1 m1)) with rs in Hlen.
  assert (Hp1 : processed_count (self m2) = processed_count (self m1))
    by (unfold counters in Hc; congruence).
  assert (Hbound : processed_count (self final) <= length (concat bs1) + length b1).
  { rewrite Hfinal. cbn [self]. rewrite Hp, Hp1.
    cbn [m0 update snd self reset_counters processed_count] in Hle1. lia. }
  repeat split; [exact Hfinal | exact Hbound |].
  intros Hrest.
  assert (Hcat : concat (fetch_email_headers_batch email_ids scan_batch_size)
                 = email_ids)
    by (apply concat_slices; unfold scan_batch_size; lia).
  rewrite Hsplit, concat_app in Hcat. cbn [concat] in Hcat.
  assert (Hlen_ids : length email_ids
                     = length (concat bs1) + (length b1 + length b2
                                              + length (concat bs2))).
  { rewrite <- Hcat, !length_app. lia. }
  assert (Hpos : 0 < length b2 + length (concat bs2)).
  { destruct Hrest as [Hb2|Hbs2].
    - destruct b2; [congruence | cbn; lia].
    - destruct bs2 as [|b bs2]; [congruence|].
      pose proof (slices_sizes email_ids scan_batch_size
                               ltac:(unfold scan_batch_size; lia)) as Hs.
      unfold fetch_email_headers_batch in Hsplit. rewrite Hsplit in Hs.
      apply Forall_app in Hs. destruct Hs as [_ Hs].
      inversion Hs as [|? ? _ Hs2]. inversion Hs2 as [|? ? Hb _].
      cbn [concat]. rewrite length_app. lia. }
  lia.
Qed.

Lemma cancellation_stops_scan_witness :
  let s := Script.interrupted ["1"; "2"] (fun n => n =? 0) in
  let m0 := snd (update (reset_counters (Script.env s)) (Script.connected s)) in
  let final := snd (scan_batches (Script.env s)
                      (fetch_email_headers_batch ["1"; "2"] scan_batch_size)
                      m0) in
  processed_count (self final) < 2.
Proof.
  cbn zeta.
  refine (proj2 (proj2 (cancellation_stops_scan
                          (Script.env (Script.interrupted ["1"; "2"]
                                                          (fun n => n =? 0)))
                          ["1"; "2"] [] ["1"] ["2"] []
                          (Script.connected (Script.interrupted ["1"; "2"]
                                                                (fun n => n =? 0)))
                          _ _)) _).
  - vm_compute. reflexivity.
  - vm_compute. reflexivity.
  - left. discriminate.
Defined.

End ScanClaims.

Section DeletionClaims.

(** C6.  With a session open, [delete_emails_fast] cuts the candidates into
    consecutive sub-batches of 50: ceil(N / 50) of them, every one but the
    last of exactly 50, the last of 1 to 50.  It issues one flag store per
    candidate, in order, whether or not earlier stores failed; the
    successful count is the number of stores that returned and the failed
    count the number of stores that raised, each store being made in the
    world the one before it left.  It then issues exactly one expunge, after
    all the stores, in the world the last store left.  The two counts
    reported are those of the flagging phase whatever the expunge answers:
    when the expunge raises, the error line is printed in place of the
    completion line, nothing is retried and the method returns.  When no
    store raises the report is successful = N, failed = 0. *)
Theorem deletion_flags_all_then_expunges_once
    (E : Env) (m : machine E) (c : conn E) :
  mail (self m) = Some c ->
  let candidates := emails_to_delete (self m) in
  let batches := slices candidates delete_batch_size in
  let flagged := flag_batches E batches (0, 0) (snd (emit delete_invoked m)) in
  let counts := fst flagged in
  let replies := store_replies E c candidates (now m) in
  let expunged := expunge E c (now (snd flagged)) in
  let tr := trace (delete_emails_fast E) m in
  concat batches = candidates
  /\ length batches = (length candidates + 49) / 50
  /\ (forall k, S k < length batches -> length (nth k batches []) = 50)
  /\ Forall (fun b => 0 < length b <= 50) batches
  /\ filter is_store tr = map (fun r => call_store (id_of r)) candidates
  /\ filter is_expunge tr = [call_expunge]
  /\ fst counts + snd counts = length candidates
  /\ fst counts = length (flagged_ones replies)
  /\ snd counts = length (failed_ones replies)
  /\ now (snd flagged) = world_after_stores E c candidates (now m)
  /\ (exists t_flag,
         tr = delete_invoked :: t_flag ++ call_expunge
                :: signal_events (sigint expunged)
                ++ [print (match outcome expunged with
                           | Ret _ => msg_deletion_complete
                           | Raise _ => msg_expunge_error
                           end);
                    print (msg_successfully_deleted (fst counts));
                    print (msg_failed_deletions (snd counts))])
  /\ (store_never_raises E -> counts = (length candidates, 0)).
Proof.
  intros Hmail candidates batches flagged counts replies expunged tr.
  assert (Hcat : concat batches = candidates)
    by (apply concat_slices; unfold delete_batch_size; lia).
  set (m0 := snd (emit delete_invoked m)).
  assert (Hmail0 : mail (self m0) = Some c) by exact Hmail.
  assert (Hflag : flagged = flag_batch E candidates (0, 0) m0).
  { unfold flagged. now rewrite flag_batches_concat, Hcat. }
  destruct (flag_batch_log E candidates (0, 0) m0 c Hmail0)
    as (t & Ht & Hstores & Hnoexp & Hmail1).
  destruct (flag_batch_tally E candidates 0 0 m0 c Hmail0) as [Htally Hworld].
  change (now m0) with (now m) in Htally, Hworld. fold replies in Htally.
  rewrite <- Hflag in Ht, Hmail1, Htally, Hworld.
  set (m1 := snd flagged) in *.
  assert (Hlog : log (snd (delete_emails_fast E m))
                 = ([print (msg_failed_deletions (snd counts));
                     print (msg_successfully_deleted (fst counts));
                     print (match outcome expunged with
                            | Ret _ => msg_deletion_complete
                            | Raise _ => msg_expunge_error
                            end)]
                    ++ rev (signal_events (sigint expunged))
                    ++ [call_expunge] ++ t ++ [delete_invoked]) ++ log m).
  { unfold delete_emails_fast. rewrite !bind_eq. cbn [read fst].
    change (snd (read emails_to_delete (snd (emit delete_invoked m)))) with m0.
    change (emails_to_delete (self (snd (emit delete_invoked m))))
      with candidates.
    fold batches. fold flagged. fold counts. fold m1.
    rewrite (on_mail_connected E _ _ m1 c Hmail1).
    pose proof (call_log E call_expunge (expunge E c) m1) as Hc.
    replace (fst (call E call_expunge (expunge E c) m1))
      with (outcome expunged) by reflexivity.
    set (m2 := snd (call E call_expunge (expunge E c) m1)) in *.
    fold expunged in Hc.
    destruct (outcome expunged); cbn [emit fst snd log];
      rewrite Hc, Ht; cbn [m0 emit snd log];
      rewrite <- !app_assoc; reflexivity. }
  assert (Htr : tr = delete_invoked :: rev t ++ call_expunge
                       :: signal_events (sigint expunged)
                       ++ [print (match outcome expunged with
                                  | Ret _ => msg_deletion_complete
                                  | Raise _ => msg_expunge_error
                                  end);
                           print (msg_successfully_deleted (fst counts));
                           print (msg_failed_deletions (snd counts))]).
  { unfold tr. rewrite (trace_of_extension E _ _ _ Hlog).
    rewrite !rev_app_distr. cbn [rev app]. rewrite rev_involutive.
    rewrite <- !app_assoc. reflexivity. }
  assert (Hsig : forall b, filter is_store (signal_events b) = []
                           /\ filter is_expunge (signal_events b) = []).
  { intros [|]; split; reflexivity. }
  destruct (Hsig (sigint expunged)) as [Hs1 Hs2].
  split; [exact Hcat|]. split.
  { unfold batches. rewrite slices_length. unfold delete_batch_size.
    f_equal. lia. }
  split.
  { intros k Hk. unfold batches.
    apply (slices_full candidates delete_batch_size k);
      [unfold delete_batch_size; lia | exact Hk]. }
  split.
  { apply slices_sizes. unfold delete_batch_size. lia. }
  split.
  { rewrite Htr. cbn [filter is_store]. rewrite !filter_app.
    cbn [filter is_store]. rewrite !filter_app, Hs1. cbn [filter is_store app].
    rewrite app_nil_r, filter_rev, Hstores. apply rev_involutive. }
  split.
  { rewrite Htr. cbn [filter is_expunge]. rewrite !filter_app.
    cbn [filter is_expunge]. rewrite !filter_app, Hs2.
    cbn [filter is_expunge app].
    rewrite filter_rev, (filter_nothing _ _ Hnoexp). reflexivity. }
  split.
  { unfold counts. rewrite Hflag.
    pose proof (flag_batch_counts E candidates 0 0 m0) as H. cbn zeta in H. lia. }
  split; [unfold counts; now rewrite Htally|].
  split; [unfold counts; now rewrite Htally|].
  split; [exact Hworld|].
  split.
  { exists (rev t). exact Htr. }
  intros Hok. unfold counts. rewrite Hflag.
  now rewrite (flag_batch_all_flagged E candidates 0 0 m0 c Hok Hmail0).
Qed.

(** Scenario E: both candidates are flagged, the expunge raises.  And a
    run in which the store for the second of three candidates raises. *)
Lemma deletion_flags_all_then_expunges_once_witness :
  let s := Script.expunge_fails ["1"; "2"] in
  let s' := store_fails (String.eqb "2") in
  let m' := scanned s' (candidates_for ["1"; "2"; "3"]) in
  (trace (delete_emails_fast (Script.env s)) (scanned s two_candidates)
   = [delete_invoked; call_store "1"; call_store "2"; call_expunge;
      print msg_expunge_error; print (msg_successfully_deleted 2);
      print (msg_failed_deletions 0)]
   /\ filter is_expunge
        (trace (delete_emails_fast (Script.env s)) (scanned s two_candidates))
      = [call_expunge])
  /\ (trace (delete_emails_fast (Script.env s')) m'
      = [delete_invoked; call_store "1"; call_store "2";
         print (msg_flag_failed "2"); call_store "3"; call_expunge;
         print msg_deletion_complete; print (msg_successfully_deleted 2);
         print (msg_failed_deletions 1)]
      /\ fst (flag_batches (Script.env s')
                (slices (candidates_for ["1"; "2"; "3"]) delete_batch_size)
                (0, 0) (snd (emit delete_invoked m')))
         = (2, 1)).
Proof.
  cbn zeta. split.
  - destruct (deletion_flags_all_then_expunges_once
                (Script.env (Script.expunge_fails ["1"; "2"]))
                (scanned (Script.expunge_fails ["1"; "2"]) two_candidates) tt
                eq_refl) as (_ & _ & _ & _ & _ & H & _).
    split; [vm_compute; reflexivity | exact H].
  - destruct (deletion_flags_all_then_expunges_once
                (Script.env (store_fails (String.eqb "2")))
                (scanned (store_fails (String.eqb "2"))
                         (candidates_for ["1"; "2"; "3"])) tt
                eq_refl) as (_ & _ & _ & _ & _ & _ & _ & Hok & Hbad & _).
    split; [vm_compute; reflexivity|].
    cbn zeta in Hok, Hbad. apply injective_projections; cbn [fst snd].
    + etransitivity; [exact Hok | reflexivity].
    + etransitivity; [exact Hbad | reflexivity].
Defined.

End DeletionClaims.

Section RetryClaims.

(** C7.  When the first header fetch of a message fails (the call raises,
    the status is not OK, or the data cannot be read), the step makes one
    liveness check and, if the session is live, one more fetch; when the
    check fails or the second fetch fails too, the message leaves no record,
    and the batch goes on with the remaining messages from the machine
    reached. *)
Theorem failed_fetch_retried_once
    (E : Env) (email_id : msgid) (rest : list msgid) (m : machine E)
    (c : conn E) :
  mail (self m) = Some c ->
  stop_requested (self m) = false ->
  fetch_failed (outcome (fetch E c email_id (now m))) ->
  let tr := trace (process_one E email_id) m in
  let m1 := snd (fetch_attempts E email_id [0] m) in
  let live := fst (reconnect_if_needed E m1) in
  let m2 := snd (reconnect_if_needed E m1) in
  filter is_ensured_live tr = [ensured_live live]
  /\ filter is_fetch tr
     = call_fetch email_id :: (if live then [call_fetch email_id] else [])
  /\ (live = false -> fst (process_one E email_id m) = None)
  /\ (forall c2, live = true -> mail (self m2) = Some c2 ->
                 fetch_failed (outcome (fetch E c2 email_id (now m2))) ->
                 fst (process_one E email_id m) = None)
  /\ (fst (process_one E email_id m) = None ->
      process_email_batch E (email_id :: rest) m
      = process_email_batch E rest (snd (process_one E email_id m))).
Proof.
  intros Hmail Hstop Hfail tr m1 live m2.
  destruct (first_attempt_failed E email_id [1] m c Hmail Hfail)
    as (Heq & q0 & Hq0 & Fq0).
  change (snd (fetch_attempts E email_id [0] m)) with m1 in Heq, Hq0.
  assert (Hone : process_one E email_id m = fetch_attempts E email_id [1] m1)
    by exact Heq.
  destruct (second_attempt_log E email_id 1 m1 eq_refl)
    as (q & t & Hl & Fq & Ft).
  fold live in Hl.
  set (F := if live then [call_fetch email_id] else []) in *.
  assert (Hlog : log (snd (process_one E email_id m))
                 = (q ++ F ++ ensured_live live :: t ++ q0
                      ++ [call_fetch email_id]) ++ log m).
  { rewrite Hone, Hl, Hq0. rewrite <- ?app_assoc. cbn [app].
    rewrite <- ?app_assoc. reflexivity. }
  destruct (last_attempt_skips E email_id 1 m1 eq_refl eq_refl) as (Hno & Hfail2).
  split; [|split; [|split; [|split]]].
  - unfold tr. rewrite (filter_trace _ _ _ _ Hlog).
    rewrite !filter_app. cbn [filter is_ensured_live].
    rewrite !filter_app. cbn [filter is_ensured_live].
    rewrite (quiet_no_check q Fq), (quiet_no_check t Ft), (quiet_no_check q0 Fq0).
    unfold F. destruct live; reflexivity.
  - unfold tr. rewrite (filter_trace _ _ _ _ Hlog).
    rewrite !filter_app. cbn [filter is_fetch].
    rewrite !filter_app. cbn [filter is_fetch].
    rewrite (quiet_no_fetch q Fq), (quiet_no_fetch t Ft), (quiet_no_fetch q0 Fq0).
    unfold F. destruct live; reflexivity.
  - intros Hlive. rewrite Hone. now apply Hno.
  - intros c2 Hlive Hm2 Hf2. rewrite Hone. now apply (Hfail2 c2).
  - intros Hnone. cbn [process_email_batch]. rewrite !bind_eq.
    cbn [read fst snd]. rewrite Hstop. rewrite !bind_eq. cbn [ret fst snd].
    rewrite Hnone. cbn [appended app].
    now destruct (process_email_batch E rest (snd (process_one E email_id m))).
Qed.

Lemma failed_fetch_retried_once_witness :
  let s := Script.fetching ["1"; "2"] (fun _ _ => Ret ("NO", None)) in
  fst (process_one (Script.env s) "1" (Script.connected s)) = None
  /\ filter is_fetch (trace (process_one (Script.env s) "1") (Script.connected s))
     = [call_fetch "1"; call_fetch "1"]
  /\ filter is_ensured_live
       (trace (process_one (Script.env s) "1") (Script.connected s))
     = [ensured_live true].
Proof.
  cbn zeta.
  destruct (failed_fetch_retried_once
              (Script.env (Script.fetching ["1"; "2"]
                                           (fun _ _ => Ret ("NO", None))))
              "1" ["2"]
              (Script.connected (Script.fetching ["1"; "2"]
                                                 (fun _ _ => Ret ("NO", None))))
              tt eq_refl eq_refl (or_introl eq_refl))
    as (H1 & H2 & _ & H4 & _).
  split; [|split].
  - apply (H4 tt); [reflexivity | reflexivity | left; reflexivity].
  - exact H2.
  - exact H1.
Defined.

(** C9, as stated, fails: the first fetch of a message and the calls of the
    deletion executor are made with no liveness check before them. *)
Lemma first_fetch_and_deletion_unchecked :
  let s := Script.calm ["1"] "yes" in
  trace (process_email_batch (Script.env s) ["1"]) (Script.connected s)
  = [call_fetch "1";
     classify "newsletter@updates.com" "Weekly Digest"
              "News <newsletter@updates.com>"]
  /\ ~ checked_before_use
         (trace (process_email_batch (Script.env s) ["1"]) (Script.connected s))
  /\ trace (delete_emails_fast (Script.env s)) (scanned s two_candidates)
     = [delete_invoked; call_store "1"; call_store "2"; call_expunge;
        print msg_deletion_complete; print (msg_successfully_deleted 2);
        print (msg_failed_deletions 0)]
  /\ ~ checked_before_use
         (trace (delete_emails_fast (Script.env s)) (scanned s two_candidates)).
Proof.
  cbn zeta.
  assert (H1 : trace (process_email_batch (Script.env (Script.calm ["1"] "yes"))
                                          ["1"])
                     (Script.connected (Script.calm ["1"] "yes"))
               = [call_fetch "1";
                  classify "newsletter@updates.com" "Weekly Digest"
                           "News <newsletter@updates.com>"])
    by (vm_compute; reflexivity).
  assert (H2 : trace (delete_emails_fast (Script.env (Script.calm ["1"] "yes")))
                     (scanned (Script.calm ["1"] "yes") two_candidates)
               = [delete_invoked; call_store "1"; call_store "2"; call_expunge;
                  print msg_deletion_complete; print (msg_successfully_deleted 2);
                  print (msg_failed_deletions 0)])
    by (vm_compute; reflexivity).
  split; [exact H1|]. split; [|split; [exact H2|]].
  - rewrite H1. intros H.
    destruct (H [] (call_fetch "1") _ eq_refl eq_refl) as [ok []].
  - rewrite H2. intros H.
    destruct (H [delete_invoked] (call_store "1") _ eq_refl eq_refl)
      as [ok [Hin|[]]].
    discriminate Hin.
Qed.

(** C9, amended.  With a session open, the first thing the step for a
    message does is the header fetch, with no liveness check before it; any
    later fetch of the step comes directly after a liveness check that
    answered that the session is live.  The deletion executor makes no
    liveness check at all: no NOOP probe, no call of [reconnect_if_needed]. *)
Theorem liveness_check_only_on_retry
    (E : Env) (email_id : msgid) (m : machine E) (c : conn E) :
  mail (self m) = Some c ->
  (exists rest, trace (process_one E email_id) m = call_fetch email_id :: rest)
  /\ (forall before i after,
         trace (process_one E email_id) m = before ++ call_fetch i :: after ->
         before = [] \/ exists earlier, before = earlier ++ [ensured_live true])
  /\ (forall m', Forall (fun e => is_liveness_check e = false)
                        (trace (delete_emails_fast E) m')).
Proof.
  intros Hmail. split; [|split].
  - destruct (process_one_first_fetch E email_id m c Hmail) as (t & Ht).
    exists (rev t).
    rewrite (trace_of_extension E _ _ (t ++ [call_fetch email_id]))
      by (rewrite Ht, <- app_assoc; reflexivity).
    rewrite rev_app_distr. reflexivity.
  - intros before i after Htr.
    destruct (process_one_checked E email_id m) as (t & Ht & Hc).
    rewrite (trace_of_extension E _ _ t Ht) in Htr.
    assert (Hrev : t = rev after ++ call_fetch i :: rev before).
    { rewrite <- (rev_involutive t), Htr, rev_app_distr. cbn [rev].
      now rewrite <- app_assoc. }
    rewrite Hrev in Hc. apply checked_retries_suffix in Hc.
    destruct Hc as [Hf _]. destruct (Hf eq_refl) as [Hnil | [older Hold]].
    + left. destruct before as [|x xs]; [reflexivity|].
      cbn [rev] in Hnil. now destruct (rev xs).
    + right. exists (rev older).
      rewrite <- (rev_involutive before), Hold. reflexivity.
  - intros m'. destruct (delete_emails_fast_unchecked E m') as (t & Ht & Ft).
    rewrite (trace_of_extension E _ _ t Ht). now apply Forall_rev.
Qed.

Lemma liveness_check_only_on_retry_witness :
  let s := Script.fetching ["1"] (fun _ _ => Ret ("NO", None)) in
  [call_fetch "1"; sleep 1; call_noop; ensured_live true] = []
  \/ exists earlier,
       [call_fetch "1"; sleep 1; call_noop; ensured_live true]
       = earlier ++ [ensured_live true].
Proof.
  cbn zeta.
  apply (proj1 (proj2 (liveness_check_only_on_retry
                         (Script.env (Script.fetching ["1"]
                                        (fun _ _ => Ret ("NO", None))))
                         "1"
                         (Script.connected
                            (Script.fetching ["1"] (fun _ _ => Ret ("NO", None))))
                         tt eq_refl))
               _ "1" []).
  vm_compute. reflexivity.
Defined.

End RetryClaims.

(* ================================================================= *)
(** * Further properties of the code *)

Section BatchingProperties.

(** X1.  [fetch_email_headers_batch] with a positive batch size cuts the
    ids into ceil(len / size) consecutive batches: their concatenation is
    the list of ids, every batch but the last has exactly [batch_size]
    ids, the last has between 1 and [batch_size], and no ids give no
    batch. *)
Theorem batches_cover_ids_in_full_slices
    (email_ids : list msgid) (batch_size : nat) :
  0 < batch_size ->
  let batches := fetch_email_headers_batch email_ids batch_size in
  concat batches = email_ids
  /\ length batches = (length email_ids + batch_size - 1) / batch_size
  /\ (forall k, S k < length batches -> length (nth k batches []) = batch_size)
  /\ Forall (fun b => 0 < length b <= batch_size) batches
  /\ (email_ids = [] <-> batches = []).
Proof.
  intros Hn batches. unfold batches, fetch_email_headers_batch.
  split; [now apply concat_slices|].
  split; [apply slices_length|].
  split.
  { intros k Hk. rewrite slices_nth by lia.
    rewrite slices_length in Hk.
    rewrite length_firstn, length_skipn.
    pose proof (Nat.Div0.mul_div_le (length email_ids + batch_size - 1)
                                    batch_size) as H.
    assert (batch_size * S (S k)
            <= batch_size * ((length email_ids + batch_size - 1) / batch_size))
      by (apply Nat.mul_le_mono_l; lia).
    lia. }
  split; [now apply slices_sizes|].
  split.
  - intros ->. rewrite slices_chunks. cbn [length].
    now rewrite (Nat.div_small (0 + batch_size - 1) batch_size) by lia.
  - intros H. rewrite <- (concat_slices email_ids batch_size Hn), H. reflexivity.
Qed.

Lemma batches_cover_ids_in_full_slices_witness :
  fetch_email_headers_batch ["1"; "2"; "3"; "4"; "5"] 2
  = [["1"; "2"]; ["3"; "4"]; ["5"]]
  /\ length (fetch_email_headers_batch ["1"; "2"; "3"; "4"; "5"] 2) = 3.
Proof.
  split; [reflexivity|].
  exact (proj1 (proj2 (batches_cover_ids_in_full_slices
                         ["1"; "2"; "3"; "4"; "5"] 2 (Nat.lt_0_succ 1)))).
Defined.

End BatchingProperties.

Section ClassifierProperties.

Import PyStr PyStrFacts Classifier ClassifierFacts ShadowFacts.

(** X2.  A rule that contains a rule tried before it is never the reported
    reason, since the earlier rule would have matched first.  The reason is
    always built from one of 26 of the 31 patterns (the five
    "...*notification" fragments, taken literally, contain "notification"),
    one of 5 of the 12 domains, one of 5 of the 11 sender keywords, one of 2
    of the 7 promotional keywords, or is the negative answer. *)
Theorem hidden_rules_are_never_reported (sender subject sender_full : string) :
  In (snd (is_unnecessary_email_fast sender subject sender_full))
     reportable_reasons
  /\ live_rules [] UNNECESSARY_PATTERNS
     = ["noreply"; "no-reply"; "donotreply"; "notification"; "newsletter";
        "unsubscribe"; "promotional"; "marketing"; "sale"; "offer"; "deal";
        "discount"; "coupon"; "survey"; "feedback"; "linkedin.*invitation";
        "spam"; "advertisement"; "promo"; "alert.*account";
        "security.*alert"; "backup.*complete"; "automated.*message";
        "digest"; "weekly.*update"; "monthly.*report"]
  /\ live_rules UNNECESSARY_PATTERNS UNNECESSARY_DOMAINS
     = ["alerts.com"; "mailchimp.com"; "constantcontact.com"; "sendgrid.net";
        "mailgun.org"]
  /\ live_rules UNNECESSARY_PATTERNS UNNECESSARY_SENDERS
     = ["support"; "team"; "hello"; "info"; "updates"]
  /\ live_rules UNNECESSARY_PATTERNS promo_keywords
     = ["% off"; "free shipping"].
Proof.
  split; [|repeat split; vm_compute; reflexivity].
  unfold reportable_reasons, is_unnecessary_email_fast,
    is_unnecessary_email_fast_with.
  assert (Hmono_p : forall p q, Substring p q ->
                                pattern_fires lower sender subject sender_full q ->
                                pattern_fires lower sender subject sender_full p).
  { unfold pattern_fires. intros p q Hpq [H|[H|H]];
      eauto using substring_trans. }
  destruct (first_match _ UNNECESSARY_PATTERNS) as [p|] eqn:H1.
  { cbn [snd]. apply in_or_app. left. apply in_map.
    eapply first_hit_live; [exact Hmono_p | constructor |].
    eapply first_match_hit; [|exact H1]. intros x. apply pattern_test_iff. }
  assert (N1 : NoHit (pattern_fires lower sender subject sender_full)
                     UNNECESSARY_PATTERNS).
  { eapply first_match_nohit; [|exact H1]. intros x. apply pattern_test_iff. }
  assert (Nsender : forall part, Substring part (lower sender) ->
                      Forall (fun x => ~ Substring x part) UNNECESSARY_PATTERNS).
  { intros part Hpart. eapply Forall_impl; [|exact N1].
    intros x Hx Hc. apply Hx. left. eauto using substring_trans. }
  assert (Nsubject : Forall (fun x => ~ Substring x (lower subject))
                            UNNECESSARY_PATTERNS).
  { eapply Forall_impl; [|exact N1]. intros x Hx Hc. apply Hx. right. now left. }
  pose proof (domain_part_substring _ _ (domain_part (lower sender))) as D.
  pose proof (local_part_substring _ _ (local_part (lower sender))) as L.
  apply in_or_app. right.
  destruct (first_match _ UNNECESSARY_DOMAINS) as [d|] eqn:H2.
  { cbn [snd]. apply in_or_app. left. apply in_map.
    eapply (first_hit_live (fun d => Substring d (sender_domain_of (lower sender)))).
    - intros; eauto using substring_trans.
    - now apply Nsender.
    - eapply first_match_hit; [|exact H2]. intros x. apply contains_iff. }
  apply in_or_app. right.
  destruct (first_match _ UNNECESSARY_SENDERS) as [k|] eqn:H3.
  { cbn [snd]. apply in_or_app. left. apply in_map.
    eapply (first_hit_live (fun k => Substring k (sender_name_of (lower sender)))).
    - intros; eauto using substring_trans.
    - now apply Nsender.
    - eapply first_match_hit; [|exact H3]. intros x. apply contains_iff. }
  apply in_or_app. right.
  destruct (first_match _ promo_keywords) as [k|] eqn:H4.
  { cbn [snd]. apply in_or_app. left. apply in_map.
    eapply (first_hit_live (fun k => Substring k (lower subject))).
    - intros; eauto using substring_trans.
    - exact Nsubject.
    - eapply first_match_hit; [|exact H4]. intros x. apply contains_iff. }
  cbn [snd]. apply in_or_app. right. left. reflexivity.
Qed.

End ClassifierProperties.

Section RecordProperties.

(** X3.  The records a batch step returns are for ids of the batch, in the
    order of the batch and at most one per id; a keep record carries one of
    the two keep reasons, and a delete record is dated strictly before the
    cutoff and carries the reason the classifier gives for its sender and
    subject. *)
Theorem batch_records_are_sound
    (E : Env) (email_batch : list msgid) (m : machine E) :
  let batch_results := fst (process_email_batch E email_batch m) in
  Subseq (map id_of batch_results) email_batch
  /\ Forall (fun r => sound_record (id_of r) r) batch_results.
Proof. apply process_email_batch_sound. Qed.

(** X4.  After the scan of the unread ids, whatever the server answered and
    whenever it was cancelled, the candidates for deletion are delete
    records only, for ids of the unread list in its order, each dated
    strictly before the cutoff and flagged by the classifier. *)
Theorem scan_candidates_are_sound
    (E : Env) (email_ids : list msgid) (m0 : machine E) :
  let final := snd (scan_batches E
                      (fetch_email_headers_batch email_ids scan_batch_size)
                      (snd (update (reset_counters E) m0))) in
  Subseq (map id_of (emails_to_delete (self final))) email_ids
  /\ Forall (fun r => is_delete_record r = true /\ sound_record (id_of r) r)
            (emails_to_delete (self final)).
Proof.
  cbn zeta.
  destruct (scan_batches_candidates E
              (fetch_email_headers_batch email_ids scan_batch_size)
              (snd (update (reset_counters E) m0)))
    as (added & Ha & Hsub & Hall).
  rewrite Ha. cbn [update snd self reset_counters emails_to_delete app].
  split; [|exact Hall].
  unfold fetch_email_headers_batch in Hsub.
  rewrite concat_slices in Hsub by (unfold scan_batch_size; lia).
  exact Hsub.
Qed.

End RecordProperties.

Section DeletionProperties.

(** X5.  In [analyze_emails_fast], every flag store is for an id that the
    search for unread messages returned in this very call. *)
Theorem only_unread_ids_are_flagged
    (E : Env) (dry_run : bool) (m : machine E) (i : msgid) :
  In (call_store i) (trace (analyze_emails_fast E dry_run) m) ->
  In i (fst (get_unread_emails_fast E m)).
Proof.
  set (ids := fst (get_unread_emails_fast E m)).
  set (P := stores_only ids).
  assert (Hloc : forall e, local_event e = true -> P e)
    by (intros e He j Hj; subst e; discriminate He).
  assert (Hses : forall e, session_event e = true -> P e)
    by (intros e He j Hj; subst e; discriminate He).
  assert (Hlive : forall ok, P (ensured_live ok))
    by (intros ok j Hj; discriminate Hj).
  assert (Hscan : forall e, scan_event e = true -> P e)
    by (intros e He j Hj; subst e; discriminate He).
  assert (Hlog : extends_with P m (snd (analyze_emails_fast E dry_run m))).
  { unfold analyze_emails_fast. rewrite bind_eq. fold ids.
    eapply extends_trans; [now apply log_get_unread_emails_fast|].
    set (m1 := snd (get_unread_emails_fast E m)).
    destruct ids as [|i0 rest] eqn:Hids.
    { rewrite bind_eq. cbn [emit ret fst snd]. apply extends_emit.
      intros j Hj. discriminate Hj. }
    rewrite <- Hids. rewrite !bind_eq. cbn [update fst snd].
    set (m2 := mk_machine (now m1) (reset_counters E (self m1)) (log m1)).
    eapply extends_trans; [apply (extends_update E P (reset_counters E) m1 I)|].
    change (snd (update (reset_counters E) m1)) with m2.
    eapply extends_trans; [now apply log_scan_batches|].
    destruct (scan_candidates_candidates_aux E ids m1) as [Hsub _].
    set (m3 := snd (scan_batches E (fetch_email_headers_batch ids scan_batch_size)
                                 m2)) in *.
    unfold show_analysis_results. rewrite !bind_eq. cbn [read emit fst snd].
    set (m4 := mk_machine (now m3) (self m3) (_ :: log m3)).
    assert (H4 : extends_with P m3 m4).
    { apply extends_emit. intros j Hj. discriminate Hj. }
    eapply extends_trans; [exact H4|].
    destruct dry_run.
    { rewrite bind_eq. cbn [emit ret fst snd]. apply extends_emit.
      intros j Hj. discriminate Hj. }
    destruct (0 <? deleted_count (self m3)).
    2:{ rewrite bind_eq. cbn [emit ret fst snd]. apply extends_emit.
        intros j Hj. discriminate Hj. }
    rewrite bind_try_eq.
    assert (H5 : extends_with P m4 (snd (call E call_input (input E) m4))).
    { apply log_call; [exact Hloc|]. intros j Hj. discriminate Hj. }
    pose proof (call_same_but_stop E call_input (input E) m4) as Hsame.
    set (m5 := snd (call E call_input (input E) m4)) in *.
    destruct (fst (call E call_input (input E) m4)) as [confirm|e];
      [|exact H5].
    eapply extends_trans; [exact H5|].
    rewrite bind_eq. cbn [emit fst snd].
    set (m6 := mk_machine (now m5) (self m5) (answered confirm :: log m5)).
    assert (H6 : extends_with P m5 m6).
    { apply extends_emit. intros j Hj. discriminate Hj. }
    eapply extends_trans; [exact H6|].
    destruct (affirmative confirm).
    2:{ rewrite bind_eq. cbn [emit ret fst snd]. apply extends_emit.
        intros j Hj. discriminate Hj. }
    rewrite bind_eq. cbn [ret snd].
    destruct (delete_emails_fast_store_ids E m6) as (t & Ht & Ft).
    exists t. split; [exact Ht|]. eapply Forall_impl; [|exact Ft].
    intros e He j Hj. specialize (He j Hj).
    cbn [m6 self] in He.
    destruct Hsame as (_ & _ & Hc & _). cbn [m4 self] in Hc.
    assert (Hcand : emails_to_delete (self m5) = emails_to_delete (self m3))
      by (unfold counters in Hc; congruence).
    rewrite Hcand in He. rewrite <- Hids.
    eapply subseq_in; [exact Hsub | exact He]. }
  destruct Hlog as (t & Ht & Ft). intros Hin.
  rewrite (trace_of_extension E _ _ t Ht) in Hin. apply in_rev in Hin.
  rewrite Forall_forall in Ft. exact (Ft _ Hin i eq_refl).
Qed.

Lemma only_unread_ids_are_flagged_witness :
  In "2" (fst (get_unread_emails_fast
                 (Script.env (Script.calm ["1"; "2"] "yes"))
                 (Script.connected (Script.calm ["1"; "2"] "yes")))).
Proof.
  apply (only_unread_ids_are_flagged
           (Script.env (Script.calm ["1"; "2"] "yes")) false
           (Script.connected (Script.calm ["1"; "2"] "yes")) "2").
  vm_compute. tauto.
Defined.

(** X6.  Without a session ([self.mail] is [None]) [delete_emails_fast]
    sends nothing: every candidate fails at once, the first four failures
    are printed in candidate order, the expunge fails too, and the report
    is successful = 0, failed = N.  The world is left as it was. *)
Theorem deletion_without_session_sends_nothing
    (E : Env) (m : machine E) :
  mail (self m) = None ->
  let candidates := emails_to_delete (self m) in
  trace (delete_emails_fast E) m
  = delete_invoked
      :: map (fun r => print (msg_flag_failed (id_of r))) (firstn 4 candidates)
      ++ [print msg_expunge_error;
          print (msg_successfully_deleted 0);
          print (msg_failed_deletions (length candidates))]
  /\ now (snd (delete_emails_fast E m)) = now m.
Proof.
  intros Hmail candidates.
  set (m0 := snd (emit delete_invoked m)).
  assert (Hmail0 : mail (self m0) = None) by exact Hmail.
  assert (Hflag : flag_batches E (slices candidates delete_batch_size) (0, 0) m0
                  = flag_batch E candidates (0, 0) m0).
  { rewrite flag_batches_concat, concat_slices
      by (unfold delete_batch_size; lia). reflexivity. }
  rewrite (flag_batch_disconnected E candidates 0 0 m0 Hmail0) in Hflag.
  assert (Hrun : delete_emails_fast E m
                 = (tt, mk_machine (now m) (self m)
                          ([print (msg_failed_deletions (length candidates));
                            print (msg_successfully_deleted 0);
                            print msg_expunge_error]
                           ++ rev (map (fun r => print (msg_flag_failed (id_of r)))
                                       (firstn 4 candidates))
                           ++ [delete_invoked] ++ log m))).
  { unfold delete_emails_fast. rewrite !bind_eq. cbn [read fst snd].
    change (snd (emit delete_invoked m)) with m0.
    change (emails_to_delete (self m0)) with candidates.
    rewrite Hflag. cbn [fst snd]. unfold on_mail. rewrite !bind_eq.
    cbn [read fst snd self]. change (self m0) with (self m). rewrite Hmail.
    cbn [ret emit fst snd now self log Nat.add Nat.sub app].
    reflexivity. }
  split; [|now rewrite Hrun].
  rewrite (trace_of_extension E (delete_emails_fast E) m
             ([print (msg_failed_deletions (length candidates));
               print (msg_successfully_deleted 0);
               print msg_expunge_error]
              ++ rev (map (fun r => print (msg_flag_failed (id_of r)))
                          (firstn 4 candidates))
              ++ [delete_invoked])).
  - rewrite !rev_app_distr, rev_involutive. cbn [rev app]. reflexivity.
  - rewrite Hrun. cbn [snd log]. rewrite <- !app_assoc. reflexivity.
Qed.

Lemma deletion_without_session_sends_nothing_witness :
  trace (delete_emails_fast (Script.env (Script.calm [] "yes")))
        (disconnected (Script.calm [] "yes")
                      (candidates_for ["1"; "2"; "3"; "4"; "5"; "6"]))
  = [delete_invoked;
     print (msg_flag_failed "1"); print (msg_flag_failed "2");
     print (msg_flag_failed "3"); print (msg_flag_failed "4");
     print msg_expunge_error;
     print (msg_successfully_deleted 0);
     print (msg_failed_deletions 6)].
Proof.
  exact (proj1 (deletion_without_session_sends_nothing
                  (Script.env (Script.calm [] "yes"))
                  (disconnected (Script.calm [] "yes")
                                (candidates_for ["1"; "2"; "3"; "4"; "5"; "6"]))
                  eq_refl)).
Defined.

(** X7.  With a session open, [delete_emails_fast] prints a line
    [Failed: ...] for each of the first four candidates whose flag store
    raises, in candidate order, and for no other candidate: a store that
    returns gives no line, and from the fifth store that raises on there is
    no line either.  The last line of the report gives the number of all
    the stores that raised. *)
Theorem failed_lines_stop_after_four
    (E : Env) (m : machine E) (c : conn E) :
  mail (self m) = Some c ->
  let failed :=
    failed_ones (store_replies E c (emails_to_delete (self m)) (now m)) in
  let tr := trace (delete_emails_fast E) m in
  filter is_failed_line tr
  = map (fun r => print (msg_flag_failed (id_of r))) (firstn 4 failed)
  /\ last tr delete_invoked = print (msg_failed_deletions (length failed)).
Proof.
  intros Hmail failed tr.
  set (candidates := emails_to_delete (self m)) in *.
  set (m0 := snd (emit delete_invoked m)).
  assert (Hmail0 : mail (self m0) = Some c) by exact Hmail.
  assert (Hflag : flag_batches E (slices candidates delete_batch_size) (0, 0) m0
                  = flag_batch E candidates (0, 0) m0).
  { rewrite flag_batches_concat, concat_slices
      by (unfold delete_batch_size; lia). reflexivity. }
  destruct (flag_batch_failed_ones E candidates 0 0 m0 c Hmail0)
    as (t1 & Ht1 & Hn1).
  destruct (flag_batch_tally E candidates 0 0 m0 c Hmail0) as [Htally _].
  change (now m0) with (now m) in Hn1, Htally. fold failed in Hn1, Htally.
  rewrite <- Hflag in Ht1, Htally.
  set (counts := fst (flag_batches E (slices candidates delete_batch_size)
                                   (0, 0) m0)) in *.
  assert (Hfailed : snd counts = length failed) by now rewrite Htally.
  set (m1 := snd (flag_batches E (slices candidates delete_batch_size)
                               (0, 0) m0)) in *.
  destruct (on_mail_no_failed_line E call_expunge (expunge E) m1 eq_refl)
    as (t2 & Ht2 & Hn2).
  set (line := match fst (on_mail E call_expunge (expunge E) m1) with
               | Ret _ => msg_deletion_complete
               | Raise _ => msg_expunge_error
               end).
  assert (Hlog : log (snd (delete_emails_fast E m))
                 = ([print (msg_failed_deletions (snd counts));
                     print (msg_successfully_deleted (fst counts));
                     print line] ++ t2 ++ t1 ++ [delete_invoked]) ++ log m).
  { unfold delete_emails_fast. rewrite !bind_eq. cbn [read fst snd].
    change (snd (emit delete_invoked m)) with m0.
    change (emails_to_delete (self m0)) with candidates.
    fold m1. fold counts.
    assert (Hl : log (snd ((match fst (on_mail E call_expunge (expunge E) m1)
                            with
                            | Ret _ => emit (print msg_deletion_complete)
                            | Raise _ => emit (print msg_expunge_error)
                            end) (snd (on_mail E call_expunge (expunge E) m1))))
                 = print line :: log (snd (on_mail E call_expunge (expunge E) m1))).
    { unfold line.
      destruct (fst (on_mail E call_expunge (expunge E) m1)); reflexivity. }
    cbn [emit fst snd log]. rewrite Hl, Ht2, Ht1.
    cbn [m0 emit snd log]. rewrite <- !app_assoc. reflexivity. }
  unfold tr. rewrite (trace_of_extension E _ m _ Hlog).
  rewrite !rev_app_distr. cbn [rev app]. split.
  - rewrite <- !app_assoc. cbn [app filter is_failed_line].
    rewrite !filter_app. cbn [filter is_failed_line app].
    assert (H2 : filter is_failed_line (rev t2) = [])
      by (apply filter_nothing; now apply Forall_rev).
    rewrite H2, Hn1. cbn [app].
    change (match line with msg_flag_failed _ => true | _ => false end)
      with (is_failed_line (print line)).
    assert (Hline : is_failed_line (print line) = false)
      by (unfold line; destruct (fst (on_mail E call_expunge (expunge E) m1));
          reflexivity).
    rewrite Hline. now rewrite app_nil_r.
  - rewrite <- !app_assoc. cbn [app].
    rewrite app_comm_cons, !app_assoc.
    change [print line; print (msg_successfully_deleted (fst counts));
            print (msg_failed_deletions (snd counts))]
      with ([print line; print (msg_successfully_deleted (fst counts))]
            ++ [print (msg_failed_deletions (snd counts))]).
    rewrite app_assoc, last_last, Hfailed. reflexivity.
Qed.

(** Six candidates, every store raises but the one for "3": lines for "1",
    "2", "4" and "5", none for "6". *)
Lemma failed_lines_stop_after_four_witness :
  let s := store_fails (fun i => negb (String.eqb i "3")) in
  filter is_failed_line
    (trace (delete_emails_fast (Script.env s))
           (scanned s (candidates_for ["1"; "2"; "3"; "4"; "5"; "6"])))
  = [print (msg_flag_failed "1"); print (msg_flag_failed "2");
     print (msg_flag_failed "4"); print (msg_flag_failed "5")].
Proof.
  cbn zeta.
  rewrite (proj1 (failed_lines_stop_after_four
                    (Script.env (store_fails (fun i => negb (String.eqb i "3"))))
                    (scanned (store_fails (fun i => negb (String.eqb i "3")))
                             (candidates_for ["1"; "2"; "3"; "4"; "5"; "6"]))
                    tt eq_refl)).
  reflexivity.
Defined.

(** X8.  [delete_emails_fast] changes nothing on the object except,
    possibly, raising the stop flag on a signal: the password, the session,
    the candidate list and the three counters are those it started with, and
    a stop flag already set stays set.  The candidates it has flagged are
    still listed afterwards. *)
Theorem deletion_keeps_the_object (E : Env) (m : machine E) :
  let o := self m in
  let o' := self (snd (delete_emails_fast E m)) in
  password o' = password o
  /\ mail o' = mail o
  /\ emails_to_delete o' = emails_to_delete o
  /\ processed_count o' = processed_count o
  /\ deleted_count o' = deleted_count o
  /\ kept_count o' = kept_count o
  /\ (stop_requested o = true -> stop_requested o' = true).
Proof.
  cbn zeta.
  destruct (delete_emails_fast_same_but_stop E m) as (Hp & Hm & Hc & Hs).
  unfold counters in Hc. injection Hc as H1 H2 H3 H4.
  repeat (split; [assumption|]). exact Hs.
Qed.

End DeletionProperties.

Section PromptProperties.

(** X9.  [show_analysis_results] asks for confirmation exactly when the run
    is not a dry run and the scan counted a candidate, and then once; it
    enters [delete_emails_fast] exactly when, in addition, the prompt
    returns an answer that is "yes" once lower-cased.  When it does not ask
    it touches nothing outside the program. *)
Theorem prompt_decides_deletion
    (E : Env) (total_emails : nat) (dry_run : bool) (m : machine E) :
  let tr := trace (show_analysis_results E total_emails dry_run) m in
  let asks := negb dry_run && (0 <? deleted_count (self m)) in
  filter is_prompt tr = (if asks then [call_input] else [])
  /\ (In delete_invoked tr <->
      asks = true
      /\ exists confirm, outcome (input E (now m)) = Ret confirm
                         /\ PyStr.lower confirm = "yes")
  /\ (asks = false ->
      now (snd (show_analysis_results E total_emails dry_run m)) = now m).
Proof.
  intros tr asks. unfold tr, asks. clear tr asks.
  set (summary := print (msg_summary (stop_requested (self m))
                           (processed_count (self m)) total_emails
                           (deleted_count (self m)) (kept_count (self m)))).
  set (m1 := mk_machine (now m) (self m) (summary :: log m)).
  assert (Hrun : show_analysis_results E total_emails dry_run m
                 = (if dry_run
                    then (emit (print msg_dry_run) ;; ret (Ret tt))
                    else if 0 <? deleted_count (self m)
                         then bind_try E (call E call_input (input E))
                                (fun confirm =>
                                   emit (answered confirm) ;;
                                   if affirmative confirm
                                   then delete_emails_fast E ;; ret (Ret tt)
                                   else emit (print msg_deletion_cancelled) ;;
                                        ret (Ret tt))
                         else emit (print msg_none_identified) ;; ret (Ret tt))
                     m1).
  { unfold show_analysis_results. rewrite !bind_eq. reflexivity. }
  destruct dry_run.
  { assert (Hlog : log (snd (show_analysis_results E total_emails true m))
                   = [print msg_dry_run; summary] ++ log m)
      by (rewrite Hrun; reflexivity).
    rewrite (trace_of_extension E _ m _ Hlog). cbn [negb andb rev app].
    split; [reflexivity|]. split.
    - split; [|intros [H _]; discriminate H].
      intros [H|[H|[]]]; discriminate H.
    - intros _. rewrite Hrun. reflexivity. }
  cbn [negb andb].
  destruct (0 <? deleted_count (self m)).
  2:{ assert (Hlog : log (snd (show_analysis_results E total_emails false m))
                     = [print msg_none_identified; summary] ++ log m)
        by (rewrite Hrun; reflexivity).
      rewrite (trace_of_extension E _ m _ Hlog). cbn [rev app].
      split; [reflexivity|]. split.
      - split; [|intros [H _]; discriminate H].
        intros [H|[H|[]]]; discriminate H.
      - intros _. rewrite Hrun. reflexivity. }
  rewrite bind_try_eq in Hrun.
  pose proof (call_log E call_input (input E) m1) as Hcall.
  assert (Hout : fst (call E call_input (input E) m1) = outcome (input E (now m)))
    by reflexivity.
  set (b := sigint (input E (now m1))) in Hcall.
  set (m2 := snd (call E call_input (input E) m1)) in *.
  rewrite Hout in Hrun.
  assert (Hsig : filter is_prompt (signal_events b) = []
                 /\ ~ In delete_invoked (signal_events b)).
  { destruct b; cbn; split; try reflexivity; intros H;
      repeat (destruct H as [H|H]; [discriminate H|]); exact H. }
  destruct Hsig as [Hsig1 Hsig2].
  destruct (outcome (input E (now m))) as [confirm|e].
  2:{ assert (Hlog : log (snd (show_analysis_results E total_emails false m))
                     = (rev (signal_events b) ++ [call_input; summary]) ++ log m).
      { rewrite Hrun. cbn [ret snd]. rewrite Hcall. cbn [m1 log].
        rewrite <- app_assoc. reflexivity. }
      rewrite (trace_of_extension E _ m _ Hlog).
      rewrite rev_app_distr, rev_involutive. cbn [rev app].
      split; [cbn [filter is_prompt]; now rewrite Hsig1|]. split.
      - split.
        + intros [H|[H|H]]; try discriminate H. contradiction.
        + intros (_ & c & H & _). discriminate H.
      - intros H. discriminate H. }
  rewrite bind_eq in Hrun. cbn [emit fst snd] in Hrun.
  set (m3 := mk_machine (now m2) (self m2) (answered confirm :: log m2)) in *.
  assert (Hyes : affirmative confirm = true <-> PyStr.lower confirm = "yes")
    by (unfold affirmative; apply String.eqb_eq).
  destruct (affirmative confirm).
  - rewrite bind_eq in Hrun. cbn [ret snd] in Hrun.
    destruct (delete_emails_fast_enters E
                (fun e => is_prompt e = false) m3) as (t & Ht & Ft).
    { intros e He. destruct e; try reflexivity; discriminate He. }
    { intros e He. destruct e; try reflexivity; discriminate He. }
    assert (Hlog : log (snd (show_analysis_results E total_emails false m))
                   = (t ++ [delete_invoked; answered confirm]
                        ++ rev (signal_events b) ++ [call_input; summary])
                     ++ log m).
    { rewrite Hrun. cbn [ret snd]. rewrite Ht. cbn [m3 log]. rewrite Hcall.
      cbn [m1 log]. rewrite <- !app_assoc. reflexivity. }
    rewrite (trace_of_extension E _ m _ Hlog).
    rewrite !rev_app_distr, rev_involutive. cbn [rev app].
    rewrite <- ?app_assoc. cbn [app].
    split.
    + cbn [filter is_prompt]. rewrite !filter_app, Hsig1.
      cbn [filter is_prompt app].
      rewrite (filter_nothing is_prompt (rev t)) by now apply Forall_rev.
      reflexivity.
    + split; [|intros H; discriminate H].
      split.
      * intros _. split; [reflexivity|]. exists confirm.
        split; [reflexivity | now apply Hyes].
      * intros _. right. right. apply in_or_app. right.
        right. now left.
  - rewrite bind_eq in Hrun. cbn [emit ret fst snd] in Hrun.
    assert (Hlog : log (snd (show_analysis_results E total_emails false m))
                   = ([print msg_deletion_cancelled; answered confirm]
                        ++ rev (signal_events b) ++ [call_input; summary])
                     ++ log m).
    { rewrite Hrun. cbn [snd log m3]. rewrite Hcall.
      cbn [m1 log]. rewrite <- !app_assoc. reflexivity. }
    rewrite (trace_of_extension E _ m _ Hlog).
    rewrite !rev_app_distr, rev_involutive. cbn [rev app].
    rewrite <- ?app_assoc. cbn [app].
    split.
    + cbn [filter is_prompt]. rewrite !filter_app, Hsig1. reflexivity.
    + split; [|intros H; discriminate H].
      split.
      * intros [H|[H|H]]; try discriminate H.
        apply in_app_or in H. destruct H as [H|[H|[H|[]]]];
          try discriminate H. contradiction.
      * intros (_ & c & Hc & Hl). injection Hc as <-.
        apply Hyes in Hl. discriminate Hl.
Qed.

End PromptProperties.

Section ConnectionProperties.

(** X10.  The result of [connect_to_gmail] and of [reconnect_if_needed]
    tells whether the object holds a session afterwards: [True] is returned
    with a session stored in [self.mail], [False] with [self.mail] set to
    [None], from any state and whatever the network answers. *)
Theorem connection_result_tells_session (E : Env) (m : machine E) :
  has_session (self (snd (connect_to_gmail E m))) = fst (connect_to_gmail E m)
  /\ has_session (self (snd (reconnect_if_needed E m)))
     = fst (reconnect_if_needed E m).
Proof.
  split; [apply connect_to_gmail_session | apply reconnect_if_needed_session].
Qed.

(** X11.  One call of [connect_to_gmail] asks for the password exactly
    once, before anything else of the set-up, and then makes at most three
    rounds of opening a connection, logging in and selecting the inbox, in
    that order; a retry never asks again. *)
Theorem connect_asks_once_and_tries_thrice (E : Env) (m : machine E) :
  exists rest,
    filter is_setup (trace (connect_to_gmail E) m) = call_getpass :: rest
    /\ Subseq rest (setup_round ++ setup_round ++ setup_round)
    /\ filter is_getpass rest = [].
Proof.
  destruct (emits_trace E is_setup _ (connect_to_gmail E) m
              (connect_to_gmail_setup E)) as (rest & Hrest & Hsub).
  exists rest. split; [exact Hrest|]. split; [exact Hsub|].
  apply filter_nothing. rewrite Forall_forall. intros e He.
  apply (subseq_in _ _ e Hsub) in He.
  cbn in He. repeat (destruct He as [<-|He]; [reflexivity|]). contradiction.
Qed.

(** X12.  [reconnect_if_needed] asks for the password again whenever its
    probe of the session fails, be it that the NOOP raises or that no
    session is held: the prompt appears once in that case and not at all
    when the probe succeeds. *)
Theorem lost_session_asks_password_again (E : Env) (m : machine E) :
  filter is_getpass (trace (reconnect_if_needed E) m)
  = match fst (on_mail E call_noop (noop E) m) with
    | Ret _ => []
    | Raise _ => [call_getpass]
    end.
Proof.
  destruct (log_on_mail E (fun e => is_getpass e = false)
              (fun e He => ltac:(destruct e; first [reflexivity | discriminate He]))
              call_noop (noop E) m eq_refl) as (t0 & Ht0 & F0).
  assert (H0 : filter is_getpass (rev t0) = [])
    by (apply filter_nothing; now apply Forall_rev).
  set (r := on_mail E call_noop (noop E) m) in *.
  destruct (fst r) as [u|e] eqn:Hr.
  - rewrite (trace_of_extension E _ m (ensured_live true :: t0)).
    + cbn [rev]. rewrite filter_app, H0. reflexivity.
    + unfold reconnect_if_needed. rewrite bind_eq. fold r. rewrite Hr.
      rewrite bind_eq. cbn [emit ret fst snd log]. now rewrite Ht0.
  - set (m1 := mk_machine (now (snd r)) (self (snd r))
                          (print msg_connection_lost :: log (snd r))).
    destruct (connect_to_gmail_getpass E m1) as (t1 & Ht1 & H1).
    rewrite (trace_of_extension E _ m
               (ensured_live (fst (connect_to_gmail E m1))
                  :: t1 ++ print msg_connection_lost :: t0)).
    + cbn [rev]. rewrite rev_app_distr. cbn [rev].
      rewrite !filter_app, H0, H1. reflexivity.
    + unfold reconnect_if_needed. rewrite bind_eq. fold r. rewrite Hr.
      rewrite !bind_eq. cbn [emit ret fst snd log]. fold m1.
      rewrite Ht1. cbn [m1 log]. rewrite Ht0, <- app_comm_cons, <- app_assoc.
      reflexivity.
Qed.

End ConnectionProperties.

Section SearchProperties.

(** X13.  [get_unread_emails_fast] makes between one and three attempts.
    Each logs one verdict of [reconnect_if_needed], and a search is made
    only straight after the verdict that the session is live, so there are
    at most three searches.  When the list returned is not empty the object
    holds a session. *)
Theorem search_only_after_live_check (E : Env) (m : machine E) :
  let tr := trace (get_unread_emails_fast E) m in
  (exists first blocks,
      filter is_check_or_search tr = first ++ concat blocks
      /\ attempt_block first /\ Forall attempt_block blocks
      /\ length blocks <= 2)
  /\ length (filter is_search tr) <= 3
  /\ (fst (get_unread_emails_fast E m) <> [] ->
      has_session (self (snd (get_unread_emails_fast E m))) = true).
Proof.
  cbn zeta.
  assert (H : exists first blocks,
             filter is_check_or_search (trace (get_unread_emails_fast E) m)
             = first ++ concat blocks
             /\ attempt_block first /\ Forall attempt_block blocks
             /\ length blocks <= 2).
  { apply (emits_trace E is_check_or_search
             (fun l => exists first blocks,
                  l = first ++ concat blocks /\ attempt_block first
                  /\ Forall attempt_block blocks /\ length blocks <= 2)
             (get_unread_emails_fast E) m).
    unfold get_unread_emails_fast. cbn [max_search_retries seq].
    apply (search_attempt_blocks E 0 [1; 2] 2).
    apply (search_attempts_blocks E [1; 2]). }
  split; [exact H|]. split.
  - destruct H as (first & blocks & Hl & Hf & HF & Hlen).
    rewrite <- (filter_narrower is_search is_check_or_search)
      by (intros e He; destruct e; first [reflexivity | discriminate He]).
    rewrite Hl.
    pose proof (searches_in_blocks (first :: blocks)
                  (Forall_cons _ Hf HF)) as Hc.
    cbn [concat length] in Hc. lia.
  - apply search_attempts_session.
Qed.

End SearchProperties.

Section FetchProperties.

(** X14.  [analyze_emails_fast] fetches the headers of unread messages
    only: the fetches it makes are for ids of the list the search returned
    in this call, in the order of that list, two at most for each id.
    [process_email_batch] does the same for its batch. *)
Theorem scan_fetches_unread_ids_at_most_twice
    (E : Env) (dry_run : bool) (m : machine E) :
  Subseq (filter is_fetch (trace (analyze_emails_fast E dry_run) m))
         (fetch_budget (fst (get_unread_emails_fast E m)))
  /\ forall email_batch m',
       Subseq (filter is_fetch (trace (process_email_batch E email_batch) m'))
              (fetch_budget email_batch).
Proof.
  split.
  2:{ intros email_batch m'.
      apply (emits_trace E is_fetch (fun l => Subseq l (fetch_budget email_batch))).
      apply process_email_batch_fetches. }
  destruct (get_unread_emails_fast_no_fetch E m) as (t1 & Ht1 & F1).
  set (email_ids := fst (get_unread_emails_fast E m)).
  set (m1 := snd (get_unread_emails_fast E m)) in *.
  assert (K : emits E is_fetch (fun l => Subseq l (fetch_budget email_ids))
                (match email_ids with
                 | [] => emit (print msg_no_unread) ;; ret (Ret tt)
                 | _ =>
                     update (reset_counters E) ;;
                     scan_batches E (fetch_email_headers_batch email_ids
                                       scan_batch_size) ;;
                     show_analysis_results E (length email_ids) dry_run
                 end)).
  { destruct email_ids as [|i rest] eqn:Hids.
    - apply within_silent. only_steps.
    - rewrite <- Hids.
      apply (within_bind E is_fetch []);
        [apply within_silent, only_update | intros _].
      apply (within_subseq E is_fetch (fetch_budget email_ids ++ []));
        [|rewrite app_nil_r; apply subseq_refl].
      apply (within_bind E is_fetch (fetch_budget email_ids) []).
      + pose proof (scan_batches_fetches E
                      (fetch_email_headers_batch email_ids scan_batch_size))
          as H.
        unfold fetch_email_headers_batch in H.
        rewrite concat_slices in H by (unfold scan_batch_size; lia).
        exact H.
      + intros _. apply within_silent, show_analysis_results_no_fetch. }
  destruct (K m1) as (t2 & Ht2 & H2).
  assert (Hlog : log (snd (analyze_emails_fast E dry_run m))
                 = (t2 ++ t1) ++ log m).
  { unfold analyze_emails_fast. rewrite bind_eq. fold email_ids. fold m1.
    now rewrite Ht2, Ht1, app_assoc. }
  rewrite (trace_of_extension E _ m _ Hlog).
  rewrite rev_app_distr, filter_app, (filter_rev_nothing is_fetch t1 F1).
  exact H2.
Qed.

End FetchProperties.

Section ClosingProperties.

(** X15.  [close_connection] does nothing when no session is held.  With
    a session it calls [close] and then, only if [close] did not raise,
    [logout]: a failure of [close] is swallowed and the logout is skipped.
    Either way the object keeps what it held, the session included. *)
Theorem close_skips_logout_when_close_fails (E : Env) (m : machine E) :
  let tr := trace (close_connection E) m in
  let m' := snd (close_connection E m) in
  filter is_closing tr
  = match mail (self m) with
    | None => []
    | Some c =>
        call_close :: match outcome (close E c (now m)) with
                      | Ret _ => [call_logout]
                      | Raise _ => []
                      end
    end
  /\ (mail (self m) = None -> m' = m)
  /\ same_but_stop (self m) (self m').
Proof.
  cbn zeta. destruct (mail (self m)) as [c|] eqn:Hmail.
  2:{ assert (Hrun : close_connection E m = (tt, m)).
      { unfold close_connection. rewrite bind_eq. cbn [read fst snd].
        now rewrite Hmail. }
      rewrite Hrun. cbn [snd]. split; [|split].
      - unfold trace. rewrite Hrun. cbn [snd]. now rewrite Nat.sub_diag.
      - reflexivity.
      - apply same_but_stop_refl. }
  pose proof (close_connection_connected E m c Hmail) as Hrun.
  cbn zeta in Hrun.
  pose proof (call_log E call_close (close E c) m) as Hlog1.
  pose proof (call_same_but_stop E call_close (close E c) m) as Hs1.
  assert (Hout : fst (call E call_close (close E c) m)
                 = outcome (close E c (now m))) by reflexivity.
  set (closed := call E call_close (close E c) m) in *.
  rewrite Hout in Hrun.
  split; [|split].
  - destruct (outcome (close E c (now m))) as [u|e].
    + pose proof (call_log E call_logout (logout E c) (snd closed)) as Hlog2.
      rewrite Hlog1 in Hlog2.
      rewrite (trace_of_extension E _ m
                 (rev (signal_events (sigint (logout E c (now (snd closed)))))
                  ++ [call_logout]
                  ++ rev (signal_events (sigint (close E c (now m))))
                  ++ [call_close]))
        by (rewrite Hrun; cbn [snd]; rewrite Hlog2, <- !app_assoc; reflexivity).
      rewrite !rev_app_distr, !rev_involutive. cbn [rev app].
      rewrite <- !app_assoc. cbn [app filter is_closing].
      rewrite !filter_app. cbn [filter is_closing app].
      now rewrite !(filter_signal_events is_closing (is_closing_local)).
    + rewrite (trace_of_extension E _ m
                 (rev (signal_events (sigint (close E c (now m))))
                  ++ [call_close]))
        by (rewrite Hrun; cbn [snd]; rewrite Hlog1, <- !app_assoc; reflexivity).
      rewrite !rev_app_distr, !rev_involutive. cbn [rev app filter is_closing].
      now rewrite (filter_signal_events is_closing (is_closing_local)).
  - intros H. discriminate H.
  - rewrite Hrun. cbn [snd].
    destruct (outcome (close E c (now m))); [|exact Hs1].
    eapply same_but_stop_trans; [exact Hs1 | apply call_same_but_stop].
Qed.

End ClosingProperties.

Section RunProperties.

(** X16.  When [connect_to_gmail] fails, [main] ends in the state that
    [connect_to_gmail] left: nothing is searched, fetched, asked or
    deleted, and [close_connection] finds no session to close. *)
Theorem failed_connection_ends_run
    (E : Env) (dry_run_mode : bool) (m : machine E) :
  fst (connect_to_gmail E m) = false ->
  main E dry_run_mode m = (tt, snd (connect_to_gmail E m))
  /\ trace (main E dry_run_mode) m = trace (connect_to_gmail E) m.
Proof.
  intros Hfail. pose proof (main_without_connection E dry_run_mode m Hfail) as H.
  split; [exact H|]. unfold trace. now rewrite H.
Qed.

Lemma failed_connection_ends_run_witness :
  trace (main offline false) (start offline (0 : nat))
  = [call_getpass; call_IMAP4_SSL; print (msg_connection_failed 1);
     sleep 2; call_IMAP4_SSL; print (msg_connection_failed 2);
     sleep 2; call_IMAP4_SSL; print (msg_connection_failed 3);
     print msg_all_connections_failed].
Proof.
  rewrite (proj2 (failed_connection_ends_run offline false
                    (start offline (0 : nat)) eq_refl)).
  reflexivity.
Defined.

End RunProperties.
